(** * Keccak-256 counter-mode PRNG of falcon-go: model and properties

    The development follows the three C renditions of the engine that the
    repository carries:

    - [Plain]    : [c/keccak_prng.c], no output cache, no suffix byte;
    - [Buffered] : the rendition with an output cache ([out_buffer],
                   [out_buffer_pos], [out_buffer_len]);
    - [Shake]    : the rendition built on [sha3_256] that appends the
                   domain-separation byte [0x1F] in [flip].

    Each C function becomes a Rocq function of the same name that takes the
    objects its pointer arguments refer to ([None] for a NULL pointer) and
    returns the [int] result together with the objects after the call.

    [Falcon] holds the Go wrappers of [falcon/falcon.go]; a Go function
    becomes a Rocq function of the same name whose result tells how the
    call ends (value, error or panic), over an arbitrary C library. *)

From Stdlib Require Import Strings.Ascii Strings.String Strings.Byte.
From Stdlib Require Import ZArith List Lia Bool Arith PeanoNat ZifyNat.
Import ListNotations.

Local Open Scope Z_scope.

Ltac Zify.zify_post_hook ::= Z.to_euclidean_division_equations.

(* ================================================================= *)
(** ** Bytes, machine integers and the C library *)

(** The byte that a C conversion to [uint8_t] yields. *)
Definition byte_of_Z (z : Z) : byte :=
  match Byte.of_N (Z.to_N (z mod 256)) with
  | Some b => b
  | None => x00
  end.

Definition Z_of_byte (b : byte) : Z := Z.of_N (Byte.to_N b).

(** Bytes written as a string of hexadecimal digits, two per byte. *)
Definition hex_digit (a : ascii) : Z :=
  let n := Z.of_N (N_of_ascii a) in
  if (48 <=? n) && (n <=? 57) then n - 48
  else if (97 <=? n) && (n <=? 102) then n - 87
  else 0.

Fixpoint hex_bytes (s : string) : list byte :=
  match s with
  | String a (String b rest) =>
      byte_of_Z (16 * hex_digit a + hex_digit b) :: hex_bytes rest
  | _ => []
  end.

(** [uint64_t] arithmetic wraps modulo [2^64]. *)
Definition UINT64_MOD : Z := 2 ^ 64.

Definition uint64_incr (c : Z) : Z := (c + 1) mod UINT64_MOD.

(** [memcpy (dst + off, src, n)]: the destination array after the copy,
    for an offset and a count within the arrays.  The fill level of a
    buffer and the cursors into it are natural numbers; the [len]
    argument of [inject], which the caller chooses, is a [size_t] value
    and the sum in its capacity check is taken in [size_t] ([size_add]
    below). *)
Definition memcpy (dst : list byte) (off : nat) (src : list byte) (n : nat)
  : list byte :=
  firstn off dst ++ firstn n src ++ skipn (off + n) dst.

(** [memset (dst, c, n)] over a whole [n]-byte array. *)
Definition memset (c : byte) (n : nat) : list byte := repeat c n.

(** [size_t] arithmetic wraps modulo [SIZE_MAX + 1]; [size_t] has 64 bits.
    The capacity [MAX_BUFFER_SIZE] of the input buffer is the size of an
    array and so a value of that type: should a capacity be supplied that
    64 bits cannot hold, the modulus is the next value above it. *)
Definition SIZE_MOD (MAX_BUFFER_SIZE : nat) : Z :=
  Z.max (2 ^ 64) (Z.of_nat MAX_BUFFER_SIZE + 1).

(** [a + b] in [size_t], for a length [a] and a [size_t] value [b]. *)
Definition size_add (MAX_BUFFER_SIZE : nat) (a : nat) (b : Z) : Z :=
  (Z.of_nat a + b) mod SIZE_MOD MAX_BUFFER_SIZE.

(* ================================================================= *)
(** ** The Keccak sponge *)

(** Modelled from the spec: the hash primitive ("a Keccak-family
    permutation instantiated to produce a 256-bit digest").  Its C files
    ([keccak256.h], [keccak_tiny.h]) are not among the sources; the
    functions below follow the Keccak reference (rate 1088, capacity 512,
    24 rounds of Keccak-f[1600]) and are checked against published
    digests further down.  They serve as the concrete instance of the
    hash interface. *)
Module Keccak.

Definition MASK64 : Z := Z.ones 64.

Definition rotl64 (x : Z) (n : Z) : Z :=
  Z.land (Z.lor (Z.shiftl x n) (Z.shiftr x (64 - n))) MASK64.

(** Lane [(x, y)] of the 5 x 5 state is stored at index [x + 5 y]. *)
Definition lane (A : list Z) (x y : nat) : Z :=
  nth ((x mod 5) + 5 * (y mod 5))%nat A 0.

Definition RC : list Z :=
  [ 0x0000000000000001; 0x0000000000008082; 0x800000000000808A;
    0x8000000080008000; 0x000000000000808B; 0x0000000080000001;
    0x8000000080008081; 0x8000000000008009; 0x000000000000008A;
    0x0000000000000088; 0x0000000080008009; 0x000000008000000A;
    0x000000008000808B; 0x800000000000008B; 0x8000000000008089;
    0x8000000000008003; 0x8000000000008002; 0x8000000000000080;
    0x000000000000800A; 0x800000008000000A; 0x8000000080008081;
    0x8000000000008080; 0x0000000080000001; 0x8000000080008008 ].

Definition RHO : list Z :=
  [  0;  1; 62; 28; 27;
    36; 44;  6; 55; 20;
     3; 10; 43; 25; 39;
    41; 45; 15; 21;  8;
    18;  2; 61; 56; 14 ].

Definition theta (A : list Z) : list Z :=
  let C := map (fun x =>
                  Z.lxor (lane A x 0)
                    (Z.lxor (lane A x 1)
                       (Z.lxor (lane A x 2)
                          (Z.lxor (lane A x 3) (lane A x 4)))))
               (seq 0 5) in
  let D := map (fun x =>
                  Z.lxor (nth ((x + 4) mod 5)%nat C 0)
                         (rotl64 (nth ((x + 1) mod 5)%nat C 0) 1))
               (seq 0 5) in
  map (fun i => Z.lxor (nth i A 0) (nth (i mod 5)%nat D 0)) (seq 0 25).

Definition rho_pi (A : list Z) : list Z :=
  map (fun i =>
         let x := (i mod 5)%nat in
         let y := (i / 5)%nat in
         let sx := ((x + 3 * y) mod 5)%nat in
         rotl64 (lane A sx x) (nth (sx + 5 * x)%nat RHO 0))
      (seq 0 25).

Definition chi (B : list Z) : list Z :=
  map (fun i =>
         let x := (i mod 5)%nat in
         let y := (i / 5)%nat in
         Z.lxor (lane B x y)
           (Z.land (Z.lxor (lane B (x + 1) y) MASK64) (lane B (x + 2) y)))
      (seq 0 25).

Definition iota (rc : Z) (A : list Z) : list Z :=
  match A with
  | [] => []
  | a :: A' => Z.lxor a rc :: A'
  end.

Definition round (A : list Z) (rc : Z) : list Z :=
  iota rc (chi (rho_pi (theta A))).

Definition keccak_f (A : list Z) : list Z := fold_left round RC A.

(** Rate in bytes for a 256-bit digest. *)
Definition RATE : nat := 136.

Definition le_lane (bs : list byte) : Z :=
  fold_right (fun b acc => Z_of_byte b + 256 * acc) 0 bs.

Fixpoint lanes_of_bytes (n : nat) (bs : list byte) : list Z :=
  match n with
  | O => []
  | S k => le_lane (firstn 8 bs) :: lanes_of_bytes k (skipn 8 bs)
  end.

Fixpoint xor_into (A blk : list Z) : list Z :=
  match A, blk with
  | a :: A', b :: blk' => Z.lxor a b :: xor_into A' blk'
  | _, [] => A
  | [], _ => []
  end.

(** Multi-rate padding with the suffix byte [d] ([0x01] for the original
    Keccak, [0x06] for SHA-3). *)
Definition pad (d : Z) (msg : list byte) : list byte :=
  let q := (RATE - length msg mod RATE)%nat in
  if (q =? 1)%nat
  then msg ++ [byte_of_Z (Z.lor d 0x80)]
  else msg ++ [byte_of_Z d] ++ repeat x00 (q - 2) ++ [x80].

Fixpoint absorb (nblocks : nat) (A : list Z) (data : list byte) : list Z :=
  match nblocks with
  | O => A
  | S k =>
      absorb k
        (keccak_f (xor_into A (lanes_of_bytes 17 (firstn RATE data))))
        (skipn RATE data)
  end.

Definition squeeze32 (A : list Z) : list byte :=
  map (fun i => byte_of_Z (Z.shiftr (nth (i / 8)%nat A 0)
                                    (8 * Z.of_nat (i mod 8))))
      (seq 0 32).

Definition sponge256 (d : Z) (msg : list byte) : list byte :=
  let p := pad d msg in
  squeeze32 (absorb (length p / RATE) (repeat 0 25) p).

(** Keccak-256 as submitted (suffix [0x01]). *)
Definition keccak256 (msg : list byte) : list byte := sponge256 0x01 msg.

(** SHA3-256 of FIPS 202 (suffix [0x06]). *)
Definition sha3_256 (msg : list byte) : list byte := sponge256 0x06 msg.

End Keccak.

(* ================================================================= *)
(** ** The hash interface seen by the engine *)

(** Modelled from the spec: [KECCAK256_OUTPUT], the digest size in bytes
    ("fixed-size (32-byte) value"); its [#define] is in a header that is
    not among the sources. *)
Definition KECCAK256_OUTPUT : nat := 32.

(** [keccak_init (&ctx); keccak_update (&ctx, msg, len); keccak_final
    (&ctx, digest)] of [keccak256.h], seen as one function from the message
    to the 32 bytes it stores. *)
Class Keccak256 := {
  keccak256 : list byte -> list byte;
  keccak256_length : forall msg, length (keccak256 msg) = KECCAK256_OUTPUT
}.

(** [sha3_256 (out, KECCAK256_OUTPUT, in, inlen)] of [keccak_tiny.h]: the
    [int] it returns and the contents of the 32-byte array [out] after the
    call, given the contents before it. *)
Class Sha3_256 := {
  sha3_256 : list byte -> list byte -> Z * list byte;
  sha3_256_length :
    forall out msg, length out = KECCAK256_OUTPUT ->
                    length (snd (sha3_256 out msg)) = KECCAK256_OUTPUT
}.

(** Error codes, as the C functions return them. *)
Definition PRNG_OK : Z := 0.
Definition ERR_NULL : Z := -1.       (* a NULL argument *)
Definition ERR_STATE : Z := -2.      (* wrong phase *)
Definition ERR_OVERFLOW : Z := -3.   (* input buffer would overflow *)

(** The eight bytes [(counter >> (56 - i * 8)) & 0xFF], [i = 0 .. 7]. *)
Definition counter_bytes (c : Z) : list byte :=
  map (fun i => byte_of_Z (Z.land (Z.shiftr c (56 - Z.of_nat i * 8)) 0xFF))
      (seq 0 8).

(* ================================================================= *)
(** ** [c/keccak_prng.c] *)

Module Plain.

(** Modelled from the spec: the context structure of [inner.h] (not
    among the sources), field by field as the functions use it. *)
Record inner_keccak256_prng_ctx := mk_ctx {
  buffer : list byte;      (* uint8_t buffer[MAX_BUFFER_SIZE] *)
  buffer_len : nat;        (* size_t *)
  state : list byte;       (* uint8_t state[KECCAK256_OUTPUT] *)
  counter : Z;             (* uint64_t *)
  finalized : bool         (* int, tested as a truth value *)
}.

Definition set_counter (c : Z) (sc : inner_keccak256_prng_ctx) :=
  mk_ctx (buffer sc) (buffer_len sc) (state sc) c (finalized sc).

Section Functions.
Context {K : Keccak256}.

(** The capacity of the input buffer: a macro of [inner.h], whose value the
    sources do not give; every function is stated for an arbitrary one. *)
Variable MAX_BUFFER_SIZE : nat.

(** Both arrays are cleared over their whole length. *)
Definition inner_keccak256_init (sc : option inner_keccak256_prng_ctx)
  : Z * option inner_keccak256_prng_ctx :=
  match sc with
  | None => (ERR_NULL, None)
  | Some _ =>
      (PRNG_OK,
       Some (mk_ctx (memset x00 MAX_BUFFER_SIZE) 0%nat
                    (memset x00 KECCAK256_OUTPUT) 0 false))
  end.

(** [inp] is the array that [in] points to and [len] the value of the
    parameter [len], a [size_t]: the function has no means to tell whether
    the two agree.  The sum in the capacity check and the update of
    [buffer_len] are computed in [size_t]. *)
Definition inner_keccak256_inject
    (sc : option inner_keccak256_prng_ctx) (inp : option (list byte))
    (len : Z)
  : Z * option inner_keccak256_prng_ctx :=
  match sc, inp with
  | Some c, Some data =>
      if finalized c then (ERR_STATE, sc)
      else if Z.of_nat MAX_BUFFER_SIZE
              <? size_add MAX_BUFFER_SIZE (buffer_len c) len
           then (ERR_OVERFLOW, sc)
           else (PRNG_OK,
                 Some (mk_ctx (memcpy (buffer c) (buffer_len c) data
                                      (Z.to_nat len))
                              (Z.to_nat (size_add MAX_BUFFER_SIZE
                                           (buffer_len c) len))
                              (state c) (counter c) (finalized c)))
  | _, _ => (ERR_NULL, sc)
  end.

(** The digest of the first [buffer_len] bytes of the buffer becomes the
    state. *)
Definition inner_keccak256_flip (sc : option inner_keccak256_prng_ctx)
  : Z * option inner_keccak256_prng_ctx :=
  match sc with
  | None => (ERR_NULL, None)
  | Some c =>
      if finalized c then (ERR_STATE, sc)
      else (PRNG_OK,
            Some (mk_ctx (buffer c) (buffer_len c)
                         (keccak256 (firstn (buffer_len c) (buffer c)))
                         (counter c) true))
  end.

(** The [while (offset < len)] loop.  Every turn copies at least one
    byte, so [len - offset] turns are always enough; [fuel] counts them
    ([plain_extract_loop_fuel] below: more fuel changes nothing).  [out]
    is the destination array, [block] the 40 bytes [state || counter]. *)
Fixpoint extract_loop (fuel : nat) (c : inner_keccak256_prng_ctx)
    (out : list byte) (offset len : nat)
  : inner_keccak256_prng_ctx * list byte :=
  match fuel with
  | O => (c, out)
  | S fuel' =>
      if (offset <? len)%nat then
        let block := state c ++ counter_bytes (counter c) in
        let squeeze_out := keccak256 block in
        let to_copy :=
          if (KECCAK256_OUTPUT <? len - offset)%nat
          then KECCAK256_OUTPUT else (len - offset)%nat in
        extract_loop fuel'
          (set_counter (uint64_incr (counter c)) c)
          (memcpy out offset squeeze_out to_copy)
          (offset + to_copy)%nat len
      else (c, out)
  end.

Definition inner_keccak256_extract
    (sc : option inner_keccak256_prng_ctx) (out : option (list byte))
    (len : nat)
  : Z * option inner_keccak256_prng_ctx * option (list byte) :=
  match sc, out with
  | Some c, Some o =>
      if negb (finalized c) then (ERR_STATE, sc, out)
      else
        let '(c', o') := extract_loop len c o 0%nat len in
        (PRNG_OK, Some c', Some o')
  | _, _ => (ERR_NULL, sc, out)
  end.

End Functions.
End Plain.

(* ================================================================= *)
(** ** The rendition with an output cache *)

Module Buffered.

(** Modelled from the spec: the context structure of [inner.h] for this
    rendition (not among the sources), with the output cache. *)
Record inner_keccak256_prng_ctx := mk_ctx {
  buffer : list byte;        (* uint8_t buffer[MAX_BUFFER_SIZE] *)
  buffer_len : nat;          (* size_t *)
  state : list byte;         (* uint8_t state[KECCAK256_OUTPUT] *)
  counter : Z;               (* uint64_t *)
  finalized : bool;          (* int, tested as a truth value *)
  out_buffer : list byte;    (* uint8_t out_buffer[KECCAK256_OUTPUT] *)
  out_buffer_pos : nat;      (* size_t *)
  out_buffer_len : nat       (* size_t *)
}.

Definition set_out_buffer_pos (p : nat) (sc : inner_keccak256_prng_ctx) :=
  mk_ctx (buffer sc) (buffer_len sc) (state sc) (counter sc) (finalized sc)
         (out_buffer sc) p (out_buffer_len sc).

Section Functions.
Context {K : Keccak256}.
Variable MAX_BUFFER_SIZE : nat.

Definition inner_keccak256_init (sc : option inner_keccak256_prng_ctx)
  : Z * option inner_keccak256_prng_ctx :=
  match sc with
  | None => (ERR_NULL, None)
  | Some c =>
      (PRNG_OK,
       Some (mk_ctx (memset x00 MAX_BUFFER_SIZE) 0%nat
                    (memset x00 KECCAK256_OUTPUT) 0 false
                    (out_buffer c) 0%nat 0%nat))
  end.

Definition inner_keccak256_inject
    (sc : option inner_keccak256_prng_ctx) (inp : option (list byte))
    (len : Z)
  : Z * option inner_keccak256_prng_ctx :=
  match sc, inp with
  | Some c, Some data =>
      if finalized c then (ERR_STATE, sc)
      else if Z.of_nat MAX_BUFFER_SIZE
              <? size_add MAX_BUFFER_SIZE (buffer_len c) len
           then (ERR_OVERFLOW, sc)
           else (PRNG_OK,
                 Some (mk_ctx (memcpy (buffer c) (buffer_len c) data
                                      (Z.to_nat len))
                              (Z.to_nat (size_add MAX_BUFFER_SIZE
                                           (buffer_len c) len))
                              (state c) (counter c) (finalized c)
                              (out_buffer c) (out_buffer_pos c)
                              (out_buffer_len c)))
  | _, _ => (ERR_NULL, sc)
  end.

Definition inner_keccak256_flip (sc : option inner_keccak256_prng_ctx)
  : Z * option inner_keccak256_prng_ctx :=
  match sc with
  | None => (ERR_NULL, None)
  | Some c =>
      if finalized c then (ERR_STATE, sc)
      else (PRNG_OK,
            Some (mk_ctx (buffer c) (buffer_len c)
                         (keccak256 (firstn (buffer_len c) (buffer c)))
                         (counter c) true
                         (out_buffer c) 0%nat 0%nat))
  end.

(** The [while (offset < len)] loop; each turn stores the fresh block
    in [out_buffer] and records how much of it went out.  As in [Plain],
    [len - offset] turns are always enough
    ([buffered_extract_loop_fuel]). *)
Fixpoint extract_loop (fuel : nat) (c : inner_keccak256_prng_ctx)
    (out : list byte) (offset len : nat)
  : inner_keccak256_prng_ctx * list byte :=
  match fuel with
  | O => (c, out)
  | S fuel' =>
      if (offset <? len)%nat then
        let block := state c ++ counter_bytes (counter c) in
        let out_buffer' := keccak256 block in
        let remaining := (len - offset)%nat in
        let to_copy :=
          if (remaining <? KECCAK256_OUTPUT)%nat
          then remaining else KECCAK256_OUTPUT in
        extract_loop fuel'
          (mk_ctx (buffer c) (buffer_len c) (state c)
                  (uint64_incr (counter c)) (finalized c)
                  out_buffer' to_copy KECCAK256_OUTPUT)
          (memcpy out offset out_buffer' to_copy)
          (offset + to_copy)%nat len
      else (c, out)
  end.

Definition inner_keccak256_extract
    (sc : option inner_keccak256_prng_ctx) (out : option (list byte))
    (len : nat)
  : Z * option inner_keccak256_prng_ctx * option (list byte) :=
  match sc, out with
  | Some c, Some o =>
      if negb (finalized c) then (ERR_STATE, sc, out)
      else if (out_buffer_pos c <? out_buffer_len c)%nat then
        (* serve what is left of the cached block first *)
        let available := (out_buffer_len c - out_buffer_pos c)%nat in
        let to_copy := if (len <? available)%nat then len else available in
        let o1 := memcpy o 0 (skipn (out_buffer_pos c) (out_buffer c))
                         to_copy in
        let c1 := set_out_buffer_pos (out_buffer_pos c + to_copy) c in
        if (to_copy =? len)%nat then (PRNG_OK, Some c1, Some o1)
        else
          let '(c', o') := extract_loop len c1 o1 to_copy len in
          (PRNG_OK, Some c', Some o')
      else
        let '(c', o') := extract_loop len c o 0%nat len in
        (PRNG_OK, Some c', Some o')
  | _, _ => (ERR_NULL, sc, out)
  end.

End Functions.
End Buffered.

(* ================================================================= *)
(** ** The rendition with a domain-separation byte *)

Module Shake.

(** The context structure has the fields of [Plain]. *)
Definition inner_keccak256_prng_ctx := Plain.inner_keccak256_prng_ctx.

Definition SHAKE_SUFFIX : byte := x1f.

Section Functions.
Context {H : Sha3_256}.
Variable MAX_BUFFER_SIZE : nat.

Definition inner_keccak256_init (sc : option inner_keccak256_prng_ctx)
  : Z * option inner_keccak256_prng_ctx :=
  match sc with
  | None => (ERR_NULL, None)
  | Some _ =>
      (PRNG_OK,
       Some (Plain.mk_ctx (memset x00 MAX_BUFFER_SIZE) 0%nat
                          (memset x00 KECCAK256_OUTPUT) 0 false))
  end.

Definition inner_keccak256_inject
    (sc : option inner_keccak256_prng_ctx) (inp : option (list byte))
    (len : Z)
  : Z * option inner_keccak256_prng_ctx :=
  match sc, inp with
  | Some c, Some data =>
      if Plain.finalized c then (ERR_STATE, sc)
      else if Z.of_nat MAX_BUFFER_SIZE
              <? size_add MAX_BUFFER_SIZE (Plain.buffer_len c) len
           then (ERR_OVERFLOW, sc)
           else (PRNG_OK,
                 Some (Plain.mk_ctx
                         (memcpy (Plain.buffer c) (Plain.buffer_len c)
                                 data (Z.to_nat len))
                         (Z.to_nat (size_add MAX_BUFFER_SIZE
                                      (Plain.buffer_len c) len))
                         (Plain.state c) (Plain.counter c)
                         (Plain.finalized c)))
  | _, _ => (ERR_NULL, sc)
  end.

Definition inner_keccak256_flip (sc : option inner_keccak256_prng_ctx)
  : Z * option inner_keccak256_prng_ctx :=
  match sc with
  | None => (ERR_NULL, None)
  | Some c =>
      if Plain.finalized c then (ERR_STATE, sc)
      else if (MAX_BUFFER_SIZE <? Plain.buffer_len c + 1)%nat
           then (ERR_OVERFLOW, sc)
           else
             (* sc->buffer[sc->buffer_len++] = 0x1F *)
             let buffer' := memcpy (Plain.buffer c) (Plain.buffer_len c)
                                   [SHAKE_SUFFIX] 1 in
             let buffer_len' := (Plain.buffer_len c + 1)%nat in
             let '(ret, state') :=
               sha3_256 (Plain.state c) (firstn buffer_len' buffer') in
             if negb (ret =? 0)
             then (ret,
                   Some (Plain.mk_ctx buffer' buffer_len' state'
                                      (Plain.counter c)
                                      (Plain.finalized c)))
             else (PRNG_OK,
                   Some (Plain.mk_ctx buffer' buffer_len' state'
                                      (Plain.counter c) true))
  end.

(** The [while (offset < len)] loop.  [squeeze_out] is the local array
    that [sha3_256] writes to; a non-zero code from it ends the call at
    once, with what was copied so far. *)
Fixpoint extract_loop (fuel : nat) (c : inner_keccak256_prng_ctx)
    (out squeeze_out : list byte) (offset len : nat)
  : Z * inner_keccak256_prng_ctx * list byte :=
  match fuel with
  | O => (PRNG_OK, c, out)
  | S fuel' =>
      if (offset <? len)%nat then
        let block := Plain.state c ++ counter_bytes (Plain.counter c) in
        let '(ret, squeeze_out') := sha3_256 squeeze_out block in
        if negb (ret =? 0) then (ret, c, out)
        else
          let to_copy :=
            if (KECCAK256_OUTPUT <? len - offset)%nat
            then KECCAK256_OUTPUT else (len - offset)%nat in
          extract_loop fuel'
            (Plain.set_counter (uint64_incr (Plain.counter c)) c)
            (memcpy out offset squeeze_out' to_copy) squeeze_out'
            (offset + to_copy)%nat len
      else (PRNG_OK, c, out)
  end.

(** [stack] is what the uninitialized local array [squeeze_out] holds on
    entry. *)
Definition inner_keccak256_extract (stack : list byte)
    (sc : option inner_keccak256_prng_ctx) (out : option (list byte))
    (len : nat)
  : Z * option inner_keccak256_prng_ctx * option (list byte) :=
  match sc, out with
  | Some c, Some o =>
      if negb (Plain.finalized c) then (ERR_STATE, sc, out)
      else
        let '(ret, c', o') := extract_loop len c o stack 0%nat len in
        (ret, Some c', Some o')
  | _, _ => (ERR_NULL, sc, out)
  end.

End Functions.
End Shake.

(* ================================================================= *)
(** ** The concrete hash instances *)

#[export] Instance Keccak256_reference : Keccak256.
Proof.
  refine {| keccak256 := Keccak.keccak256 |}.
  intros msg. unfold Keccak.keccak256, Keccak.sponge256, Keccak.squeeze32.
  rewrite length_map, length_seq. reflexivity.
Defined.

#[export] Instance Sha3_256_reference : Sha3_256.
Proof.
  refine {| sha3_256 := fun _ msg => (0, Keccak.sha3_256 msg) |}.
  intros out msg _. cbn [snd].
  unfold Keccak.sha3_256, Keccak.sponge256, Keccak.squeeze32.
  rewrite length_map, length_seq. reflexivity.
Defined.

(* ================================================================= *)
(** ** The output stream, in the words of the specification *)

(** The [k] low-order base-256 digits of [v], most significant first. *)
Fixpoint big_endian (k : nat) (v : Z) : list byte :=
  match k with
  | O => []
  | S k' => big_endian k' (v / 256) ++ [byte_of_Z (v mod 256)]
  end.

(** "The 8-byte big-endian counter": [big_endian_64 (counter)]. *)
Definition big_endian_64 (v : Z) : list byte := big_endian 8 v.

(** The number that a string of bytes denotes, read big-endian. *)
Definition be64_decode (bs : list byte) : Z :=
  fold_left (fun acc b => acc * 256 + Z_of_byte b) bs 0.

Section Expansion.
Context {K : Keccak256}.

(** [digest (derivedState || big_endian_64 (counter))]. *)
Definition expansion_block (st : list byte) (c : Z) : list byte :=
  keccak256 (st ++ big_endian_64 c).

(** The concatenation of [k] successive blocks, from counter [c] on. *)
Fixpoint expansion_blocks (st : list byte) (c : Z) (k : nat) : list byte :=
  match k with
  | O => []
  | S k' => expansion_block st c ++ expansion_blocks st (c + 1) k'
  end.

(** Blocks needed for [n] bytes. *)
Definition blocks_needed (n : nat) : nat :=
  ((n + (KECCAK256_OUTPUT - 1)) / KECCAK256_OUTPUT)%nat.

(** "Concatenating as many blocks as needed and truncating the final
    block to the remaining byte count". *)
Definition expansion_stream (st : list byte) (c : Z) (n : nat) : list byte :=
  firstn n (expansion_blocks st c (blocks_needed n)).

End Expansion.

(* ================================================================= *)
(** ** Sessions: the call sequences of the test programs *)

(** An [extract] call as a caller makes it: the destination array and the
    length asked for. *)
Definition extract_call : Type := list byte * nat.

(** What a caller observes of one [extract] call: the result code and the
    [len] bytes of the destination it asked for. *)
Definition observed (len : nat) (r : Z) (out : option (list byte))
  : Z * list byte :=
  (r, match out with Some o => firstn len o | None => [] end).

Module PlainSession.
Import Plain.
Section Session.
Context {K : Keccak256}.
Variable MAX_BUFFER_SIZE : nat.

Fixpoint inject_all (sc : option inner_keccak256_prng_ctx)
    (chunks : list (list byte))
  : list Z * option inner_keccak256_prng_ctx :=
  match chunks with
  | [] => ([], sc)
  | d :: rest =>
      let '(r, sc1) :=
        inner_keccak256_inject MAX_BUFFER_SIZE sc (Some d)
                               (Z.of_nat (length d)) in
      let '(rs, sc2) := inject_all sc1 rest in
      (r :: rs, sc2)
  end.

Fixpoint extract_all (sc : option inner_keccak256_prng_ctx)
    (calls : list extract_call)
  : list (Z * list byte) * option inner_keccak256_prng_ctx :=
  match calls with
  | [] => ([], sc)
  | (o, len) :: rest =>
      let '(r, sc1, o') := inner_keccak256_extract sc (Some o) len in
      let '(rs, sc2) := extract_all sc1 rest in
      (observed len r o' :: rs, sc2)
  end.

(** [init], the injections, [flip], then the extractions, on a context
    whose memory holds [mem] beforehand.  As in the test programs, each
    call is made whatever the earlier ones returned; the result codes are
    collected. *)
Definition session (mem : inner_keccak256_prng_ctx)
    (chunks : list (list byte)) (calls : list extract_call)
  : (Z * list Z * Z * list (Z * list byte))
    * option inner_keccak256_prng_ctx :=
  let '(r0, sc0) := inner_keccak256_init MAX_BUFFER_SIZE (Some mem) in
  let '(ri, sc1) := inject_all sc0 chunks in
  let '(rf, sc2) := inner_keccak256_flip sc1 in
  let '(re, sc3) := extract_all sc2 calls in
  ((r0, ri, rf, re), sc3).
End Session.
End PlainSession.

Module BufferedSession.
Import Buffered.
Section Session.
Context {K : Keccak256}.
Variable MAX_BUFFER_SIZE : nat.

Fixpoint inject_all (sc : option inner_keccak256_prng_ctx)
    (chunks : list (list byte))
  : list Z * option inner_keccak256_prng_ctx :=
  match chunks with
  | [] => ([], sc)
  | d :: rest =>
      let '(r, sc1) :=
        inner_keccak256_inject MAX_BUFFER_SIZE sc (Some d)
                               (Z.of_nat (length d)) in
      let '(rs, sc2) := inject_all sc1 rest in
      (r :: rs, sc2)
  end.

Fixpoint extract_all (sc : option inner_keccak256_prng_ctx)
    (calls : list extract_call)
  : list (Z * list byte) * option inner_keccak256_prng_ctx :=
  match calls with
  | [] => ([], sc)
  | (o, len) :: rest =>
      let '(r, sc1, o') := inner_keccak256_extract sc (Some o) len in
      let '(rs, sc2) := extract_all sc1 rest in
      (observed len r o' :: rs, sc2)
  end.

Definition session (mem : inner_keccak256_prng_ctx)
    (chunks : list (list byte)) (calls : list extract_call)
  : (Z * list Z * Z * list (Z * list byte))
    * option inner_keccak256_prng_ctx :=
  let '(r0, sc0) := inner_keccak256_init MAX_BUFFER_SIZE (Some mem) in
  let '(ri, sc1) := inject_all sc0 chunks in
  let '(rf, sc2) := inner_keccak256_flip sc1 in
  let '(re, sc3) := extract_all sc2 calls in
  ((r0, ri, rf, re), sc3).
End Session.
End BufferedSession.

(** Every call but the last asks for a whole number of blocks. *)
Fixpoint block_aligned (calls : list extract_call) : bool :=
  match calls with
  | [] => true
  | [_] => true
  | (_, len) :: rest =>
      ((len mod KECCAK256_OUTPUT =? 0)%nat && block_aligned rest)%bool
  end.

(** The destination of every call is large enough for its length. *)
Definition calls_fit (calls : list extract_call) : Prop :=
  Forall (fun oc => (snd oc <= length (fst oc))%nat) calls.

(* ================================================================= *)
(** ** Invariants and views of a context *)

(** The arrays have their declared sizes and the fill level is within
    the input buffer. *)
Definition plain_ctx_wf (MAX_BUFFER_SIZE : nat)
    (c : Plain.inner_keccak256_prng_ctx) : Prop :=
  length (Plain.buffer c) = MAX_BUFFER_SIZE
  /\ length (Plain.state c) = KECCAK256_OUTPUT
  /\ (Plain.buffer_len c <= MAX_BUFFER_SIZE)%nat.

(** The bytes absorbed so far, [buffer[0 : buffer_len]]. *)
Definition plain_absorbed (c : Plain.inner_keccak256_prng_ctx) : list byte :=
  firstn (Plain.buffer_len c) (Plain.buffer c).

(** A context of the caching rendition without its cache. *)
Definition without_cache (b : Buffered.inner_keccak256_prng_ctx)
  : Plain.inner_keccak256_prng_ctx :=
  Plain.mk_ctx (Buffered.buffer b) (Buffered.buffer_len b)
               (Buffered.state b) (Buffered.counter b) (Buffered.finalized b).

Section CacheView.
Context {K : Keccak256}.
Import Buffered.

Definition buffered_absorbed (c : inner_keccak256_prng_ctx) : list byte :=
  firstn (buffer_len c) (buffer c).

(** The cache cursor stays inside the cached block. *)
Definition cache_wf (c : inner_keccak256_prng_ctx) : Prop :=
  (out_buffer_len c <= length (out_buffer c))%nat.

(** Bytes of the cached block not yet handed out. *)
Definition available (c : inner_keccak256_prng_ctx) : nat :=
  (out_buffer_len c - out_buffer_pos c)%nat.

(** The context after [m] more bytes were produced from fresh blocks:
    the cache holds the last block and the cursor stands behind the
    bytes taken from it. *)
Definition refill (c : inner_keccak256_prng_ctx) (m : nat)
  : inner_keccak256_prng_ctx :=
  if (0 <? m)%nat then
    let k := blocks_needed m in
    mk_ctx (buffer c) (buffer_len c) (state c)
           (Nat.iter k uint64_incr (counter c)) (finalized c)
           (expansion_block (state c) (counter c + Z.of_nat k - 1))
           (m - KECCAK256_OUTPUT * (k - 1))%nat KECCAK256_OUTPUT
  else c.

(** The next [n] bytes of the engine: the rest of the cached block, then
    fresh blocks. *)
Definition served (c : inner_keccak256_prng_ctx) (n : nat) : list byte :=
  let t := Nat.min n (available c) in
  firstn t (skipn (out_buffer_pos c) (out_buffer c))
  ++ expansion_stream (state c) (counter c) (n - t).

(** The context after these [n] bytes were handed out. *)
Definition advance (c : inner_keccak256_prng_ctx) (n : nat)
  : inner_keccak256_prng_ctx :=
  let t := Nat.min n (available c) in
  refill (set_out_buffer_pos (out_buffer_pos c + t) c) (n - t).
End CacheView.

(* ================================================================= *)
(** ** What a finalized engine hands out *)

Section Handouts.
Context {K : Keccak256}.

(** [Plain] after [n] bytes were extracted: only the counter moved, by one
    per block. *)
Definition plain_advance (c : Plain.inner_keccak256_prng_ctx) (n : nat)
  : Plain.inner_keccak256_prng_ctx :=
  Plain.set_counter
    (Nat.iter (blocks_needed n) uint64_incr (Plain.counter c)) c.

(** What a finalized context of [Plain] hands out over a series of
    requests: every request starts at a fresh block. *)
Fixpoint plain_outputs (p : Plain.inner_keccak256_prng_ctx) (lens : list nat)
  : list (Z * list byte) :=
  match lens with
  | [] => []
  | n :: rest =>
      (PRNG_OK, expansion_stream (Plain.state p) (Plain.counter p) n)
      :: plain_outputs (plain_advance p n) rest
  end.

(** The same for [Buffered]: every request continues where the previous
    one stopped. *)
Fixpoint buffered_outputs (b : Buffered.inner_keccak256_prng_ctx)
    (lens : list nat) : list (Z * list byte) :=
  match lens with
  | [] => []
  | n :: rest => (PRNG_OK, served b n) :: buffered_outputs (advance b n) rest
  end.
End Handouts.

(** Two successive requests against one longer request, for an [extract]
    function over contexts of type [ctx]: all three calls succeed, the
    bytes agree and so does the context they leave. *)
Definition sequential_law {ctx : Type}
    (extract : option ctx -> option (list byte) -> nat
               -> Z * option ctx * option (list byte))
    (c : ctx) (n1 n2 : nat) (out1 out2 out3 : list byte) : Prop :=
  exists c1 o1 c2 o2 o3,
    extract (Some c) (Some out1) n1 = (PRNG_OK, Some c1, Some o1)
    /\ extract (Some c1) (Some out2) n2 = (PRNG_OK, Some c2, Some o2)
    /\ extract (Some c) (Some out3) (n1 + n2)%nat = (PRNG_OK, Some c2, Some o3)
    /\ firstn n1 o1 ++ firstn n2 o2 = firstn (n1 + n2) o3.

(** The phase guards of an engine with the given [inject], [flip] and
    [extract]: the three calls made in the wrong phase fail with
    [ERR_STATE], and a call that fails, for whatever reason, leaves the
    context and the destination as they were. *)
Definition phase_guarded {ctx : Type} (finalized : ctx -> bool)
    (init : option ctx -> Z * option ctx)
    (inject : option ctx -> option (list byte) -> Z -> Z * option ctx)
    (flip : option ctx -> Z * option ctx)
    (extract : option ctx -> option (list byte) -> nat
               -> Z * option ctx * option (list byte)) : Prop :=
  (forall c d len, finalized c = true ->
                   inject (Some c) (Some d) len = (ERR_STATE, Some c))
  /\ (forall c out n, finalized c = false ->
                      extract (Some c) (Some out) n
                      = (ERR_STATE, Some c, Some out))
  /\ (forall c, finalized c = true -> flip (Some c) = (ERR_STATE, Some c))
  /\ (forall sc, fst (init sc) <> PRNG_OK -> snd (init sc) = sc)
  /\ (forall sc inp len, fst (inject sc inp len) <> PRNG_OK ->
                         snd (inject sc inp len) = sc)
  /\ (forall sc, fst (flip sc) <> PRNG_OK -> snd (flip sc) = sc)
  /\ (forall sc out n, fst (fst (extract sc out n)) <> PRNG_OK ->
                       snd (fst (extract sc out n)) = sc
                       /\ snd (extract sc out n) = out).

Ltac fail_noop :=
  repeat match goal with
    | |- context [match ?x with _ => _ end] => destruct x
    end;
  cbn; intros; try tauto; try congruence;
  try (exfalso; match goal with H : _ <> _ |- _ => apply H; reflexivity end).

(* ================================================================= *)
(** ** Further views of the engine *)

(** The result codes of a series of [inject] calls on a context that
    holds [fill] bytes: a chunk that does not fit is refused and the next
    one is tried against the same fill level. *)
Fixpoint inject_codes (MAX_BUFFER_SIZE fill : nat) (chunks : list (list byte))
  : list Z :=
  match chunks with
  | [] => []
  | d :: rest =>
      if (MAX_BUFFER_SIZE <? fill + length d)%nat
      then ERR_OVERFLOW :: inject_codes MAX_BUFFER_SIZE fill rest
      else PRNG_OK :: inject_codes MAX_BUFFER_SIZE (fill + length d) rest
  end.

(** The chunks whose [inject] call returned [PRNG_OK]. *)
Definition accepted_chunks (codes : list Z) (chunks : list (list byte))
  : list (list byte) :=
  map snd (filter (fun rd => fst rd =? PRNG_OK) (combine codes chunks)).

(** A chunk short enough for the sum in the capacity check of [inject]
    not to wrap: its length stays below [2^64 - MAX_BUFFER_SIZE]. *)
Definition chunk_in_range (MAX_BUFFER_SIZE : nat) (d : list byte) : Prop :=
  Z.of_nat MAX_BUFFER_SIZE + Z.of_nat (length d) < 2 ^ 64.

(** A series of [inject] calls of the rendition on [sha3_256]. *)
Fixpoint shake_inject_all (MAX_BUFFER_SIZE : nat)
    (sc : option Shake.inner_keccak256_prng_ctx) (chunks : list (list byte))
  : list Z * option Shake.inner_keccak256_prng_ctx :=
  match chunks with
  | [] => ([], sc)
  | d :: rest =>
      let '(r, sc1) :=
        Shake.inner_keccak256_inject MAX_BUFFER_SIZE sc (Some d)
                                     (Z.of_nat (length d)) in
      let '(rs, sc2) := shake_inject_all MAX_BUFFER_SIZE sc1 rest in
      (r :: rs, sc2)
  end.

(** A call of the interface, with its arguments. *)
Inductive prng_call : Type :=
| CallInit
| CallInject (inp : option (list byte)) (len : Z)
| CallFlip
| CallExtract (out : option (list byte)) (len : nat).

Definition is_init (call : prng_call) : bool :=
  match call with CallInit => true | _ => false end.

(** The destination of an [extract] call holds the bytes asked for, as C
    requires of its caller. *)
Definition call_in_bounds (call : prng_call) : Prop :=
  match call with
  | CallExtract (Some o) len => (len <= length o)%nat
  | _ => True
  end.

(** The arguments of a call are as C requires of its caller and the chunk
    of an [inject] call is short enough for the sum in the capacity check
    not to wrap: the array holds the [len] bytes, and [len] stays below
    [2^64 - MAX_BUFFER_SIZE]. *)
Definition call_in_range (MAX_BUFFER_SIZE : nat) (call : prng_call) : Prop :=
  match call with
  | CallInject (Some d) len =>
      0 <= len <= Z.of_nat (length d)
      /\ Z.of_nat MAX_BUFFER_SIZE + len < 2 ^ 64
  | CallExtract (Some o) len => (len <= length o)%nat
  | _ => True
  end.

(** What a call returns on a finalized context. *)
Definition finalized_code (call : prng_call) : Z :=
  match call with
  | CallInit => PRNG_OK
  | CallInject (Some _) _ => ERR_STATE
  | CallInject None _ => ERR_NULL
  | CallFlip => ERR_STATE
  | CallExtract (Some _) _ => PRNG_OK
  | CallExtract None _ => ERR_NULL
  end.

Section Runs.
Context {K : Keccak256}.
Variable MAX_BUFFER_SIZE : nat.

Definition plain_call (sc : option Plain.inner_keccak256_prng_ctx)
    (call : prng_call) : Z * option Plain.inner_keccak256_prng_ctx :=
  match call with
  | CallInit => Plain.inner_keccak256_init MAX_BUFFER_SIZE sc
  | CallInject inp len =>
      Plain.inner_keccak256_inject MAX_BUFFER_SIZE sc inp len
  | CallFlip => Plain.inner_keccak256_flip sc
  | CallExtract out len => fst (Plain.inner_keccak256_extract sc out len)
  end.

(** Any series of calls on one context; the codes are collected. *)
Fixpoint plain_run (sc : option Plain.inner_keccak256_prng_ctx)
    (calls : list prng_call)
  : list Z * option Plain.inner_keccak256_prng_ctx :=
  match calls with
  | [] => ([], sc)
  | call :: rest =>
      let '(r, sc1) := plain_call sc call in
      let '(rs, sc2) := plain_run sc1 rest in
      (r :: rs, sc2)
  end.

Definition buffered_call (sc : option Buffered.inner_keccak256_prng_ctx)
    (call : prng_call) : Z * option Buffered.inner_keccak256_prng_ctx :=
  match call with
  | CallInit => Buffered.inner_keccak256_init MAX_BUFFER_SIZE sc
  | CallInject inp len =>
      Buffered.inner_keccak256_inject MAX_BUFFER_SIZE sc inp len
  | CallFlip => Buffered.inner_keccak256_flip sc
  | CallExtract out len => fst (Buffered.inner_keccak256_extract sc out len)
  end.

Fixpoint buffered_run (sc : option Buffered.inner_keccak256_prng_ctx)
    (calls : list prng_call)
  : list Z * option Buffered.inner_keccak256_prng_ctx :=
  match calls with
  | [] => ([], sc)
  | call :: rest =>
      let '(r, sc1) := buffered_call sc call in
      let '(rs, sc2) := buffered_run sc1 rest in
      (r :: rs, sc2)
  end.
End Runs.

(** What holds of every context of [c/keccak_prng.c] from [init] on. *)
Definition plain_reachable {K : Keccak256} (MAX_BUFFER_SIZE : nat)
    (c : Plain.inner_keccak256_prng_ctx) : Prop :=
  plain_ctx_wf MAX_BUFFER_SIZE c
  /\ 0 <= Plain.counter c < UINT64_MOD
  /\ (Plain.finalized c = true ->
      Plain.state c = keccak256 (plain_absorbed c))
  /\ (Plain.finalized c = false ->
      Plain.counter c = 0 /\ Plain.state c = repeat x00 KECCAK256_OUTPUT).

(** The same for the caching rendition: in addition the cursor is inside
    the cached block, which is empty or the block of the previous counter
    value. *)
Definition buffered_reachable {K : Keccak256} (MAX_BUFFER_SIZE : nat)
    (c : Buffered.inner_keccak256_prng_ctx) : Prop :=
  plain_reachable MAX_BUFFER_SIZE (without_cache c)
  /\ (Buffered.out_buffer_pos c <= Buffered.out_buffer_len c)%nat
  /\ (Buffered.out_buffer_len c = 0%nat
      \/ Buffered.out_buffer_len c = KECCAK256_OUTPUT
         /\ Buffered.out_buffer c
            = keccak256 (Buffered.state c
                         ++ big_endian_64 (Buffered.counter c - 1)))
  /\ (Buffered.finalized c = false -> Buffered.out_buffer_len c = 0%nat).

(** The cache part of [buffered_reachable], with the counter range. *)
Definition cache_inv {K : Keccak256}
    (c : Buffered.inner_keccak256_prng_ctx) : Prop :=
  (Buffered.out_buffer_pos c <= Buffered.out_buffer_len c)%nat
  /\ (Buffered.out_buffer_len c = 0%nat
      \/ Buffered.out_buffer_len c = KECCAK256_OUTPUT
         /\ Buffered.out_buffer c
            = keccak256 (Buffered.state c
                         ++ big_endian_64 (Buffered.counter c - 1)))
  /\ 0 <= Buffered.counter c < UINT64_MOD.

(** SHA3-256 of the sponge above, in the place of the Keccak-256 calls. *)
Definition sha3_as_keccak256 : Keccak256.
Proof.
  refine {| keccak256 := Keccak.sha3_256 |}.
  intros msg. unfold Keccak.sha3_256, Keccak.sponge256, Keccak.squeeze32.
  rewrite length_map, length_seq. reflexivity.
Defined.

(* ================================================================= *)
(** ** [falcon/falcon.go]: the Go wrappers *)

Module Falcon.

(** A Go [error] value, by the call that builds it. *)
Inductive error : Type :=
| errors_New (text : string)
| fmt_Errorf_w (format : string) (err : error)   (* one [%w] verb *)
| fmt_Errorf_d (format : string) (code : Z).     (* one [%d] verb *)

(** How a call of a Go function ends: it returns its value with a [nil]
    error, it returns a non-[nil] error, or it panics. *)
Inductive outcome (A : Type) : Type :=
| Returns (a : A)
| Fails (err : error)
| Panics.
Arguments Returns {A} a.
Arguments Fails {A} err.
Arguments Panics {A}.

Record KeyPair := mk_KeyPair {
  PublicKey : list byte;
  PrivateKey : list byte
}.

(** [make([]byte, n)]. *)
Definition make (n : nat) : list byte := repeat x00 n.

(** [&s[0]] panics on a slice of length 0: whether the index expression
    is in range. *)
Definition has_first (s : list byte) : bool :=
  match s with [] => false | _ :: _ => true end.

(** [C.int (x)] of a Go [int]: the low 32 bits, as a signed number. *)
Definition C_int (x : Z) : Z := (x + 2 ^ 31) mod 2 ^ 32 - 2 ^ 31.

(** The constants and functions of [falcon.h] and of the C library behind
    it, which are not among the sources: every wrapper is stated for
    an arbitrary library. *)
Class library := {
  FALCON_ERR_RANDOM : Z;
  FALCON_ERR_SIZE : Z;
  FALCON_ERR_FORMAT : Z;
  FALCON_ERR_BADSIG : Z;
  FALCON_ERR_BADARG : Z;
  FALCON_ERR_INTERNAL : Z;
  FALCON_SIG_COMPRESSED : Z;
  FALCON_SIG_PADDED : Z;
  FALCON_SIG_CT : Z;
  (* the size macros, through the C functions of the cgo preamble *)
  falcon_privkey_size : nat -> nat;
  falcon_pubkey_size : nat -> nat;
  falcon_sig_compressed_maxsize : nat -> nat;
  falcon_sig_padded_size : nat -> nat;
  falcon_sig_ct_size : nat -> nat;
  falcon_tmpsize_keygen : nat -> nat;
  falcon_tmpsize_signdyn : nat -> nat;
  falcon_tmpsize_verify : nat -> nat;
  (* falcon_get_logn (data, len) *)
  falcon_get_logn : list byte -> Z;
  (* shake256_context, and what the generator of the operating system
     delivers to one call of shake256_init_prng_from_system: the code
     returned and the context written *)
  shake256_context : Type;
  entropy : Type;
  shake256_init_prng_from_system : entropy -> Z * shake256_context;
  shake256_init_prng_from_seed : list byte -> shake256_context;
  shake256_inject : shake256_context -> list byte -> shake256_context;
  (* shake256_extract (sc, out, len): the context and the len bytes *)
  shake256_extract : shake256_context -> nat -> shake256_context * list byte;
  (* falcon_keygen_make (rng, logn, privkey, privkey_len, pubkey,
     pubkey_len, tmp, tmp_len): the code and the two key arrays after the
     call *)
  falcon_keygen_make :
    shake256_context -> nat -> list byte -> list byte -> list byte
    -> Z * (list byte * list byte);
  (* falcon_sign_dyn (rng, sig, &sig_len, sig_type, privkey, privkey_len,
     data, data_len, tmp, tmp_len): the code, the signature array and
     sig_len after the call *)
  falcon_sign_dyn :
    shake256_context -> list byte -> nat -> Z -> list byte -> list byte
    -> list byte -> Z * (list byte * nat);
  (* falcon_verify (sig, sig_len, sig_type, pubkey, pubkey_len, data,
     data_len, tmp, tmp_len) *)
  falcon_verify : list byte -> Z -> list byte -> list byte -> list byte -> Z
}.

Section Wrappers.
Context {L : library}.

Definition ErrRandom := FALCON_ERR_RANDOM.
Definition ErrSize := FALCON_ERR_SIZE.
Definition ErrFormat := FALCON_ERR_FORMAT.
Definition ErrBadSig := FALCON_ERR_BADSIG.
Definition ErrBadArg := FALCON_ERR_BADARG.
Definition ErrInternal := FALCON_ERR_INTERNAL.

Definition SigCompressed := FALCON_SIG_COMPRESSED.
Definition SigPadded := FALCON_SIG_PADDED.
Definition SigCT := FALCON_SIG_CT.

Definition privateKeySize (logN : nat) : nat := falcon_privkey_size logN.
Definition publicKeySize (logN : nat) : nat := falcon_pubkey_size logN.
Definition sigCompressedMaxSize (logN : nat) : nat :=
  falcon_sig_compressed_maxsize logN.
Definition sigPaddedSize (logN : nat) : nat := falcon_sig_padded_size logN.
Definition sigCTSize (logN : nat) : nat := falcon_sig_ct_size logN.
Definition tmpSizeKeygen (logN : nat) : nat := falcon_tmpsize_keygen logN.
Definition tmpSizeSignDyn (logN : nat) : nat := falcon_tmpsize_signdyn logN.
Definition tmpSizeVerify (logN : nat) : nat := falcon_tmpsize_verify logN.

(** The [switch] tries its cases from the top. *)
Definition falconError (code : Z) : error :=
  if code =? ErrRandom then errors_New "random number generation failed"
  else if code =? ErrSize then errors_New "buffer too small"
  else if code =? ErrFormat then errors_New "invalid format"
  else if code =? ErrBadSig then errors_New "invalid signature"
  else if code =? ErrBadArg then errors_New "invalid argument"
  else if code =? ErrInternal then errors_New "internal error"
  else fmt_Errorf_d "unknown error: %d" code.

Definition GetLogN (data : list byte) : outcome Z :=
  if (length data =? 0)%nat then Fails (errors_New "empty input data")
  else
    let result := falcon_get_logn data in
    if result <? 0 then Fails (falconError result)
    else Returns result.

(** [(s *Shake256Context) InitFromSystem ()]: the error, if any, and the
    context. *)
Definition InitFromSystem (os : entropy) : option error * shake256_context :=
  let '(result, ctx) := shake256_init_prng_from_system os in
  if negb (result =? 0) then (Some (falconError result), ctx)
  else (None, ctx).

Definition InitFromSeed (seed : list byte) : outcome shake256_context :=
  if has_first seed then Returns (shake256_init_prng_from_seed seed)
  else Panics.

Definition Inject (s : shake256_context) (data : list byte)
  : outcome shake256_context :=
  if has_first data then Returns (shake256_inject s data) else Panics.

(** [out] is the slice before the call; the bytes written to it are
    returned with the context. *)
Definition Extract (s : shake256_context) (out : list byte)
  : outcome (shake256_context * list byte) :=
  if has_first out then Returns (shake256_extract s (length out))
  else Panics.

Definition GenerateKeyPair (os : entropy) (logN : nat) : outcome KeyPair :=
  if ((logN <? 1) || (10 <? logN))%nat
  then Fails (errors_New "logN must be between 1 and 10")
  else
    let privKey := make (privateKeySize logN) in
    let pubKey := make (publicKeySize logN) in
    let tmp := make (tmpSizeKeygen logN) in
    match InitFromSystem os with
    | (Some err, _) => Fails (fmt_Errorf_w "failed to initialize RNG: %w" err)
    | (None, rng) =>
        if has_first privKey && has_first pubKey && has_first tmp then
          let '(result, (privKey', pubKey')) :=
            falcon_keygen_make rng logN privKey pubKey tmp in
          if negb (result =? 0) then Fails (falconError result)
          else Returns (mk_KeyPair pubKey' privKey')
        else Panics
    end.

(** The buffer size that the [switch] of [Sign] chooses, if any. *)
Definition signature_buffer_size (logN : nat) (sigType : Z) : option nat :=
  if sigType =? SigCompressed then Some (sigCompressedMaxSize logN)
  else if sigType =? SigPadded then Some (sigPaddedSize logN)
  else if sigType =? SigCT then Some (sigCTSize logN)
  else None.

Definition Sign (os : entropy) (message privateKey : list byte) (sigType : Z)
  : outcome (list byte) :=
  match GetLogN privateKey with
  | Fails err => Fails (fmt_Errorf_w "invalid private key: %w" err)
  | Panics => Panics
  | Returns logN =>
      match signature_buffer_size (Z.to_nat logN) sigType with
      | None => Fails (errors_New "invalid signature type")
      | Some sigSize =>
          let signature := make sigSize in
          let tmp := make (tmpSizeSignDyn (Z.to_nat logN)) in
          match InitFromSystem os with
          | (Some err, _) =>
              Fails (fmt_Errorf_w "failed to initialize RNG: %w" err)
          | (None, rng) =>
              if has_first signature && has_first privateKey
                 && has_first message && has_first tmp then
                let '(result, (signature', sigLen)) :=
                  falcon_sign_dyn rng signature sigSize (C_int sigType)
                                  privateKey message tmp in
                if negb (result =? 0) then Fails (falconError result)
                else if (sigSize <? sigLen)%nat then Panics
                     else Returns (firstn sigLen signature')
              else Panics
          end
      end
  end.

Definition Verify (signature message publicKey : list byte) (sigType : Z)
  : outcome unit :=
  match GetLogN publicKey with
  | Fails err => Fails (fmt_Errorf_w "invalid public key: %w" err)
  | Panics => Panics
  | Returns logN =>
      let tmp := make (tmpSizeVerify (Z.to_nat logN)) in
      if has_first signature && has_first publicKey
         && has_first message && has_first tmp then
        let result :=
          falcon_verify signature (C_int sigType) publicKey message tmp in
        if negb (result =? 0) then Fails (falconError result)
        else Returns tt
      else Panics
  end.

End Wrappers.
End Falcon.

(* ================================================================= *)
(** ** Example data *)

(** A buffer capacity for the worked examples; the theorems hold for every
    capacity. *)
Definition EXAMPLE_CAPACITY : nat := 64.

(** Whatever the memory of a context held before [init]. *)
Definition plain_garbage : Plain.inner_keccak256_prng_ctx :=
  Plain.mk_ctx (repeat xaa EXAMPLE_CAPACITY) 7 (repeat x55 KECCAK256_OUTPUT)
               99 true.

Definition buffered_garbage : Buffered.inner_keccak256_prng_ctx :=
  Buffered.mk_ctx (repeat xaa EXAMPLE_CAPACITY) 7
                  (repeat x55 KECCAK256_OUTPUT) 99 true
                  (repeat xcc KECCAK256_OUTPUT) 3 9.

(** "test", "input" and "test input" as the test programs inject them. *)
Definition bytes_test : list byte := [x74; x65; x73; x74].
Definition bytes_input : list byte := [x69; x6e; x70; x75; x74].
Definition bytes_test_input : list byte :=
  [x74; x65; x73; x74; x20; x69; x6e; x70; x75; x74].

(** A caller's destination array of [n] bytes. *)
Definition dest (n : nat) : list byte := repeat x00 n.

(** Keccak-256 of the empty message. *)
Definition keccak256_empty : list byte :=
  Eval vm_compute in
    hex_bytes
      "c5d2460186f7233c927e7db2dcc703c0e500b653ca82273b7bfad8045d85a470".

(** A finalized context of [c/keccak_prng.c]: [init], then [flip] with
    nothing injected. *)
Definition plain_flipped : Plain.inner_keccak256_prng_ctx :=
  Plain.mk_ctx (memset x00 EXAMPLE_CAPACITY) 0 keccak256_empty 0 true.

(** The first block of [plain_flipped], in halves, and the first half of
    its second block. *)
Definition block0_lo : list byte :=
  Eval vm_compute in hex_bytes "581e5628147dbbb91f91b8ab85d66baa".
Definition block0_hi : list byte :=
  Eval vm_compute in hex_bytes "9dfc56c35931210bf14524e0650061a8".
Definition block1_lo : list byte :=
  Eval vm_compute in hex_bytes "5dc3f204adccc189ed1aaf8b6824f4a9".

(** The same engine in the caching rendition, 16 bytes into its first
    block. *)
Definition buffered_midblock : Buffered.inner_keccak256_prng_ctx :=
  Buffered.mk_ctx (memset x00 EXAMPLE_CAPACITY) 0 (Plain.state plain_flipped)
    1 true (block0_lo ++ block0_hi) 16 32.

(** A context with 60 of the 64 bytes of [EXAMPLE_CAPACITY] absorbed. *)
Definition plain_nearly_full : Plain.inner_keccak256_prng_ctx :=
  Plain.mk_ctx (repeat x41 60 ++ repeat x00 4) 60
               (memset x00 KECCAK256_OUTPUT) 0 false.

(** A context with the input buffer full. *)
Definition shake_full : Plain.inner_keccak256_prng_ctx :=
  Plain.mk_ctx (repeat x41 EXAMPLE_CAPACITY) EXAMPLE_CAPACITY
               (memset x00 KECCAK256_OUTPUT) 0 false.

(** [plain_flipped] with its counter at the last value of [uint64_t]. *)
Definition plain_wrapping : Plain.inner_keccak256_prng_ctx :=
  Plain.set_counter (UINT64_MOD - 1) plain_flipped.

(** The caching rendition right after [init] and [flip]: nothing cached
    yet. *)
Definition buffered_flipped : Buffered.inner_keccak256_prng_ctx :=
  Buffered.mk_ctx (memset x00 EXAMPLE_CAPACITY) 0 keccak256_empty 0 true
    (repeat xcc KECCAK256_OUTPUT) 0 0.

(** A [sha3_256] that reports failure and stores nothing. *)
Definition sha3_256_failing : Sha3_256.
Proof.
  refine {| sha3_256 := fun out _ => (-1, out) |}.
  intros out msg Hout. exact Hout.
Defined.

(** A stand-in for the C library behind the Go wrappers, for the worked
    examples: every size is 4, the degree is read from the low four bits
    of the first byte, and every operation reports success without
    touching its buffers. *)
Definition stand_in_library : Falcon.library :=
  {| Falcon.FALCON_ERR_RANDOM := -1;
     Falcon.FALCON_ERR_SIZE := -2;
     Falcon.FALCON_ERR_FORMAT := -3;
     Falcon.FALCON_ERR_BADSIG := -4;
     Falcon.FALCON_ERR_BADARG := -5;
     Falcon.FALCON_ERR_INTERNAL := -6;
     Falcon.FALCON_SIG_COMPRESSED := 1;
     Falcon.FALCON_SIG_PADDED := 2;
     Falcon.FALCON_SIG_CT := 3;
     Falcon.falcon_privkey_size := fun _ => 4%nat;
     Falcon.falcon_pubkey_size := fun _ => 4%nat;
     Falcon.falcon_sig_compressed_maxsize := fun _ => 4%nat;
     Falcon.falcon_sig_padded_size := fun _ => 4%nat;
     Falcon.falcon_sig_ct_size := fun _ => 4%nat;
     Falcon.falcon_tmpsize_keygen := fun _ => 4%nat;
     Falcon.falcon_tmpsize_signdyn := fun _ => 4%nat;
     Falcon.falcon_tmpsize_verify := fun _ => 4%nat;
     Falcon.falcon_get_logn :=
       fun data => match data with
                   | b :: _ => Z.land (Z_of_byte b) 0x0F
                   | [] => -3
                   end;
     Falcon.shake256_context := unit;
     Falcon.entropy := unit;
     Falcon.shake256_init_prng_from_system := fun _ => (0, tt);
     Falcon.shake256_init_prng_from_seed := fun _ => tt;
     Falcon.shake256_inject := fun _ _ => tt;
     Falcon.shake256_extract := fun _ n => (tt, repeat x00 n);
     Falcon.falcon_keygen_make := fun _ _ priv pub _ => (0, (priv, pub));
     Falcon.falcon_sign_dyn := fun _ sig len _ _ _ _ => (0, (sig, 3%nat));
     Falcon.falcon_verify := fun _ _ _ _ _ => 0 |}.

(* ================================================================= *)
(** * Properties *)

(** ** The sponge against published digests *)

Example keccak256_of_empty :
  Keccak.keccak256 []
  = hex_bytes
      "c5d2460186f7233c927e7db2dcc703c0e500b653ca82273b7bfad8045d85a470".
Proof. vm_compute. reflexivity. Qed.

Example keccak256_of_abc :
  Keccak.keccak256 [x61; x62; x63]
  = hex_bytes
      "4e03657aea45a94fc7d47ba826c8d667c0d1e6e33a64a036ec44f58fa12d6c45".
Proof. vm_compute. reflexivity. Qed.

Example sha3_256_of_empty :
  Keccak.sha3_256 []
  = hex_bytes
      "a7ffc6f8bf1ed76651c14756a061d662f580ff4de43b49fa82d80a4b80f8434a".
Proof. vm_compute. reflexivity. Qed.

(** Two blocks of input. *)
Example sha3_256_of_200_A :
  Keccak.sha3_256 (repeat x41 200)
  = hex_bytes
      "bc580b4295f7e83e85f5ec16fd04e69adae484a7e0ae9108e7b6b2bef6a25998".
Proof. vm_compute. reflexivity. Qed.

(** ** The example contexts are reached through the interface *)

Example plain_flipped_reached :
  Plain.inner_keccak256_flip
    (snd (Plain.inner_keccak256_init EXAMPLE_CAPACITY (Some plain_garbage)))
  = (PRNG_OK, Some plain_flipped).
Proof. vm_compute. reflexivity. Qed.

Example buffered_midblock_reached :
  Buffered.inner_keccak256_extract
    (snd (Buffered.inner_keccak256_flip
            (snd (Buffered.inner_keccak256_init EXAMPLE_CAPACITY
                    (Some buffered_garbage)))))
    (Some (dest 16)) 16
  = (PRNG_OK, Some buffered_midblock, Some block0_lo).
Proof. vm_compute. reflexivity. Qed.

Example plain_nearly_full_reached :
  Plain.inner_keccak256_inject EXAMPLE_CAPACITY
    (snd (Plain.inner_keccak256_init EXAMPLE_CAPACITY (Some plain_garbage)))
    (Some (repeat x41 60)) 60
  = (PRNG_OK, Some plain_nearly_full).
Proof. vm_compute. reflexivity. Qed.

(** ** The C library model *)

Lemma memcpy_length dst off src n :
  (off + n <= length dst)%nat -> (n <= length src)%nat ->
  length (memcpy dst off src n) = length dst.
Proof.
  intros Hd Hs. unfold memcpy.
  rewrite !length_app, !length_firstn, length_skipn. lia.
Qed.

Lemma memcpy_firstn dst off src n :
  (off <= length dst)%nat -> (n <= length src)%nat ->
  firstn (off + n) (memcpy dst off src n) = firstn off dst ++ firstn n src.
Proof.
  intros Hd Hs. unfold memcpy.
  rewrite app_assoc.
  rewrite firstn_app.
  rewrite length_app, !length_firstn.
  replace (off + n - (Nat.min off (length dst) + Nat.min n (length src)))%nat
    with 0%nat by lia.
  rewrite firstn_O, app_nil_r.
  apply firstn_all2. rewrite length_app, !length_firstn. lia.
Qed.

Lemma memcpy_skipn dst off src n k :
  (off + n <= k)%nat -> (off + n <= length dst)%nat -> (n <= length src)%nat ->
  skipn k (memcpy dst off src n) = skipn k dst.
Proof.
  intros Hk Hd Hs. unfold memcpy.
  rewrite app_assoc, skipn_app.
  rewrite length_app, !length_firstn.
  rewrite (skipn_all2 (firstn off dst ++ firstn n src))
    by (rewrite length_app, !length_firstn; lia).
  cbn [app]. rewrite skipn_skipn. f_equal. lia.
Qed.

Lemma byte_of_Z_mod z : byte_of_Z (z mod 256) = byte_of_Z z.
Proof. unfold byte_of_Z. rewrite Z.mod_mod by lia. reflexivity. Qed.

Lemma counter_byte_mod c k :
  0 <= k -> k + 8 <= 64 ->
  Z.land (Z.shiftr (c mod UINT64_MOD) k) 0xFF = Z.land (Z.shiftr c k) 0xFF.
Proof.
  intros Hk Hk8. apply Z.bits_inj'. intros j Hj.
  rewrite !Z.land_spec, !Z.shiftr_spec by lia.
  destruct (Z.ltb_spec j 8).
  - unfold UINT64_MOD. rewrite Z.mod_pow2_bits_low by lia. reflexivity.
  - change 0xFF with (Z.ones 8). rewrite Z.ones_spec_high by lia.
    rewrite !andb_false_r. reflexivity.
Qed.

Lemma counter_bytes_mod c : counter_bytes (c mod UINT64_MOD) = counter_bytes c.
Proof.
  unfold counter_bytes. apply map_ext_in. intros i Hi.
  apply in_seq in Hi. f_equal. apply counter_byte_mod; lia.
Qed.

Lemma Z_of_byte_of_Z z : Z_of_byte (byte_of_Z z) = z mod 256.
Proof.
  unfold Z_of_byte, byte_of_Z.
  destruct (Byte.of_N (Z.to_N (z mod 256))) as [b|] eqn:E.
  - apply Byte.to_of_N in E. rewrite E. lia.
  - apply Byte.of_N_None_iff in E. lia.
Qed.

Lemma counter_byte_value c k :
  0 <= k ->
  Z_of_byte (byte_of_Z (Z.land (Z.shiftr c k) 0xFF)) = (c / 2 ^ k) mod 256.
Proof.
  intros Hk. rewrite Z_of_byte_of_Z.
  change 0xFF with (Z.ones 8). rewrite Z.land_ones by lia.
  rewrite Z.shiftr_div_pow2 by lia. change (2 ^ 8) with 256.
  apply Z.mod_mod. lia.
Qed.

Lemma mod_256_split x m :
  0 < m -> x mod (256 * m) = x mod 256 + 256 * ((x / 256) mod m).
Proof. intros Hm. apply Z.rem_mul_r; lia. Qed.

Lemma counter_bytes_decode (c : Z) :
  be64_decode (counter_bytes c) = c mod UINT64_MOD.
Proof.
  unfold counter_bytes, be64_decode. cbn [seq map fold_left].
  rewrite !counter_byte_value by (cbn; lia).
  unfold UINT64_MOD.
  change (2 ^ 64)
    with (256 * (256 * (256 * (256 * (256 * (256 * (256 * 256))))))).
  rewrite !mod_256_split by lia.
  rewrite !Z.div_div by lia.
  change (56 - Z.of_nat 0 * 8) with 56.
  change (56 - Z.of_nat 1 * 8) with 48.
  change (56 - Z.of_nat 2 * 8) with 40.
  change (56 - Z.of_nat 3 * 8) with 32.
  change (56 - Z.of_nat 4 * 8) with 24.
  change (56 - Z.of_nat 5 * 8) with 16.
  change (56 - Z.of_nat 6 * 8) with 8.
  change (56 - Z.of_nat 7 * 8) with 0.
  change (2 ^ 56) with 72057594037927936.
  change (2 ^ 48) with 281474976710656.
  change (2 ^ 40) with 1099511627776.
  change (2 ^ 32) with 4294967296.
  change (2 ^ 24) with 16777216.
  change (2 ^ 16) with 65536.
  change (2 ^ 8) with 256.
  change (2 ^ 0) with 1.
  change (256 * 256) with 65536.
  change (65536 * 256) with 16777216.
  change (16777216 * 256) with 4294967296.
  change (4294967296 * 256) with 1099511627776.
  change (1099511627776 * 256) with 281474976710656.
  change (281474976710656 * 256) with 72057594037927936.
  rewrite Z.div_1_r.
  ring.
Qed.

(** The shifts and masks of the loop give the digits that the
    specification asks for. *)
Lemma byte_of_land_shiftr c k :
  0 <= k -> byte_of_Z (Z.land (Z.shiftr c k) 0xFF) = byte_of_Z (c / 2 ^ k).
Proof.
  intros Hk. change 0xFF with (Z.ones 8). rewrite Z.land_ones by lia.
  rewrite Z.shiftr_div_pow2 by lia. apply byte_of_Z_mod.
Qed.

Lemma counter_bytes_spec c : counter_bytes c = big_endian_64 c.
Proof.
  unfold counter_bytes, big_endian_64. cbn [seq map big_endian app].
  rewrite !byte_of_Z_mod, !Z.div_div by lia.
  rewrite !byte_of_land_shiftr by (cbn; lia).
  repeat (f_equal; try reflexivity).
  change (56 - Z.of_nat 7 * 8) with 0. now rewrite Z.div_1_r.
Qed.

Lemma big_endian_64_length c : length (big_endian_64 c) = 8%nat.
Proof. now rewrite <- counter_bytes_spec. Qed.

Lemma big_endian_64_decode c :
  be64_decode (big_endian_64 c) = c mod UINT64_MOD.
Proof. rewrite <- counter_bytes_spec. apply counter_bytes_decode. Qed.

Lemma firstn_add {A} (a b : nat) : forall l : list A,
  firstn (a + b) l = firstn a l ++ firstn b (skipn a l).
Proof.
  induction a as [|a IH]; intros [|x l]; cbn; try reflexivity.
  - now rewrite firstn_nil.
  - now rewrite IH.
Qed.

(** ** The output stream *)

Section StreamFacts.
Context {K : Keccak256}.
Variable st : list byte.

Lemma expansion_block_length c :
  length (expansion_block st c) = KECCAK256_OUTPUT.
Proof. apply keccak256_length. Qed.

(** The block as the code computes it. *)
Lemma expansion_block_code c :
  expansion_block st c = keccak256 (st ++ counter_bytes c).
Proof. unfold expansion_block. now rewrite counter_bytes_spec. Qed.

Lemma expansion_block_mod c :
  expansion_block st (c mod UINT64_MOD) = expansion_block st c.
Proof. rewrite !expansion_block_code. now rewrite counter_bytes_mod. Qed.

Lemma expansion_block_congr c c' :
  c mod UINT64_MOD = c' mod UINT64_MOD ->
  expansion_block st c = expansion_block st c'.
Proof.
  intros E. rewrite <- (expansion_block_mod c), E. apply expansion_block_mod.
Qed.

(** The blocks, written out one by one. *)
Lemma expansion_blocks_each k : forall c,
  expansion_blocks st c k
  = concat (map (fun i => keccak256 (st ++ big_endian_64 (c + Z.of_nat i)))
                (seq 0 k)).
Proof.
  induction k as [|k IH]; intros c; [reflexivity|].
  cbn [expansion_blocks seq map concat].
  unfold expansion_block at 1. rewrite Z.add_0_r. f_equal.
  rewrite IH, <- seq_shift, map_map. f_equal.
  apply map_ext. intros i.
  replace (c + 1 + Z.of_nat i) with (c + Z.of_nat (S i)) by lia. reflexivity.
Qed.

Lemma expansion_blocks_concat k c :
  expansion_blocks st c k
  = concat (map (fun i => keccak256
                            (st ++ big_endian_64
                                     ((c + Z.of_nat i) mod UINT64_MOD)))
                (seq 0 k)).
Proof.
  rewrite expansion_blocks_each. f_equal. apply map_ext. intros i.
  fold (expansion_block st ((c + Z.of_nat i) mod UINT64_MOD)).
  fold (expansion_block st (c + Z.of_nat i)).
  symmetry. apply expansion_block_mod.
Qed.

Lemma expansion_blocks_congr k : forall c c',
  c mod UINT64_MOD = c' mod UINT64_MOD ->
  expansion_blocks st c k = expansion_blocks st c' k.
Proof.
  induction k as [|k IH]; intros c c' E; cbn [expansion_blocks].
  - reflexivity.
  - f_equal.
    + now apply expansion_block_congr.
    + apply IH. rewrite <- (Z.add_mod_idemp_l c), E, Z.add_mod_idemp_l;
        unfold UINT64_MOD; lia.
Qed.

Lemma expansion_blocks_length k : forall c,
  length (expansion_blocks st c k) = (KECCAK256_OUTPUT * k)%nat.
Proof.
  induction k as [|k IH]; intros c; cbn [expansion_blocks].
  - cbn. lia.
  - rewrite length_app, expansion_block_length, IH.
    unfold KECCAK256_OUTPUT. lia.
Qed.

Lemma expansion_blocks_app k1 : forall c k2,
  expansion_blocks st c (k1 + k2) =
  expansion_blocks st c k1 ++ expansion_blocks st (c + Z.of_nat k1) k2.
Proof.
  induction k1 as [|k1 IH]; intros c k2.
  - cbn. f_equal. lia.
  - cbn [Nat.add expansion_blocks]. rewrite IH, <- app_assoc.
    do 3 f_equal. lia.
Qed.

(** Blocks beyond the needed ones do not change the first [n] bytes. *)
Lemma expansion_stream_prefix c n k :
  firstn n (expansion_blocks st c (blocks_needed n + k)) =
  expansion_stream st c n.
Proof.
  unfold expansion_stream. rewrite expansion_blocks_app, firstn_app.
  rewrite expansion_blocks_length.
  replace (n - KECCAK256_OUTPUT * blocks_needed n)%nat with 0%nat.
  - now rewrite firstn_O, app_nil_r.
  - unfold blocks_needed, KECCAK256_OUTPUT. lia.
Qed.

Lemma expansion_stream_length c n :
  length (expansion_stream st c n) = n.
Proof.
  unfold expansion_stream. rewrite length_firstn, expansion_blocks_length.
  unfold blocks_needed, KECCAK256_OUTPUT. lia.
Qed.

Lemma expansion_stream_0 c : expansion_stream st c 0 = [].
Proof. reflexivity. Qed.

(** One turn of the loop, on the stream. *)
Lemma expansion_stream_step c m :
  (0 < m)%nat ->
  expansion_stream st c m =
  firstn (Nat.min m KECCAK256_OUTPUT) (expansion_block st c)
  ++ expansion_stream st (c + 1) (m - Nat.min m KECCAK256_OUTPUT).
Proof.
  intros Hm. unfold expansion_stream at 1.
  assert (Hk : blocks_needed m =
               S (blocks_needed (m - Nat.min m KECCAK256_OUTPUT))).
  { unfold blocks_needed, KECCAK256_OUTPUT. lia. }
  rewrite Hk. cbn [expansion_blocks].
  rewrite firstn_app, expansion_block_length.
  destruct (Nat.le_gt_cases m KECCAK256_OUTPUT) as [Hle|Hgt].
  - rewrite Nat.min_l by lia.
    replace (m - KECCAK256_OUTPUT)%nat with 0%nat by lia.
    replace (m - m)%nat with 0%nat by lia.
    now rewrite firstn_O.
  - rewrite Nat.min_r by lia.
    rewrite (firstn_all2 (expansion_block st c))
      by (rewrite expansion_block_length; lia).
    rewrite (firstn_all2 (n := KECCAK256_OUTPUT))
      by (rewrite expansion_block_length; lia).
    reflexivity.
Qed.

Lemma blocks_needed_step m :
  (0 < m)%nat ->
  blocks_needed m = S (blocks_needed (m - Nat.min m KECCAK256_OUTPUT)).
Proof. unfold blocks_needed, KECCAK256_OUTPUT. lia. Qed.

End StreamFacts.

(** ** [Plain]: the extraction loop *)

Section PlainFacts.
Context {K : Keccak256}.
Import Plain.

Lemma expansion_stream_congr st c c' n :
  c mod UINT64_MOD = c' mod UINT64_MOD ->
  expansion_stream st c n = expansion_stream st c' n.
Proof.
  intros E. unfold expansion_stream. f_equal.
  now apply expansion_blocks_congr.
Qed.

Lemma expansion_stream_incr st c n :
  expansion_stream st (uint64_incr c) n = expansion_stream st (c + 1) n.
Proof.
  apply expansion_stream_congr. unfold uint64_incr.
  apply Z.mod_mod. unfold UINT64_MOD. lia.
Qed.

Lemma to_copy_min a :
  (if (KECCAK256_OUTPUT <? a)%nat then KECCAK256_OUTPUT else a)
  = Nat.min a KECCAK256_OUTPUT.
Proof. destruct (Nat.ltb_spec KECCAK256_OUTPUT a); lia. Qed.

Lemma plain_set_counter_same c : set_counter (counter c) c = c.
Proof. destruct c; reflexivity. Qed.

(** The loop of [c/keccak_prng.c], from any offset: the bytes before
    [offset] and from [len] on stay, those between are the next bytes of
    the stream, and the counter has moved by one per block. *)
Lemma plain_extract_loop_spec fuel : forall c out offset len,
  (len - offset <= fuel)%nat ->
  (offset <= len)%nat -> (len <= length out)%nat ->
  extract_loop fuel c out offset len =
  (set_counter
     (Nat.iter (blocks_needed (len - offset)) uint64_incr (counter c)) c,
   firstn offset out
   ++ expansion_stream (state c) (counter c) (len - offset)
   ++ skipn len out).
Proof.
  induction fuel as [|fuel IH]; intros c out offset len Hf Hol Hlen.
  - replace (len - offset)%nat with 0%nat by lia.
    replace offset with len by lia.
    cbn. rewrite plain_set_counter_same, firstn_skipn. reflexivity.
  - cbn [extract_loop].
    destruct (Nat.ltb_spec offset len) as [Hlt|Hge].
    + rewrite to_copy_min.
      set (m := (len - offset)%nat).
      set (t := Nat.min m KECCAK256_OUTPUT).
      assert (Ht : (0 < t <= m)%nat) by (unfold t, KECCAK256_OUTPUT; lia).
      assert (Ht32 : (t <= KECCAK256_OUTPUT)%nat) by (unfold t; lia).
      pose proof (keccak256_length (state c ++ counter_bytes (counter c)))
        as HB.
      rewrite IH;
        [ | lia | lia | rewrite memcpy_length; lia ].
      cbn [state counter set_counter buffer buffer_len finalized].
      replace (len - (offset + t))%nat with (m - t)%nat by lia.
      rewrite (blocks_needed_step m) by lia. fold t.
      rewrite Nat.iter_succ_r.
      f_equal.
      rewrite memcpy_firstn by lia.
      rewrite memcpy_skipn by lia.
      rewrite expansion_stream_incr.
      rewrite (expansion_stream_step (state c) (counter c) m) by lia.
      fold t. rewrite expansion_block_code.
      now rewrite <- !app_assoc.
    + replace (len - offset)%nat with 0%nat by lia.
      replace offset with len by lia.
      cbn. rewrite plain_set_counter_same, firstn_skipn. reflexivity.
Qed.

(** The loop never runs out of fuel: any amount from [len - offset] on
    gives the same result. *)
Lemma plain_extract_loop_fuel fuel fuel' c out offset len :
  (len - offset <= fuel)%nat -> (len - offset <= fuel')%nat ->
  (offset <= len)%nat -> (len <= length out)%nat ->
  extract_loop fuel c out offset len = extract_loop fuel' c out offset len.
Proof.
  intros. now rewrite !plain_extract_loop_spec.
Qed.

Lemma iter_uint64_incr k : forall c,
  (0 < k)%nat ->
  Nat.iter k uint64_incr c = (c + Z.of_nat k) mod UINT64_MOD.
Proof.
  induction k as [|k IH]; intros c Hk; [lia|].
  destruct k as [|k].
  - reflexivity.
  - rewrite Nat.iter_succ, IH by lia. unfold uint64_incr.
    rewrite Z.add_mod_idemp_l by (unfold UINT64_MOD; lia).
    f_equal. lia.
Qed.

Lemma iter_uint64_incr_0 k :
  Nat.iter k uint64_incr 0 = Z.of_nat k mod UINT64_MOD.
Proof.
  destruct k as [|k]; [reflexivity|].
  rewrite iter_uint64_incr by lia. f_equal.
Qed.

End PlainFacts.

(** ** [Buffered]: the extraction loop and the cache *)

Section BufferedFacts.
Context {K : Keccak256}.
Import Buffered.

Lemma to_copy_min_cached a :
  (if (a <? KECCAK256_OUTPUT)%nat then a else KECCAK256_OUTPUT)
  = Nat.min a KECCAK256_OUTPUT.
Proof. destruct (Nat.ltb_spec a KECCAK256_OUTPUT); lia. Qed.

Lemma buffered_set_pos_same c :
  set_out_buffer_pos (out_buffer_pos c) c = c.
Proof. destruct c; reflexivity. Qed.

(** The loop of the caching rendition writes the same bytes and leaves
    the last block in the cache. *)
Lemma buffered_extract_loop_spec fuel : forall c out offset len,
  (len - offset <= fuel)%nat ->
  (offset <= len)%nat -> (len <= length out)%nat ->
  extract_loop fuel c out offset len =
  (refill c (len - offset),
   firstn offset out
   ++ expansion_stream (state c) (counter c) (len - offset)
   ++ skipn len out).
Proof.
  induction fuel as [|fuel IH]; intros c out offset len Hf Hol Hlen.
  - replace (len - offset)%nat with 0%nat by lia.
    replace offset with len by lia.
    cbn. rewrite firstn_skipn. reflexivity.
  - cbn [extract_loop].
    destruct (Nat.ltb_spec offset len) as [Hlt|Hge].
    + rewrite to_copy_min_cached.
      set (m := (len - offset)%nat).
      set (t := Nat.min m KECCAK256_OUTPUT).
      assert (Ht : (0 < t <= m)%nat) by (unfold t, KECCAK256_OUTPUT; lia).
      assert (Ht32 : (t <= KECCAK256_OUTPUT)%nat) by (unfold t; lia).
      pose proof (keccak256_length (state c ++ counter_bytes (counter c)))
        as HB.
      rewrite IH;
        [ | lia | lia | rewrite memcpy_length; lia ].
      cbn [state counter buffer buffer_len finalized].
      replace (len - (offset + t))%nat with (m - t)%nat by lia.
      f_equal.
      * unfold refill.
        cbn [state counter buffer buffer_len finalized].
        replace (0 <? m)%nat with true by (symmetry; apply Nat.ltb_lt; lia).
        rewrite (blocks_needed_step m) by lia. fold t.
        destruct (Nat.ltb_spec 0 (m - t)) as [Hmore|Hdone].
        -- rewrite Nat.iter_succ_r. f_equal.
           ++ apply expansion_block_congr. unfold uint64_incr.
              rewrite <- Z.add_sub_assoc.
              rewrite Z.add_mod_idemp_l by (unfold UINT64_MOD; lia).
              f_equal. lia.
           ++ unfold t, blocks_needed, KECCAK256_OUTPUT in *. lia.
        -- replace (m - t)%nat with 0%nat by lia.
           change (blocks_needed 0) with 0%nat. cbn [Nat.iter].
           f_equal.
           ++ rewrite expansion_block_code. do 3 f_equal. lia.
           ++ unfold t, KECCAK256_OUTPUT in *. lia.
      * rewrite memcpy_firstn by lia.
        rewrite memcpy_skipn by lia.
        rewrite expansion_stream_incr.
        rewrite (expansion_stream_step (state c) (counter c) m) by lia.
        fold t. rewrite expansion_block_code.
        now rewrite <- !app_assoc.
    + replace (len - offset)%nat with 0%nat by lia.
      replace offset with len by lia.
      cbn. rewrite firstn_skipn. reflexivity.
Qed.

Lemma buffered_extract_loop_fuel fuel fuel' c out offset len :
  (len - offset <= fuel)%nat -> (len - offset <= fuel')%nat ->
  (offset <= len)%nat -> (len <= length out)%nat ->
  extract_loop fuel c out offset len = extract_loop fuel' c out offset len.
Proof.
  intros. now rewrite !buffered_extract_loop_spec.
Qed.

Lemma memcpy_firstn_0 dst src n :
  (n <= length src)%nat ->
  firstn n (memcpy dst 0 src n) = firstn n src.
Proof. intros Hs. apply (memcpy_firstn dst 0 src n); lia. Qed.

(** One call of [extract] on a finalized context: it hands out [served]
    and leaves [advance]. *)
Lemma buffered_extract_spec c out n :
  finalized c = true -> cache_wf c -> (n <= length out)%nat ->
  inner_keccak256_extract (Some c) (Some out) n =
  (PRNG_OK, Some (advance c n), Some (served c n ++ skipn n out)).
Proof.
  intros Hfin Hwf Hn. unfold inner_keccak256_extract.
  rewrite Hfin. cbn [negb].
  unfold advance, served, available. unfold cache_wf in Hwf.
  destruct (Nat.ltb_spec (out_buffer_pos c) (out_buffer_len c)) as [Hav|Hno].
  - set (a := (out_buffer_len c - out_buffer_pos c)%nat).
    replace (if (n <? a)%nat then n else a) with (Nat.min n a)
      by (destruct (Nat.ltb_spec n a); lia).
    set (t := Nat.min n a).
    assert (Hsrc : (t <= length (skipn (out_buffer_pos c) (out_buffer c)))%nat)
      by (rewrite length_skipn; lia).
    destruct (Nat.eqb_spec t n) as [Heq|Hne].
    + replace (n - t)%nat with 0%nat by lia.
      unfold refill. cbn [Nat.ltb Nat.leb].
      rewrite expansion_stream_0, app_nil_r.
      unfold memcpy. cbn [firstn app Nat.add]. rewrite Heq. reflexivity.
    + rewrite buffered_extract_loop_spec;
        [ | lia | lia | rewrite memcpy_length; cbn [Nat.add]; lia ].
      cbn [state counter set_out_buffer_pos].
      rewrite memcpy_firstn_0 by lia.
      rewrite memcpy_skipn by (cbn [Nat.add]; lia).
      now rewrite <- app_assoc.
  - replace (Nat.min n (out_buffer_len c - out_buffer_pos c)) with 0%nat
      by lia.
    rewrite Nat.add_0_r, Nat.sub_0_r, buffered_set_pos_same.
    rewrite buffered_extract_loop_spec by lia.
    rewrite Nat.sub_0_r. reflexivity.
Qed.
End BufferedFacts.

Section Split.
Context {K : Keccak256}.
Variable st : list byte.

(** Asking for [n] more bytes after [m > 0]: the rest of the last block
    of the first request, then fresh blocks. *)
Lemma expansion_stream_split m : forall c n,
  (0 < m)%nat ->
  let k := blocks_needed m in
  let r := (m - KECCAK256_OUTPUT * (k - 1))%nat in
  let t := Nat.min n (KECCAK256_OUTPUT - r) in
  expansion_stream st c (m + n) =
  expansion_stream st c m
  ++ firstn t (skipn r (expansion_block st (c + Z.of_nat k - 1)))
  ++ expansion_stream st (c + Z.of_nat k) (n - t).
Proof.
  induction m as [m IH] using lt_wf_ind. intros c n Hm k r t.
  pose proof (expansion_block_length st c) as HB.
  rewrite (expansion_stream_step st c (m + n)) by lia.
  rewrite (expansion_stream_step st c m) by lia.
  destruct (Nat.le_gt_cases m KECCAK256_OUTPUT) as [Hle|Hgt].
  - assert (Hk : k = 1%nat)
      by (unfold k, blocks_needed, KECCAK256_OUTPUT in *; lia).
    assert (Hr : r = m) by (unfold r; rewrite Hk; lia).
    rewrite Hk. replace (c + Z.of_nat 1 - 1) with c by lia.
    rewrite (Nat.min_l m) by lia.
    replace (m - m)%nat with 0%nat by lia.
    rewrite expansion_stream_0, app_nil_r.
    replace (Nat.min (m + n) KECCAK256_OUTPUT) with (m + t)%nat
      by (unfold t; rewrite Hr; lia).
    rewrite firstn_add, <- app_assoc, Hr.
    do 3 f_equal. unfold t. rewrite Hr. lia.
  - rewrite (Nat.min_r m), (Nat.min_r (m + n)) by lia.
    replace (m + n - KECCAK256_OUTPUT)%nat
      with ((m - KECCAK256_OUTPUT) + n)%nat by lia.
    rewrite (IH (m - KECCAK256_OUTPUT)%nat)
      by (unfold KECCAK256_OUTPUT in *; lia).
    assert (Hk : k = S (blocks_needed (m - KECCAK256_OUTPUT)))
      by (unfold k, blocks_needed, KECCAK256_OUTPUT in *; lia).
    assert (Hk1 : (1 <= blocks_needed (m - KECCAK256_OUTPUT))%nat)
      by (unfold blocks_needed, KECCAK256_OUTPUT in *; lia).
    assert (Hr : (m - KECCAK256_OUTPUT
                  - KECCAK256_OUTPUT
                    * (blocks_needed (m - KECCAK256_OUTPUT) - 1))%nat = r)
      by (unfold r; rewrite Hk; unfold KECCAK256_OUTPUT in *; lia).
    rewrite Hr. fold t. rewrite <- !app_assoc.
    replace (c + 1 + Z.of_nat (blocks_needed (m - KECCAK256_OUTPUT)) - 1)
      with (c + Z.of_nat k - 1) by (rewrite Hk; lia).
    replace (c + 1 + Z.of_nat (blocks_needed (m - KECCAK256_OUTPUT)))
      with (c + Z.of_nat k) by (rewrite Hk; lia).
    reflexivity.
Qed.
End Split.

Section BufferedSplit.
Context {K : Keccak256}.
Import Buffered.

Lemma iter_uint64_incr_mod k c :
  Nat.iter k uint64_incr c mod UINT64_MOD = (c + Z.of_nat k) mod UINT64_MOD.
Proof.
  destruct k as [|k].
  - cbn. f_equal. lia.
  - rewrite iter_uint64_incr by lia. apply Z.mod_mod.
    unfold UINT64_MOD. lia.
Qed.

Lemma served_length c n :
  cache_wf c -> length (served c n) = n.
Proof.
  unfold cache_wf, served, available. intros Hwf.
  rewrite length_app, length_firstn, length_skipn, expansion_stream_length.
  lia.
Qed.

Lemma advance_finalized c n : finalized (advance c n) = finalized c.
Proof.
  unfold advance, refill.
  destruct (0 <? _)%nat; reflexivity.
Qed.

Lemma advance_cache_wf c n : cache_wf c -> cache_wf (advance c n).
Proof.
  unfold advance, refill, cache_wf. intros Hwf.
  destruct (0 <? _)%nat; cbn [out_buffer out_buffer_len set_out_buffer_pos].
  - rewrite expansion_block_length. lia.
  - exact Hwf.
Qed.

(** What is handed out over two requests is what one request for the sum
    hands out. *)
Lemma served_split c n1 n2 :
  served c (n1 + n2) = served c n1 ++ served (advance c n1) n2.
Proof.
  unfold served at 1 2. unfold advance.
  set (a := available c).
  destruct (Nat.le_gt_cases n1 a) as [Hle|Hgt].
  - (* the first request is served from the cache alone *)
    rewrite (Nat.min_l n1 a) by lia.
    replace (n1 - n1)%nat with 0%nat by lia.
    rewrite expansion_stream_0, app_nil_r.
    unfold refill. cbn [Nat.ltb Nat.leb].
    unfold served, available.
    cbn [out_buffer out_buffer_len out_buffer_pos set_out_buffer_pos
         state counter].
    fold (available c). fold a.
    replace (out_buffer_len c - (out_buffer_pos c + n1))%nat
      with (a - n1)%nat by (unfold a, available; lia).
    replace (Nat.min (n1 + n2) a) with (n1 + Nat.min n2 (a - n1))%nat by lia.
    rewrite firstn_add, skipn_skipn, <- app_assoc.
    rewrite (Nat.add_comm n1 (out_buffer_pos c)).
    do 3 f_equal. lia.
  - (* fresh blocks were needed: the cache now holds the last of them *)
    rewrite (Nat.min_r n1 a), (Nat.min_r (n1 + n2) a) by lia.
    replace (n1 + n2 - a)%nat with ((n1 - a) + n2)%nat by lia.
    rewrite expansion_stream_split by lia.
    unfold refill.
    replace (0 <? n1 - a)%nat with true by (symmetry; apply Nat.ltb_lt; lia).
    cbn [state counter set_out_buffer_pos].
    unfold served, available.
    cbn [out_buffer out_buffer_len out_buffer_pos state counter].
    rewrite <- !app_assoc. do 3 f_equal.
    apply expansion_stream_congr. symmetry. apply iter_uint64_incr_mod.
Qed.
End BufferedSplit.

Section BufferedAdvance.
Context {K : Keccak256}.
Import Buffered.

Lemma refill_0 c : refill c 0 = c.
Proof. reflexivity. Qed.

(** And the context is the same after either. *)
Lemma advance_advance c n1 n2 :
  advance (advance c n1) n2 = advance c (n1 + n2).
Proof.
  unfold advance at 2 3.
  set (a := available c).
  destruct (Nat.le_gt_cases n1 a) as [Hle|Hgt].
  - rewrite (Nat.min_l n1 a) by lia.
    replace (n1 - n1)%nat with 0%nat by lia.
    rewrite refill_0.
    unfold advance.
    replace (available (set_out_buffer_pos (out_buffer_pos c + n1) c))
      with (a - n1)%nat by (unfold a, available; cbn; lia).
    replace (Nat.min (n1 + n2) a) with (n1 + Nat.min n2 (a - n1))%nat by lia.
    replace (n1 + n2 - (n1 + Nat.min n2 (a - n1)))%nat
      with (n2 - Nat.min n2 (a - n1))%nat by lia.
    cbn [out_buffer_pos set_out_buffer_pos].
    rewrite Nat.add_assoc. reflexivity.
  - rewrite (Nat.min_r n1 a), (Nat.min_r (n1 + n2) a) by lia.
    set (c1 := set_out_buffer_pos (out_buffer_pos c + a) c).
    set (m1 := (n1 - a)%nat).
    replace (n1 + n2 - a)%nat with (m1 + n2)%nat by lia.
    assert (Hm1 : (0 < m1)%nat) by lia.
    unfold refill.
    replace (0 <? m1)%nat with true by (symmetry; apply Nat.ltb_lt; lia).
    replace (0 <? m1 + n2)%nat with true by (symmetry; apply Nat.ltb_lt; lia).
    unfold advance, available.
    cbn [out_buffer out_buffer_len out_buffer_pos set_out_buffer_pos
         buffer buffer_len state counter finalized].
    set (k1 := blocks_needed m1).
    set (r := (m1 - KECCAK256_OUTPUT * (k1 - 1))%nat).
    assert (Hr : (0 < r <= KECCAK256_OUTPUT)%nat /\ (1 <= k1)%nat
                 /\ (m1 = KECCAK256_OUTPUT * (k1 - 1) + r)%nat)
      by (unfold r, k1, blocks_needed, KECCAK256_OUTPUT in *; lia).
    destruct (Nat.le_gt_cases n2 (KECCAK256_OUTPUT - r)) as [Hin|Hout].
    + rewrite (Nat.min_l n2) by lia.
      replace (n2 - n2)%nat with 0%nat by lia.
      unfold refill. cbn [Nat.ltb Nat.leb].
      assert (Hk : blocks_needed (m1 + n2) = k1)
        by (unfold k1, blocks_needed, KECCAK256_OUTPUT in *; lia).
      rewrite Hk. fold k1. unfold set_out_buffer_pos.
      cbn [out_buffer out_buffer_len out_buffer_pos
           buffer buffer_len state counter finalized].
      f_equal. unfold r, KECCAK256_OUTPUT in *. lia.
    + rewrite (Nat.min_r n2) by lia.
      set (m2 := (n2 - (KECCAK256_OUTPUT - r))%nat).
      unfold refill.
      replace (0 <? m2)%nat with true
        by (symmetry; apply Nat.ltb_lt; unfold m2; lia).
      unfold set_out_buffer_pos.
      cbn [out_buffer out_buffer_len out_buffer_pos
           buffer buffer_len state counter finalized].
      assert (Hk : blocks_needed (m1 + n2) = (blocks_needed m2 + k1)%nat)
        by (unfold m2, blocks_needed, KECCAK256_OUTPUT in *; lia).
      rewrite Hk. f_equal.
      * now rewrite Nat.iter_add.
      * apply expansion_block_congr.
        rewrite <- Z.add_sub_assoc, <- Z.add_mod_idemp_l
          by (unfold UINT64_MOD; lia).
        rewrite iter_uint64_incr_mod.
        rewrite Z.add_mod_idemp_l by (unfold UINT64_MOD; lia).
        f_equal. lia.
      * unfold m2, blocks_needed, KECCAK256_OUTPUT in *. lia.
Qed.
End BufferedAdvance.

(** ** [Plain]: one call of [extract] *)

Section PlainExtract.
Context {K : Keccak256}.
Import Plain.

(** One call of [extract] on a finalized context. *)
Lemma plain_extract_spec c out n :
  finalized c = true -> (n <= length out)%nat ->
  inner_keccak256_extract (Some c) (Some out) n =
  (PRNG_OK, Some (plain_advance c n),
   Some (expansion_stream (state c) (counter c) n ++ skipn n out)).
Proof.
  intros Hfin Hn. unfold inner_keccak256_extract. rewrite Hfin. cbn [negb].
  rewrite plain_extract_loop_spec by lia.
  rewrite Nat.sub_0_r. reflexivity.
Qed.

Lemma firstn_app_exact {A} (l1 l2 : list A) n :
  length l1 = n -> firstn n (l1 ++ l2) = l1.
Proof.
  intros <-. rewrite firstn_app, Nat.sub_diag, firstn_O, app_nil_r.
  apply firstn_all.
Qed.

Lemma plain_advance_finalized c n : finalized (plain_advance c n) = finalized c.
Proof. reflexivity. Qed.

(** After a whole number of blocks the next request starts at a fresh
    block, which is where the stream continues. *)
Lemma plain_stream_split st c n1 n2 :
  (n1 mod KECCAK256_OUTPUT = 0)%nat ->
  expansion_stream st c (n1 + n2) =
  expansion_stream st c n1
  ++ expansion_stream st (Nat.iter (blocks_needed n1) uint64_incr c) n2.
Proof.
  intros Hal.
  rewrite (expansion_stream_congr st (Nat.iter _ _ _)
             (c + Z.of_nat (blocks_needed n1)))
    by apply iter_uint64_incr_mod.
  destruct (Nat.eq_dec n1 0) as [->|Hpos].
  - cbn [Nat.add]. change (blocks_needed 0) with 0%nat.
    rewrite expansion_stream_0. cbn [app]. f_equal. lia.
  - rewrite expansion_stream_split by lia.
    replace (n1 - KECCAK256_OUTPUT * (blocks_needed n1 - 1))%nat
      with KECCAK256_OUTPUT
      by (unfold blocks_needed, KECCAK256_OUTPUT in *; lia).
    rewrite Nat.sub_diag, Nat.min_0_r, Nat.sub_0_r. reflexivity.
Qed.

Lemma plain_advance_advance c n1 n2 :
  (n1 mod KECCAK256_OUTPUT = 0)%nat ->
  plain_advance (plain_advance c n1) n2 = plain_advance c (n1 + n2).
Proof.
  intros Hal. unfold plain_advance, set_counter.
  cbn [buffer buffer_len state counter finalized]. f_equal.
  rewrite <- Nat.iter_add. f_equal.
  unfold blocks_needed, KECCAK256_OUTPUT in *. lia.
Qed.

(** Leaving [extract], every field but the counter is as it was. *)
Lemma plain_extract_loop_frame fuel : forall c out offset len,
  set_counter (counter c) (fst (extract_loop fuel c out offset len)) = c.
Proof.
  induction fuel as [|fuel IH]; intros c out offset len; cbn [extract_loop].
  - apply plain_set_counter_same.
  - destruct (offset <? len)%nat.
    + specialize (IH (set_counter (uint64_incr (counter c)) c)).
      cbn [counter set_counter] in IH.
      match goal with |- context [extract_loop fuel ?c' ?o ?a ?b] =>
        specialize (IH o a b); destruct (extract_loop fuel c' o a b) as [c2 o2]
      end.
      cbn [fst] in *. unfold set_counter in *.
      cbn [buffer buffer_len state counter finalized] in *.
      destruct c. cbn in *. injection IH as -> -> -> ->. reflexivity.
    + apply plain_set_counter_same.
Qed.

End PlainExtract.

(** ** Successive requests *)

Section Sequential.
Context {K : Keccak256}.

Lemma buffered_sequential_law b n1 n2 out1 out2 out3 :
  Buffered.finalized b = true -> cache_wf b ->
  (n1 <= length out1)%nat -> (n2 <= length out2)%nat ->
  (n1 + n2 <= length out3)%nat ->
  sequential_law Buffered.inner_keccak256_extract b n1 n2 out1 out2 out3.
Proof.
  intros Hfin Hwf H1 H2 H3.
  exists (advance b n1), (served b n1 ++ skipn n1 out1),
         (advance b (n1 + n2)), (served (advance b n1) n2 ++ skipn n2 out2),
         (served b (n1 + n2) ++ skipn (n1 + n2) out3).
  repeat split.
  - now apply buffered_extract_spec.
  - rewrite <- advance_advance. apply buffered_extract_spec; trivial.
    + now rewrite advance_finalized.
    + now apply advance_cache_wf.
  - now apply buffered_extract_spec.
  - rewrite !firstn_app_exact
      by (apply served_length; auto using advance_cache_wf).
    symmetry. apply served_split.
Qed.

Lemma plain_sequential_law p n1 n2 out1 out2 out3 :
  Plain.finalized p = true -> (n1 mod KECCAK256_OUTPUT = 0)%nat ->
  (n1 <= length out1)%nat -> (n2 <= length out2)%nat ->
  (n1 + n2 <= length out3)%nat ->
  sequential_law Plain.inner_keccak256_extract p n1 n2 out1 out2 out3.
Proof.
  intros Hfin Hal H1 H2 H3.
  exists (plain_advance p n1),
         (expansion_stream (Plain.state p) (Plain.counter p) n1
          ++ skipn n1 out1),
         (plain_advance p (n1 + n2)),
         (expansion_stream (Plain.state (plain_advance p n1))
            (Plain.counter (plain_advance p n1)) n2 ++ skipn n2 out2),
         (expansion_stream (Plain.state p) (Plain.counter p) (n1 + n2)
          ++ skipn (n1 + n2) out3).
  repeat split.
  - now apply plain_extract_spec.
  - rewrite <- plain_advance_advance by assumption.
    now apply plain_extract_spec.
  - now apply plain_extract_spec.
  - rewrite !firstn_app_exact by apply expansion_stream_length.
    symmetry. now apply plain_stream_split.
Qed.

End Sequential.

(** ** Series of requests *)

Section SessionFacts.
Context {K : Keccak256}.
Variable MAX_BUFFER_SIZE : nat.

Lemma plain_extract_all_spec calls : forall p,
  Plain.finalized p = true -> calls_fit calls ->
  fst (PlainSession.extract_all (Some p) calls)
  = plain_outputs p (map snd calls).
Proof.
  induction calls as [|[o n] calls IH]; intros p Hfin Hfit.
  - reflexivity.
  - inversion Hfit as [|? ? Hn Hrest]; subst. cbn [fst snd] in Hn.
    cbn [PlainSession.extract_all map snd plain_outputs].
    rewrite plain_extract_spec by assumption.
    specialize (IH (plain_advance p n) Hfin Hrest).
    destruct (PlainSession.extract_all (Some (plain_advance p n)) calls)
      as [rs sc2].
    cbn [fst] in *. rewrite IH. unfold observed.
    rewrite firstn_app_exact by apply expansion_stream_length.
    reflexivity.
Qed.

Lemma buffered_extract_all_spec calls : forall b,
  Buffered.finalized b = true -> cache_wf b -> calls_fit calls ->
  fst (BufferedSession.extract_all (Some b) calls)
  = buffered_outputs b (map snd calls).
Proof.
  induction calls as [|[o n] calls IH]; intros b Hfin Hwf Hfit.
  - reflexivity.
  - inversion Hfit as [|? ? Hn Hrest]; subst. cbn [fst snd] in Hn.
    cbn [BufferedSession.extract_all map snd buffered_outputs].
    rewrite buffered_extract_spec by assumption.
    assert (Hfin' : Buffered.finalized (advance b n) = true)
      by now rewrite advance_finalized.
    specialize (IH (advance b n) Hfin' (advance_cache_wf b n Hwf) Hrest).
    destruct (BufferedSession.extract_all (Some (advance b n)) calls)
      as [rs sc2].
    cbn [fst] in *. rewrite IH. unfold observed.
    rewrite firstn_app_exact by now apply served_length.
    reflexivity.
Qed.

(** With an empty cache a request is served from fresh blocks alone. *)
Lemma served_empty_cache b n :
  available b = 0%nat ->
  served b n = expansion_stream (Buffered.state b) (Buffered.counter b) n.
Proof.
  intros Ha. unfold served. rewrite Ha, Nat.min_0_r, Nat.sub_0_r.
  reflexivity.
Qed.

Lemma advance_empty_cache b n :
  available b = 0%nat ->
  without_cache (advance b n) = plain_advance (without_cache b) n.
Proof.
  intros Ha. unfold advance. rewrite Ha, Nat.min_0_r, Nat.sub_0_r, Nat.add_0_r.
  rewrite buffered_set_pos_same. unfold refill.
  destruct (Nat.ltb_spec 0 n) as [Hpos|Hz].
  - reflexivity.
  - replace n with 0%nat by lia. unfold plain_advance.
    change (blocks_needed 0) with 0%nat.
    symmetry. exact (plain_set_counter_same (without_cache b)).
Qed.

Lemma advance_aligned_empty b n :
  available b = 0%nat -> (n mod KECCAK256_OUTPUT = 0)%nat ->
  available (advance b n) = 0%nat.
Proof.
  intros Ha Hal. unfold advance.
  rewrite Ha, Nat.min_0_r, Nat.sub_0_r, Nat.add_0_r, buffered_set_pos_same.
  unfold refill. destruct (Nat.ltb_spec 0 n) as [Hpos|Hz].
  - unfold available. cbn [Buffered.out_buffer_len Buffered.out_buffer_pos].
    unfold blocks_needed, KECCAK256_OUTPUT in *. lia.
  - exact Ha.
Qed.

Lemma buffered_outputs_aligned calls : forall b,
  available b = 0%nat -> block_aligned calls = true ->
  buffered_outputs b (map snd calls)
  = plain_outputs (without_cache b) (map snd calls).
Proof.
  induction calls as [|[o n] calls IH]; intros b Ha Hal.
  - reflexivity.
  - cbn [map snd buffered_outputs plain_outputs].
    rewrite served_empty_cache by assumption.
    cbn [without_cache Plain.state Plain.counter]. f_equal.
    destruct calls as [|call calls'].
    + reflexivity.
    + cbn [block_aligned] in Hal. apply andb_true_iff in Hal as [Hn Hrest].
      apply Nat.eqb_eq in Hn.
      rewrite <- advance_empty_cache by assumption.
      apply IH; [now apply advance_aligned_empty | exact Hrest].
Qed.
End SessionFacts.

(** ** Sessions *)

Section Preamble.
Context {K : Keccak256}.
Variable MAX_BUFFER_SIZE : nat.

(** [inject] in the two renditions, side by side: same result code, same
    effect on the shared fields, cache untouched. *)
Lemma buffered_inject_sim b d len :
  exists r b',
    Buffered.inner_keccak256_inject MAX_BUFFER_SIZE (Some b) (Some d) len
    = (r, Some b')
    /\ Plain.inner_keccak256_inject MAX_BUFFER_SIZE (Some (without_cache b))
         (Some d) len = (r, Some (without_cache b'))
    /\ Buffered.finalized b' = Buffered.finalized b
    /\ Buffered.out_buffer_pos b' = Buffered.out_buffer_pos b
    /\ Buffered.out_buffer_len b' = Buffered.out_buffer_len b
    /\ Buffered.counter b' = Buffered.counter b.
Proof.
  unfold Buffered.inner_keccak256_inject, Plain.inner_keccak256_inject.
  cbn [without_cache Plain.finalized Plain.buffer_len Plain.buffer
       Plain.state Plain.counter].
  destruct (Buffered.finalized b) eqn:Hfin.
  - exists ERR_STATE, b. repeat split; auto.
  - destruct (Z.of_nat MAX_BUFFER_SIZE
              <? size_add MAX_BUFFER_SIZE (Buffered.buffer_len b) len).
    + exists ERR_OVERFLOW, b. repeat split; auto.
    + eexists PRNG_OK, _. repeat split; try reflexivity.
Qed.

Lemma buffered_inject_all_sim chunks : forall b,
  exists ri b',
    BufferedSession.inject_all MAX_BUFFER_SIZE (Some b) chunks = (ri, Some b')
    /\ PlainSession.inject_all MAX_BUFFER_SIZE (Some (without_cache b)) chunks
       = (ri, Some (without_cache b'))
    /\ Buffered.finalized b' = Buffered.finalized b
    /\ Buffered.out_buffer_pos b' = Buffered.out_buffer_pos b
    /\ Buffered.out_buffer_len b' = Buffered.out_buffer_len b
    /\ Buffered.counter b' = Buffered.counter b.
Proof.
  induction chunks as [|d chunks IH]; intros b.
  - exists [], b. repeat split.
  - destruct (buffered_inject_sim b d (Z.of_nat (length d)))
      as (r & b1 & Hb & Hp & Hf & Hpos & Hlen & Hcnt).
    destruct (IH b1) as (ri & b2 & Hb2 & Hp2 & Hf2 & Hpos2 & Hlen2 & Hcnt2).
    exists (r :: ri), b2.
    cbn [BufferedSession.inject_all PlainSession.inject_all].
    rewrite Hb, Hp, Hb2, Hp2. repeat split; congruence.
Qed.

(** Both sessions reach [extract] with the same derived state, counter 0
    and an empty cache, whatever the memory held before [init]. *)
Lemma sessions_ready mem_p mem_b chunks :
  exists ri b,
    Buffered.finalized b = true
    /\ available b = 0%nat
    /\ cache_wf b
    /\ Buffered.counter b = 0
    /\ (forall calls,
          PlainSession.session MAX_BUFFER_SIZE mem_p chunks calls
          = (PRNG_OK, ri, PRNG_OK,
             fst (PlainSession.extract_all (Some (without_cache b)) calls),
             snd (PlainSession.extract_all (Some (without_cache b)) calls)))
    /\ (forall calls,
          BufferedSession.session MAX_BUFFER_SIZE mem_b chunks calls
          = (PRNG_OK, ri, PRNG_OK,
             fst (BufferedSession.extract_all (Some b) calls),
             snd (BufferedSession.extract_all (Some b) calls))).
Proof.
  set (b0 := Buffered.mk_ctx (memset x00 MAX_BUFFER_SIZE) 0%nat
               (memset x00 KECCAK256_OUTPUT) 0 false
               (Buffered.out_buffer mem_b) 0%nat 0%nat).
  destruct (buffered_inject_all_sim chunks b0)
    as (ri & b1 & Hb & Hp & Hf & Hpos & Hlen & Hcnt).
  cbn [b0 Buffered.finalized Buffered.out_buffer_pos Buffered.out_buffer_len
       Buffered.counter] in Hf, Hpos, Hlen, Hcnt.
  exists ri.
  exists (Buffered.mk_ctx (Buffered.buffer b1) (Buffered.buffer_len b1)
            (keccak256 (firstn (Buffered.buffer_len b1) (Buffered.buffer b1)))
            (Buffered.counter b1) true (Buffered.out_buffer b1) 0%nat 0%nat).
  repeat split.
  - unfold cache_wf. cbn. lia.
  - cbn [Buffered.counter]. exact Hcnt.
  - intros calls. unfold PlainSession.session.
    cbn [Plain.inner_keccak256_init].
    change (Plain.mk_ctx (memset x00 MAX_BUFFER_SIZE) 0%nat
              (memset x00 KECCAK256_OUTPUT) 0 false)
      with (without_cache b0).
    rewrite Hp. unfold Plain.inner_keccak256_flip.
    cbn [without_cache Plain.finalized Plain.buffer Plain.buffer_len
         Plain.counter]. rewrite Hf.
    destruct (PlainSession.extract_all _ calls). reflexivity.
  - intros calls. unfold BufferedSession.session.
    cbn [Buffered.inner_keccak256_init]. fold b0.
    rewrite Hb. unfold Buffered.inner_keccak256_flip. rewrite Hf.
    destruct (BufferedSession.extract_all _ calls). reflexivity.
Qed.

(** The observable part of a session does not depend on what the context
    memory or the destination arrays held beforehand. *)
Lemma plain_session_outputs mem chunks calls :
  calls_fit calls ->
  exists ri p,
    Plain.finalized p = true /\ Plain.counter p = 0
    /\ fst (PlainSession.session MAX_BUFFER_SIZE mem chunks calls)
       = (PRNG_OK, ri, PRNG_OK, plain_outputs p (map snd calls))
    /\ forall mem' calls',
         calls_fit calls' ->
         fst (PlainSession.session MAX_BUFFER_SIZE mem' chunks calls')
         = (PRNG_OK, ri, PRNG_OK, plain_outputs p (map snd calls')).
Proof.
  intros Hfit.
  destruct (sessions_ready mem (Buffered.mk_ctx [] 0 [] 0 false [] 0 0) chunks)
    as (ri & b & Hfin & _ & _ & Hcnt & Hp & _).
  exists ri, (without_cache b). repeat split; trivial.
  - rewrite Hp. cbn [fst]. now rewrite plain_extract_all_spec.
  - intros mem' calls' Hfit'.
    transitivity (fst (PlainSession.session MAX_BUFFER_SIZE mem chunks calls')).
    + reflexivity.
    + rewrite Hp. cbn [fst]. now rewrite plain_extract_all_spec.
Qed.

Lemma sessions_agree mem_p mem_b chunks calls :
  calls_fit calls -> block_aligned calls = true ->
  fst (PlainSession.session MAX_BUFFER_SIZE mem_p chunks calls)
  = fst (BufferedSession.session MAX_BUFFER_SIZE mem_b chunks calls).
Proof.
  intros Hfit Hal.
  destruct (sessions_ready mem_p mem_b chunks)
    as (ri & b & Hfin & Hav & Hwf & _ & Hp & Hb).
  rewrite Hp, Hb. cbn [fst].
  rewrite plain_extract_all_spec, buffered_extract_all_spec by assumption.
  now rewrite buffered_outputs_aligned.
Qed.

End Preamble.

Section CacheIrrelevant.
Context {K : Keccak256}.
Variable MAX_BUFFER_SIZE : nat.

(** With the cache empty, its stale contents are never looked at. *)
Lemma buffered_outputs_stale lens : forall b b',
  available b = 0%nat -> available b' = 0%nat ->
  without_cache b = without_cache b' ->
  buffered_outputs b lens = buffered_outputs b' lens.
Proof.
  induction lens as [|n lens IH]; intros b b' Ha Ha' Hsame.
  - reflexivity.
  - cbn [buffered_outputs].
    rewrite !served_empty_cache by assumption.
    injection Hsame as Hbuf Hlen Hst Hcnt Hfin.
    rewrite Hst, Hcnt. f_equal.
    unfold advance.
    rewrite Ha, Ha', !Nat.min_0_r, !Nat.sub_0_r, !Nat.add_0_r.
    rewrite !buffered_set_pos_same. unfold refill.
    destruct (0 <? n)%nat.
    + now rewrite Hbuf, Hlen, Hst, Hcnt, Hfin.
    + apply IH; trivial. unfold without_cache. congruence.
Qed.

Lemma buffered_session_outputs mem mem' chunks calls calls' :
  calls_fit calls -> calls_fit calls' -> map snd calls = map snd calls' ->
  fst (BufferedSession.session MAX_BUFFER_SIZE mem chunks calls)
  = fst (BufferedSession.session MAX_BUFFER_SIZE mem' chunks calls').
Proof.
  intros Hfit Hfit' Hlens.
  destruct (sessions_ready MAX_BUFFER_SIZE plain_garbage mem chunks)
    as (ri & b & Hfin & Hav & Hwf & _ & Hp & Hb).
  destruct (sessions_ready MAX_BUFFER_SIZE plain_garbage mem' chunks)
    as (ri' & b' & Hfin' & Hav' & Hwf' & _ & Hp' & Hb').
  pose proof (Hp []) as E. rewrite (Hp' []) in E. cbn in E.
  injection E as Eri Ebuf Elen Est Ecnt Efin.
  rewrite Hb, Hb'. cbn [fst].
  rewrite !buffered_extract_all_spec by assumption.
  rewrite Hlens, Eri. f_equal.
  apply buffered_outputs_stale; trivial.
  unfold without_cache. congruence.
Qed.

End CacheIrrelevant.

(** ** Injection *)

(** Two copies in a row are one copy of the concatenation. *)
Lemma memcpy_memcpy dst off a b :
  (off <= length dst)%nat ->
  memcpy (memcpy dst off a (length a)) (off + length a) b (length b)
  = memcpy dst off (a ++ b) (length (a ++ b)).
Proof.
  intros Hoff. unfold memcpy.
  rewrite !firstn_all, length_app.
  assert (Hx : length (firstn off dst) = off) by (rewrite length_firstn; lia).
  rewrite (app_assoc (firstn off dst) a).
  rewrite firstn_app_exact by (rewrite length_app; lia).
  rewrite skipn_app.
  rewrite length_app, Hx.
  rewrite (skipn_all2 (firstn off dst ++ a)) by (rewrite length_app; lia).
  rewrite skipn_skipn.
  cbn [app]. rewrite <- !app_assoc. do 4 f_equal. lia.
Qed.

(** The absorbed bytes after a copy at the fill level. *)
Lemma memcpy_absorbed dst off src :
  (off <= length dst)%nat ->
  firstn (off + length src) (memcpy dst off src (length src))
  = firstn off dst ++ src.
Proof.
  intros Hoff. rewrite memcpy_firstn by lia. now rewrite firstn_all.
Qed.

Lemma memcpy_beyond dst off src :
  (off + length src <= length dst)%nat ->
  skipn (off + length src) (memcpy dst off src (length src))
  = skipn (off + length src) dst.
Proof. intros H. apply memcpy_skipn; lia. Qed.

(** [size_t] sums. *)
Lemma SIZE_MOD_bounds MAX_BUFFER_SIZE :
  2 ^ 64 <= SIZE_MOD MAX_BUFFER_SIZE
  /\ Z.of_nat MAX_BUFFER_SIZE < SIZE_MOD MAX_BUFFER_SIZE.
Proof. unfold SIZE_MOD. lia. Qed.


Lemma size_add_no_wrap MAX_BUFFER_SIZE a len :
  0 <= Z.of_nat a + len < SIZE_MOD MAX_BUFFER_SIZE ->
  size_add MAX_BUFFER_SIZE a len = Z.of_nat a + len.
Proof. intros H. unfold size_add. now apply Z.mod_small. Qed.

Lemma size_add_fits MAX_BUFFER_SIZE a n :
  (a + n <= MAX_BUFFER_SIZE)%nat ->
  size_add MAX_BUFFER_SIZE a (Z.of_nat n) = Z.of_nat (a + n).
Proof.
  intros H. pose proof (SIZE_MOD_bounds MAX_BUFFER_SIZE) as [_ Hm].
  rewrite size_add_no_wrap; lia.
Qed.

Section InjectFacts.
Context {K : Keccak256}.
Variable MAX_BUFFER_SIZE : nat.

(** A chunk that fits, with whatever array behind it. *)
Lemma plain_inject_accepts_len c d len :
  Plain.finalized c = false -> 0 <= len ->
  Z.of_nat (Plain.buffer_len c) + len <= Z.of_nat MAX_BUFFER_SIZE ->
  Plain.inner_keccak256_inject MAX_BUFFER_SIZE (Some c) (Some d) len
  = (PRNG_OK,
     Some (Plain.mk_ctx
             (memcpy (Plain.buffer c) (Plain.buffer_len c) d (Z.to_nat len))
             (Plain.buffer_len c + Z.to_nat len)%nat
             (Plain.state c) (Plain.counter c) false)).
Proof.
  intros Hfin H0 Hfit. unfold Plain.inner_keccak256_inject. rewrite Hfin.
  pose proof (SIZE_MOD_bounds MAX_BUFFER_SIZE) as [_ Hm].
  rewrite size_add_no_wrap by lia.
  destruct (Z.ltb_spec (Z.of_nat MAX_BUFFER_SIZE)
              (Z.of_nat (Plain.buffer_len c) + len)); [lia|].
  do 3 f_equal. lia.
Qed.

Lemma plain_inject_accepts c d :
  Plain.finalized c = false ->
  (Plain.buffer_len c + length d <= MAX_BUFFER_SIZE)%nat ->
  Plain.inner_keccak256_inject MAX_BUFFER_SIZE (Some c) (Some d)
    (Z.of_nat (length d))
  = (PRNG_OK,
     Some (Plain.mk_ctx
             (memcpy (Plain.buffer c) (Plain.buffer_len c) d (length d))
             (Plain.buffer_len c + length d)%nat
             (Plain.state c) (Plain.counter c) false)).
Proof.
  intros Hfin Hfit. rewrite plain_inject_accepts_len by (trivial; lia).
  now rewrite Nat2Z.id.
Qed.

(** A chunk that does not fit, where the sum does not wrap. *)
Lemma plain_inject_rejects c d len :
  Plain.finalized c = false ->
  Z.of_nat MAX_BUFFER_SIZE < Z.of_nat (Plain.buffer_len c) + len
  < SIZE_MOD MAX_BUFFER_SIZE ->
  Plain.inner_keccak256_inject MAX_BUFFER_SIZE (Some c) (Some d) len
  = (ERR_OVERFLOW, Some c).
Proof.
  intros Hfin Hfit. unfold Plain.inner_keccak256_inject. rewrite Hfin.
  rewrite size_add_no_wrap by lia.
  destruct (Z.ltb_spec (Z.of_nat MAX_BUFFER_SIZE)
              (Z.of_nat (Plain.buffer_len c) + len)); [reflexivity|lia].
Qed.

Lemma plain_inject_twice c a b :
  Plain.finalized c = false ->
  (Plain.buffer_len c <= length (Plain.buffer c))%nat ->
  (Plain.buffer_len c + (length a + length b) <= MAX_BUFFER_SIZE)%nat ->
  PlainSession.inject_all MAX_BUFFER_SIZE (Some c) [a; b]
  = ([PRNG_OK; PRNG_OK],
     snd (PlainSession.inject_all MAX_BUFFER_SIZE (Some c) [a ++ b]))
  /\ fst (PlainSession.inject_all MAX_BUFFER_SIZE (Some c) [a ++ b])
     = [PRNG_OK].
Proof.
  intros Hfin Hwf Hfit. cbn [PlainSession.inject_all].
  rewrite (plain_inject_accepts c a) by (trivial; lia).
  rewrite plain_inject_accepts
    by (cbn [Plain.finalized Plain.buffer_len]; trivial; lia).
  rewrite (plain_inject_accepts c (a ++ b))
    by (trivial; rewrite length_app; lia).
  cbn [Plain.buffer Plain.buffer_len Plain.state Plain.counter fst snd].
  rewrite memcpy_memcpy by assumption.
  rewrite length_app, Nat.add_assoc. split; reflexivity.
Qed.

Lemma buffered_inject_accepts c d :
  Buffered.finalized c = false ->
  (Buffered.buffer_len c + length d <= MAX_BUFFER_SIZE)%nat ->
  Buffered.inner_keccak256_inject MAX_BUFFER_SIZE (Some c) (Some d)
    (Z.of_nat (length d))
  = (PRNG_OK,
     Some (Buffered.mk_ctx
             (memcpy (Buffered.buffer c) (Buffered.buffer_len c) d (length d))
             (Buffered.buffer_len c + length d)%nat
             (Buffered.state c) (Buffered.counter c) false
             (Buffered.out_buffer c) (Buffered.out_buffer_pos c)
             (Buffered.out_buffer_len c))).
Proof.
  intros Hfin Hfit. unfold Buffered.inner_keccak256_inject. rewrite Hfin.
  rewrite size_add_fits by assumption.
  destruct (Z.ltb_spec (Z.of_nat MAX_BUFFER_SIZE)
              (Z.of_nat (Buffered.buffer_len c + length d))); [lia|].
  now rewrite !Nat2Z.id.
Qed.

Lemma buffered_inject_twice c a b :
  Buffered.finalized c = false ->
  (Buffered.buffer_len c <= length (Buffered.buffer c))%nat ->
  (Buffered.buffer_len c + (length a + length b) <= MAX_BUFFER_SIZE)%nat ->
  BufferedSession.inject_all MAX_BUFFER_SIZE (Some c) [a; b]
  = ([PRNG_OK; PRNG_OK],
     snd (BufferedSession.inject_all MAX_BUFFER_SIZE (Some c) [a ++ b]))
  /\ fst (BufferedSession.inject_all MAX_BUFFER_SIZE (Some c) [a ++ b])
     = [PRNG_OK].
Proof.
  intros Hfin Hwf Hfit. cbn [BufferedSession.inject_all].
  rewrite (buffered_inject_accepts c a) by (trivial; lia).
  rewrite buffered_inject_accepts
    by (cbn [Buffered.finalized Buffered.buffer_len]; trivial; lia).
  rewrite (buffered_inject_accepts c (a ++ b))
    by (trivial; rewrite length_app; lia).
  cbn [Buffered.buffer Buffered.buffer_len Buffered.state Buffered.counter
       Buffered.out_buffer Buffered.out_buffer_pos Buffered.out_buffer_len
       fst snd].
  rewrite memcpy_memcpy by assumption.
  rewrite length_app, Nat.add_assoc. split; reflexivity.
Qed.

End InjectFacts.

(** ** Phase guards, [flip] and frames *)

Section Guards.
Context {K : Keccak256}.
Variable MAX_BUFFER_SIZE : nat.

Lemma plain_phase_guarded :
  phase_guarded Plain.finalized
    (Plain.inner_keccak256_init MAX_BUFFER_SIZE)
    (Plain.inner_keccak256_inject MAX_BUFFER_SIZE)
    Plain.inner_keccak256_flip Plain.inner_keccak256_extract.
Proof.
  unfold phase_guarded.
  split; [| split; [| split; [| split; [| split; [| split]]]]].
  - intros c d len Hfin. unfold Plain.inner_keccak256_inject.
    now rewrite Hfin.
  - intros c out n Hfin. unfold Plain.inner_keccak256_extract.
    now rewrite Hfin.
  - intros c Hfin. unfold Plain.inner_keccak256_flip. now rewrite Hfin.
  - intros sc. unfold Plain.inner_keccak256_init. fail_noop.
  - intros sc inp len. unfold Plain.inner_keccak256_inject. fail_noop.
  - intros sc. unfold Plain.inner_keccak256_flip. fail_noop.
  - intros sc out n. unfold Plain.inner_keccak256_extract. fail_noop.
Qed.

Lemma buffered_phase_guarded :
  phase_guarded Buffered.finalized
    (Buffered.inner_keccak256_init MAX_BUFFER_SIZE)
    (Buffered.inner_keccak256_inject MAX_BUFFER_SIZE)
    Buffered.inner_keccak256_flip Buffered.inner_keccak256_extract.
Proof.
  unfold phase_guarded.
  split; [| split; [| split; [| split; [| split; [| split]]]]].
  - intros c d len Hfin. unfold Buffered.inner_keccak256_inject.
    now rewrite Hfin.
  - intros c out n Hfin. unfold Buffered.inner_keccak256_extract.
    now rewrite Hfin.
  - intros c Hfin. unfold Buffered.inner_keccak256_flip. now rewrite Hfin.
  - intros sc. unfold Buffered.inner_keccak256_init. fail_noop.
  - intros sc inp len. unfold Buffered.inner_keccak256_inject. fail_noop.
  - intros sc. unfold Buffered.inner_keccak256_flip. fail_noop.
  - intros sc out n. unfold Buffered.inner_keccak256_extract. fail_noop.
Qed.
End Guards.

(** The rendition on [sha3_256] has the [inject] of [c/keccak_prng.c]. *)
Lemma shake_inject_is_plain MAX_BUFFER_SIZE sc inp len :
  Shake.inner_keccak256_inject MAX_BUFFER_SIZE sc inp len
  = Plain.inner_keccak256_inject MAX_BUFFER_SIZE sc inp len.
Proof. reflexivity. Qed.

Section Flip.
Context {K : Keccak256} {H : Sha3_256}.
Variable MAX_BUFFER_SIZE : nat.

(** [flip] of the rendition on [sha3_256], on a context that is not
    finalized and has room for the suffix byte. *)
Lemma shake_flip_appends (s : Shake.inner_keccak256_prng_ctx) :
  Plain.finalized s = false ->
  (Plain.buffer_len s + 1 <= MAX_BUFFER_SIZE)%nat ->
  (Plain.buffer_len s <= length (Plain.buffer s))%nat ->
  exists s',
    Shake.inner_keccak256_flip MAX_BUFFER_SIZE (Some s)
    = (fst (sha3_256 (Plain.state s)
              (plain_absorbed s ++ [Shake.SHAKE_SUFFIX])), Some s')
    /\ Plain.state s'
       = snd (sha3_256 (Plain.state s)
                (plain_absorbed s ++ [Shake.SHAKE_SUFFIX]))
    /\ plain_absorbed s' = plain_absorbed s ++ [Shake.SHAKE_SUFFIX]
    /\ Plain.buffer_len s' = (Plain.buffer_len s + 1)%nat
    /\ Plain.finalized s'
       = (fst (sha3_256 (Plain.state s)
                 (plain_absorbed s ++ [Shake.SHAKE_SUFFIX])) =? 0)
    /\ Plain.counter s' = Plain.counter s.
Proof.
  intros Hfin Hroom Hwf. unfold Shake.inner_keccak256_flip. rewrite Hfin.
  destruct (Nat.ltb_spec MAX_BUFFER_SIZE (Plain.buffer_len s + 1)); [lia|].
  pose proof (memcpy_absorbed (Plain.buffer s) (Plain.buffer_len s)
                [Shake.SHAKE_SUFFIX] Hwf) as Habs.
  cbn [length] in Habs. rewrite Habs. fold (plain_absorbed s).
  destruct (sha3_256 (Plain.state s)
              (plain_absorbed s ++ [Shake.SHAKE_SUFFIX])) as [ret st'] eqn:E.
  cbn [fst snd].
  destruct (Z.eqb_spec ret 0) as [->|Hne]; cbn [negb];
    eexists; (split; [reflexivity|]);
    unfold plain_absorbed at 1;
    cbn [Plain.buffer Plain.buffer_len Plain.state Plain.counter
         Plain.finalized];
    rewrite Habs; auto 10.
Qed.
End Flip.

Section Frame.
Context {K : Keccak256}.

Lemma buffered_extract_loop_frame fuel : forall c out offset len,
  without_cache (fst (Buffered.extract_loop fuel c out offset len))
  = Plain.set_counter
      (Buffered.counter (fst (Buffered.extract_loop fuel c out offset len)))
      (without_cache c).
Proof.
  induction fuel as [|fuel IH]; intros c out offset len;
    cbn [Buffered.extract_loop].
  - reflexivity.
  - destruct (offset <? len)%nat; [|reflexivity].
    rewrite IH. reflexivity.
Qed.

Lemma plain_extract_frame (p : Plain.inner_keccak256_prng_ctx)
    (out : option (list byte)) (n : nat) :
  exists r p' o',
    Plain.inner_keccak256_extract (Some p) out n = (r, Some p', o')
    /\ Plain.set_counter (Plain.counter p) p' = p.
Proof.
  unfold Plain.inner_keccak256_extract.
  destruct out as [o|]; [|exists ERR_NULL, p, None; split;
                          [reflexivity | apply plain_set_counter_same]].
  destruct (Plain.finalized p); cbn [negb].
  - pose proof (plain_extract_loop_frame n p o 0%nat n) as F.
    destruct (Plain.extract_loop n p o 0 n) as [p' o'].
    exists PRNG_OK, p', (Some o'). split; [reflexivity | exact F].
  - exists ERR_STATE, p, (Some o).
    split; [reflexivity | apply plain_set_counter_same].
Qed.

Lemma buffered_extract_frame (b : Buffered.inner_keccak256_prng_ctx)
    (out : option (list byte)) (n : nat) :
  exists r b' o',
    Buffered.inner_keccak256_extract (Some b) out n = (r, Some b', o')
    /\ without_cache b'
       = Plain.set_counter (Buffered.counter b') (without_cache b).
Proof.
  unfold Buffered.inner_keccak256_extract.
  destruct out as [o|]; [|exists ERR_NULL, b, None; split; reflexivity].
  destruct (Buffered.finalized b); cbn [negb];
    [|exists ERR_STATE, b, (Some o); split; reflexivity].
  destruct (Buffered.out_buffer_pos b <? Buffered.out_buffer_len b)%nat.
  - match goal with |- context [if ?t then _ else _] => destruct t end.
    + eexists _, _, _. split; reflexivity.
    + match goal with |- context [Buffered.extract_loop ?f ?c ?o' ?a ?l] =>
        pose proof (buffered_extract_loop_frame f c o' a l) as F;
        destruct (Buffered.extract_loop f c o' a l) as [b' o2]
      end.
      eexists _, _, _. split; [reflexivity | exact F].
  - pose proof (buffered_extract_loop_frame n b o 0%nat n) as F.
    destruct (Buffered.extract_loop n b o 0 n) as [b' o2].
    eexists _, _, _. split; [reflexivity | exact F].
Qed.
End Frame.

Section Reuse.
Context {K : Keccak256}.
Variable MAX_BUFFER_SIZE : nat.

(** A session on a context does not depend on what the context held. *)
Lemma plain_session_reuse mem mem' chunks calls :
  PlainSession.session MAX_BUFFER_SIZE mem chunks calls
  = PlainSession.session MAX_BUFFER_SIZE mem' chunks calls.
Proof. reflexivity. Qed.
End Reuse.

(** ** Invariants *)

Section Invariants.
Context {K : Keccak256}.
Variable MAX_BUFFER_SIZE : nat.

(** [plain_ctx_wf] holds after [init] and is kept by every call. *)
Lemma plain_init_wf mem :
  exists c,
    Plain.inner_keccak256_init MAX_BUFFER_SIZE (Some mem) = (PRNG_OK, Some c)
    /\ plain_ctx_wf MAX_BUFFER_SIZE c.
Proof.
  eexists. split; [reflexivity|].
  unfold plain_ctx_wf, memset.
  cbn [Plain.buffer Plain.buffer_len Plain.state].
  rewrite !repeat_length. auto with arith.
Qed.

(** [inject] with an array that holds the [len] bytes, and [len] small
    enough for the sum of the capacity check not to wrap. *)
Lemma plain_inject_in_range c d len :
  plain_ctx_wf MAX_BUFFER_SIZE c -> Plain.finalized c = false ->
  0 <= len <= Z.of_nat (length d) ->
  Z.of_nat MAX_BUFFER_SIZE + len < SIZE_MOD MAX_BUFFER_SIZE ->
  (Z.of_nat MAX_BUFFER_SIZE < Z.of_nat (Plain.buffer_len c) + len
   /\ Plain.inner_keccak256_inject MAX_BUFFER_SIZE (Some c) (Some d) len
      = (ERR_OVERFLOW, Some c))
  \/ (Z.of_nat (Plain.buffer_len c) + len <= Z.of_nat MAX_BUFFER_SIZE
      /\ Plain.inner_keccak256_inject MAX_BUFFER_SIZE (Some c) (Some d) len
         = (PRNG_OK,
            Some (Plain.mk_ctx
                    (memcpy (Plain.buffer c) (Plain.buffer_len c) d
                            (Z.to_nat len))
                    (Plain.buffer_len c + Z.to_nat len)%nat
                    (Plain.state c) (Plain.counter c) false))
      /\ plain_ctx_wf MAX_BUFFER_SIZE
           (Plain.mk_ctx
              (memcpy (Plain.buffer c) (Plain.buffer_len c) d (Z.to_nat len))
              (Plain.buffer_len c + Z.to_nat len)%nat
              (Plain.state c) (Plain.counter c) false)).
Proof.
  intros (Hbuf & Hst & Hlen) Hfin Hd Hsmall.
  destruct (Z.lt_ge_cases (Z.of_nat MAX_BUFFER_SIZE)
              (Z.of_nat (Plain.buffer_len c) + len)) as [Hov|Hok].
  - left. split; [exact Hov|]. apply plain_inject_rejects; [exact Hfin|lia].
  - right. split; [exact Hok|]. split.
    + apply plain_inject_accepts_len; [exact Hfin|lia|exact Hok].
    + unfold plain_ctx_wf. cbn [Plain.buffer Plain.buffer_len Plain.state].
      rewrite memcpy_length by lia. repeat split; [assumption..|lia].
Qed.

Lemma plain_inject_wf c inp len :
  plain_ctx_wf MAX_BUFFER_SIZE c ->
  (forall d, inp = Some d ->
             0 <= len <= Z.of_nat (length d)
             /\ Z.of_nat MAX_BUFFER_SIZE + len < SIZE_MOD MAX_BUFFER_SIZE) ->
  exists r c',
    Plain.inner_keccak256_inject MAX_BUFFER_SIZE (Some c) inp len
    = (r, Some c')
    /\ plain_ctx_wf MAX_BUFFER_SIZE c'.
Proof.
  intros Hwf Hr.
  destruct inp as [d|]; [|now exists ERR_NULL, c].
  destruct (Plain.finalized c) eqn:Hfin.
  - exists ERR_STATE, c. split; [|exact Hwf].
    unfold Plain.inner_keccak256_inject. now rewrite Hfin.
  - destruct (Hr d eq_refl) as [Hd Hsmall].
    destruct (plain_inject_in_range c d len Hwf Hfin Hd Hsmall)
      as [[_ E]|(_ & E & Hwf')].
    + now exists ERR_OVERFLOW, c.
    + eexists _, _. split; [exact E|exact Hwf'].
Qed.

Lemma plain_flip_wf c :
  plain_ctx_wf MAX_BUFFER_SIZE c ->
  exists r c',
    Plain.inner_keccak256_flip (Some c) = (r, Some c')
    /\ plain_ctx_wf MAX_BUFFER_SIZE c'.
Proof.
  intros Hwf. pose proof Hwf as (Hbuf & Hst & Hlen).
  unfold Plain.inner_keccak256_flip.
  destruct (Plain.finalized c); [now exists ERR_STATE, c|].
  eexists _, _. split; [reflexivity|].
  unfold plain_ctx_wf. cbn [Plain.buffer Plain.buffer_len Plain.state].
  rewrite keccak256_length. auto.
Qed.

Lemma plain_extract_wf c out n :
  plain_ctx_wf MAX_BUFFER_SIZE c ->
  exists r c' o',
    Plain.inner_keccak256_extract (Some c) out n = (r, Some c', o')
    /\ plain_ctx_wf MAX_BUFFER_SIZE c'.
Proof.
  intros Hwf.
  destruct (plain_extract_frame c out n) as (r & c' & o' & E & F).
  exists r, c', o'. split; [exact E|].
  rewrite <- F in Hwf. exact Hwf.
Qed.

(** [cache_wf] holds after [init] and after [flip], whatever came before,
    and [inject] and [extract] keep it. *)
Lemma buffered_init_cache_wf mem :
  exists c,
    Buffered.inner_keccak256_init MAX_BUFFER_SIZE (Some mem)
    = (PRNG_OK, Some c)
    /\ cache_wf c.
Proof.
  eexists. split; [reflexivity|]. unfold cache_wf. cbn. lia.
Qed.

Lemma buffered_inject_cache_wf c inp len :
  cache_wf c ->
  exists r c',
    Buffered.inner_keccak256_inject MAX_BUFFER_SIZE (Some c) inp len
    = (r, Some c')
    /\ cache_wf c'.
Proof.
  intros Hwf. unfold Buffered.inner_keccak256_inject.
  destruct inp as [d|]; [|now exists ERR_NULL, c].
  destruct (Buffered.finalized c); [now exists ERR_STATE, c|].
  destruct (_ <? _); [now exists ERR_OVERFLOW, c|].
  eexists _, _. split; [reflexivity | exact Hwf].
Qed.

Lemma buffered_flip_cache_wf c :
  cache_wf c ->
  exists r c',
    Buffered.inner_keccak256_flip (Some c) = (r, Some c') /\ cache_wf c'.
Proof.
  intros Hwf. unfold Buffered.inner_keccak256_flip.
  destruct (Buffered.finalized c); [now exists ERR_STATE, c|].
  eexists _, _. split; [reflexivity|]. unfold cache_wf. cbn. lia.
Qed.

Lemma buffered_extract_cache_wf c out n :
  cache_wf c -> (n <= length out)%nat ->
  exists r c' o',
    Buffered.inner_keccak256_extract (Some c) (Some out) n = (r, Some c', o')
    /\ cache_wf c'.
Proof.
  intros Hwf Hn. destruct (Buffered.finalized c) eqn:Hfin.
  - rewrite buffered_extract_spec by assumption.
    eexists _, _, _. split; [reflexivity|]. now apply advance_cache_wf.
  - unfold Buffered.inner_keccak256_extract. rewrite Hfin.
    now exists ERR_STATE, c, (Some out).
Qed.
End Invariants.

(** ** [extract] of the rendition on [sha3_256] *)

Section ShakeExtract.
Context {K : Keccak256} {H : Sha3_256}.

(** When [sha3_256] reports success and stores the digest that the Keccak
    calls of [c/keccak_prng.c] store, the two [extract] functions are the
    same function. *)
Hypothesis sha3_256_is_keccak256 :
  forall old msg, sha3_256 old msg = (0, keccak256 msg).

Lemma shake_extract_loop_is_plain fuel : forall c out stack offset len,
  Shake.extract_loop fuel c out stack offset len
  = (PRNG_OK, fst (Plain.extract_loop fuel c out offset len),
     snd (Plain.extract_loop fuel c out offset len)).
Proof.
  induction fuel as [|fuel IH]; intros c out stack offset len;
    cbn [Shake.extract_loop Plain.extract_loop].
  - reflexivity.
  - destruct (offset <? len)%nat; [|reflexivity].
    rewrite sha3_256_is_keccak256. cbn [Z.eqb negb]. apply IH.
Qed.

Lemma shake_extract_is_plain stack sc out len :
  Shake.inner_keccak256_extract stack sc out len
  = Plain.inner_keccak256_extract sc out len.
Proof.
  unfold Shake.inner_keccak256_extract, Plain.inner_keccak256_extract.
  destruct sc as [c|], out as [o|]; try reflexivity.
  destruct (Plain.finalized c); cbn [negb]; [|reflexivity].
  rewrite shake_extract_loop_is_plain.
  now destruct (Plain.extract_loop len c o 0 len).
Qed.
End ShakeExtract.

(* ================================================================= *)
(** * The claims *)

(** C1 (amended).  Sequential extraction.  In the rendition with the output
    cache, for every finalized context whose cache cursor lies within the
    cached block and for all [n1], [n2], extracting [n1] bytes and then
    [n2] bytes yields the bytes of one extraction of [n1 + n2] bytes split
    at [n1], and leaves the same context.  In [c/keccak_prng.c], which
    keeps no cache, this holds when [n1] is a whole number of 32-byte
    blocks. *)
Theorem sequential_extraction {K : Keccak256}
    (b : Buffered.inner_keccak256_prng_ctx)
    (p : Plain.inner_keccak256_prng_ctx)
    (n1 n2 : nat) (out1 out2 out3 : list byte) :
  (n1 <= length out1)%nat -> (n2 <= length out2)%nat ->
  (n1 + n2 <= length out3)%nat ->
  (Buffered.finalized b = true -> cache_wf b ->
   sequential_law Buffered.inner_keccak256_extract b n1 n2 out1 out2 out3)
  /\ (Plain.finalized p = true -> (n1 mod KECCAK256_OUTPUT = 0)%nat ->
      sequential_law Plain.inner_keccak256_extract p n1 n2 out1 out2 out3).
Proof.
  intros H1 H2 H3. split.
  - intros Hfin Hwf. now apply buffered_sequential_law.
  - intros Hfin Hal. now apply plain_sequential_law.
Qed.

Lemma sequential_extraction_witness :
  sequential_law Buffered.inner_keccak256_extract buffered_midblock 32 16
    (dest 32) (dest 16) (dest 48)
  /\ sequential_law Plain.inner_keccak256_extract plain_flipped 32 16
       (dest 32) (dest 16) (dest 48).
Proof.
  destruct (sequential_extraction buffered_midblock plain_flipped 32 16
              (dest 32) (dest 16) (dest 48)) as [HB HP];
    [vm_compute; lia | vm_compute; lia | vm_compute; lia | ].
  split.
  - apply HB; [reflexivity | unfold cache_wf; vm_compute; lia].
  - apply HP; reflexivity.
Defined.

(** C1 as stated fails in [c/keccak_prng.c]: on [plain_flipped], 16 bytes
    and then 16 bytes are the first halves of blocks 0 and 1, while 32
    bytes at once are the whole of block 0. *)
Lemma sequential_extraction_counterexample :
  Plain.inner_keccak256_extract (Some plain_flipped) (Some (dest 16)) 16
  = (PRNG_OK, Some (Plain.set_counter 1 plain_flipped), Some block0_lo)
  /\ Plain.inner_keccak256_extract (Some (Plain.set_counter 1 plain_flipped))
       (Some (dest 16)) 16
     = (PRNG_OK, Some (Plain.set_counter 2 plain_flipped), Some block1_lo)
  /\ Plain.inner_keccak256_extract (Some plain_flipped) (Some (dest 32)) 32
     = (PRNG_OK, Some (Plain.set_counter 1 plain_flipped),
        Some (block0_lo ++ block0_hi))
  /\ firstn 16 block0_lo ++ firstn 16 block1_lo
     <> firstn 32 (block0_lo ++ block0_hi)
  /\ ~ sequential_law Plain.inner_keccak256_extract plain_flipped 16 16
         (dest 16) (dest 16) (dest 32).
Proof.
  assert (E1 : Plain.inner_keccak256_extract (Some plain_flipped)
                 (Some (dest 16)) 16
               = (PRNG_OK, Some (Plain.set_counter 1 plain_flipped),
                  Some block0_lo)) by (vm_compute; reflexivity).
  assert (E2 : Plain.inner_keccak256_extract
                 (Some (Plain.set_counter 1 plain_flipped))
                 (Some (dest 16)) 16
               = (PRNG_OK, Some (Plain.set_counter 2 plain_flipped),
                  Some block1_lo)) by (vm_compute; reflexivity).
  assert (E3 : Plain.inner_keccak256_extract (Some plain_flipped)
                 (Some (dest 32)) 32
               = (PRNG_OK, Some (Plain.set_counter 1 plain_flipped),
                  Some (block0_lo ++ block0_hi))) by (vm_compute; reflexivity).
  assert (N : firstn 16 block0_lo ++ firstn 16 block1_lo
              <> firstn 32 (block0_lo ++ block0_hi))
    by (vm_compute; discriminate).
  split; [exact E1|]. split; [exact E2|]. split; [exact E3|].
  split; [exact N|].
  intros (c1 & o1 & c2 & o2 & o3 & H1 & H2 & H3 & H4).
  rewrite E1 in H1. injection H1 as <- <-.
  rewrite E2 in H2. injection H2 as <- <-.
  change (16 + 16)%nat with 32%nat in H3, H4.
  rewrite E3 in H3. injection H3 as _ <-.
  exact (N H4).
Qed.

(** C2 (amended).  For every input sequence and every sequence of
    [extract] calls in which each call but the last asks for a whole number
    of 32-byte blocks (and each destination holds the bytes asked for), the
    rendition with the output cache and [c/keccak_prng.c] return the same
    result codes and the same bytes, whatever the context memory held
    before [init]. *)
Theorem caching_agrees_on_block_aligned_calls {K : Keccak256}
    (MAX_BUFFER_SIZE : nat)
    (mem_p : Plain.inner_keccak256_prng_ctx)
    (mem_b : Buffered.inner_keccak256_prng_ctx)
    (chunks : list (list byte)) (calls : list extract_call) :
  calls_fit calls -> block_aligned calls = true ->
  fst (PlainSession.session MAX_BUFFER_SIZE mem_p chunks calls)
  = fst (BufferedSession.session MAX_BUFFER_SIZE mem_b chunks calls).
Proof. apply sessions_agree. Qed.

Lemma caching_agrees_on_block_aligned_calls_witness :
  fst (PlainSession.session EXAMPLE_CAPACITY plain_garbage
         [bytes_test; bytes_input]
         [(dest 32, 32%nat); (dest 64, 64%nat); (dest 5, 5%nat)])
  = fst (BufferedSession.session EXAMPLE_CAPACITY buffered_garbage
           [bytes_test; bytes_input]
           [(dest 32, 32%nat); (dest 64, 64%nat); (dest 5, 5%nat)]).
Proof.
  apply (caching_agrees_on_block_aligned_calls EXAMPLE_CAPACITY
           plain_garbage buffered_garbage [bytes_test; bytes_input]
           [(dest 32, 32%nat); (dest 64, 64%nat); (dest 5, 5%nat)]).
  - repeat constructor; vm_compute; lia.
  - reflexivity.
Defined.

(** C2 as stated fails: with nothing injected, two calls of 16 bytes give
    the two halves of block 0 with the cache, and the first halves of
    blocks 0 and 1 without it. *)
Lemma caching_counterexample :
  fst (PlainSession.session EXAMPLE_CAPACITY plain_garbage []
         [(dest 16, 16%nat); (dest 16, 16%nat)])
  = (PRNG_OK, [], PRNG_OK, [(PRNG_OK, block0_lo); (PRNG_OK, block1_lo)])
  /\ fst (BufferedSession.session EXAMPLE_CAPACITY buffered_garbage []
            [(dest 16, 16%nat); (dest 16, 16%nat)])
     = (PRNG_OK, [], PRNG_OK, [(PRNG_OK, block0_lo); (PRNG_OK, block0_hi)])
  /\ fst (PlainSession.session EXAMPLE_CAPACITY plain_garbage []
            [(dest 16, 16%nat); (dest 16, 16%nat)])
     <> fst (BufferedSession.session EXAMPLE_CAPACITY buffered_garbage []
               [(dest 16, 16%nat); (dest 16, 16%nat)]).
Proof.
  split; [vm_compute; reflexivity|].
  split; [vm_compute; reflexivity|].
  vm_compute. discriminate.
Qed.

(** C3.  For every finalized context of [c/keccak_prng.c] whose counter is
    0 and every [n] (with a destination of at least [n] bytes), one
    [extract] call succeeds and stores exactly the first [n] bytes of the
    concatenation of the blocks [keccak256 (state || big_endian_64 (i))],
    [i = 0, 1, ...] (however many blocks beyond the needed ones one
    concatenates); the rest of the destination is left alone, and the
    counter ends at the number of blocks produced (modulo [2^64], as the
    type of the counter has it).  Each block has 32 bytes and
    [big_endian_64 (i)] is the 8-byte big-endian encoding of [i]: eight
    bytes that, read as base-256 digits with the most significant first,
    give [i] (modulo [2^64]).  The encoding is that of the specification,
    not the shifts and masks of the code. *)
Theorem counter_mode_expansion {K : Keccak256}
    (c : Plain.inner_keccak256_prng_ctx) (out : list byte) (n k : nat) :
  Plain.finalized c = true -> Plain.counter c = 0 ->
  (n <= length out)%nat ->
  Plain.inner_keccak256_extract (Some c) (Some out) n
  = (PRNG_OK,
     Some (Plain.set_counter (Z.of_nat (blocks_needed n) mod UINT64_MOD) c),
     Some (firstn n
             (concat
                (map (fun i => keccak256
                                 (Plain.state c
                                  ++ big_endian_64 (Z.of_nat i)))
                     (seq 0 (blocks_needed n + k))))
           ++ skipn n out))
  /\ (forall i, length (keccak256 (Plain.state c ++ big_endian_64 i))
                = 32%nat
                /\ length (big_endian_64 i) = 8%nat
                /\ be64_decode (big_endian_64 i) = i mod UINT64_MOD).
Proof.
  intros Hfin Hcnt Hn. split.
  - rewrite plain_extract_spec by assumption.
    unfold plain_advance. rewrite Hcnt, iter_uint64_incr_0.
    rewrite <- (expansion_stream_prefix (Plain.state c) 0 n k).
    now rewrite expansion_blocks_each.
  - intros i. split; [apply keccak256_length|].
    split; [apply big_endian_64_length | apply big_endian_64_decode].
Qed.

Lemma counter_mode_expansion_witness :
  Plain.inner_keccak256_extract (Some plain_flipped) (Some (dest 48)) 40
  = (PRNG_OK,
     Some (Plain.set_counter (Z.of_nat (blocks_needed 40) mod UINT64_MOD)
             plain_flipped),
     Some (firstn 40
             (concat
                (map (fun i => keccak256
                                 (Plain.state plain_flipped
                                  ++ big_endian_64 (Z.of_nat i)))
                     (seq 0 (blocks_needed 40 + 3))))
           ++ skipn 40 (dest 48)))
  /\ (forall i, length (keccak256 (Plain.state plain_flipped
                                   ++ big_endian_64 i))
                = 32%nat
                /\ length (big_endian_64 i) = 8%nat
                /\ be64_decode (big_endian_64 i) = i mod UINT64_MOD).
Proof.
  apply (counter_mode_expansion plain_flipped (dest 48) 40 3).
  - reflexivity.
  - reflexivity.
  - vm_compute. lia.
Defined.

(** C4.  Two contexts, whatever their memory held, that are initialized,
    fed the same chunks by the same [inject] calls, finalized and asked for
    [n] bytes in one call return the same result codes and the same [n]
    bytes, whatever the destination arrays held; in [c/keccak_prng.c] and
    in the rendition with the output cache. *)
Theorem session_deterministic {K : Keccak256} (MAX_BUFFER_SIZE : nat)
    (mem1 mem2 : Plain.inner_keccak256_prng_ctx)
    (bmem1 bmem2 : Buffered.inner_keccak256_prng_ctx)
    (chunks : list (list byte)) (n : nat) (out1 out2 : list byte) :
  (n <= length out1)%nat -> (n <= length out2)%nat ->
  fst (PlainSession.session MAX_BUFFER_SIZE mem1 chunks [(out1, n)])
  = fst (PlainSession.session MAX_BUFFER_SIZE mem2 chunks [(out2, n)])
  /\ fst (BufferedSession.session MAX_BUFFER_SIZE bmem1 chunks [(out1, n)])
     = fst (BufferedSession.session MAX_BUFFER_SIZE bmem2 chunks [(out2, n)]).
Proof.
  intros H1 H2.
  assert (F1 : calls_fit [(out1, n)]) by (repeat constructor; exact H1).
  assert (F2 : calls_fit [(out2, n)]) by (repeat constructor; exact H2).
  split.
  - destruct (plain_session_outputs MAX_BUFFER_SIZE mem1 chunks [(out1, n)] F1)
      as (ri & p & _ & _ & E1 & Eall).
    rewrite E1. symmetry. exact (Eall mem2 [(out2, n)] F2).
  - now apply buffered_session_outputs.
Qed.

Lemma session_deterministic_witness :
  fst (PlainSession.session EXAMPLE_CAPACITY plain_garbage
         [bytes_test_input] [(dest 32, 32%nat)])
  = fst (PlainSession.session EXAMPLE_CAPACITY plain_flipped
           [bytes_test_input] [(repeat xff 40, 32%nat)])
  /\ fst (BufferedSession.session EXAMPLE_CAPACITY buffered_garbage
            [bytes_test_input] [(dest 32, 32%nat)])
     = fst (BufferedSession.session EXAMPLE_CAPACITY buffered_midblock
              [bytes_test_input] [(repeat xff 40, 32%nat)]).
Proof.
  apply (session_deterministic EXAMPLE_CAPACITY plain_garbage plain_flipped
           buffered_garbage buffered_midblock [bytes_test_input] 32
           (dest 32) (repeat xff 40)); vm_compute; lia.
Defined.

(** C5.  On a freshly initialized context, injecting [a] and then [b],
    whose lengths together are within the capacity, succeeds twice and
    leaves the context that one injection of [a ++ b] leaves; so [flip] and
    every later [extract] return the same results and bytes.  In
    [c/keccak_prng.c] and in the rendition with the output cache. *)
Theorem incremental_absorption {K : Keccak256} (MAX_BUFFER_SIZE : nat)
    (mem : Plain.inner_keccak256_prng_ctx)
    (bmem : Buffered.inner_keccak256_prng_ctx)
    (a b : list byte) (calls : list extract_call) :
  (length a + length b <= MAX_BUFFER_SIZE)%nat ->
  (exists rf re sc,
      PlainSession.session MAX_BUFFER_SIZE mem [a; b] calls
      = (PRNG_OK, [PRNG_OK; PRNG_OK], rf, re, sc)
      /\ PlainSession.session MAX_BUFFER_SIZE mem [a ++ b] calls
         = (PRNG_OK, [PRNG_OK], rf, re, sc))
  /\ (exists rf re sc,
         BufferedSession.session MAX_BUFFER_SIZE bmem [a; b] calls
         = (PRNG_OK, [PRNG_OK; PRNG_OK], rf, re, sc)
         /\ BufferedSession.session MAX_BUFFER_SIZE bmem [a ++ b] calls
            = (PRNG_OK, [PRNG_OK], rf, re, sc)).
Proof.
  intros Hfit. split.
  - unfold PlainSession.session. cbn [Plain.inner_keccak256_init].
    match goal with |- context [PlainSession.inject_all _ (Some ?c) [a; b]] =>
      destruct (plain_inject_twice MAX_BUFFER_SIZE c a b) as [E2 E1];
        [reflexivity | cbn; lia | cbn; lia | ];
        rewrite E2;
        destruct (PlainSession.inject_all MAX_BUFFER_SIZE (Some c) [a ++ b])
          as [ri sc1]
    end.
    cbn [fst snd] in *. subst ri.
    destruct (Plain.inner_keccak256_flip sc1) as [rf sc2].
    destruct (PlainSession.extract_all sc2 calls) as [re sc3].
    now exists rf, re, sc3.
  - unfold BufferedSession.session. cbn [Buffered.inner_keccak256_init].
    match goal with
    | |- context [BufferedSession.inject_all _ (Some ?c) [a; b]] =>
      destruct (buffered_inject_twice MAX_BUFFER_SIZE c a b) as [E2 E1];
        [reflexivity | cbn; lia | cbn; lia | ];
        rewrite E2;
        destruct (BufferedSession.inject_all MAX_BUFFER_SIZE (Some c) [a ++ b])
          as [ri sc1]
    end.
    cbn [fst snd] in *. subst ri.
    destruct (Buffered.inner_keccak256_flip sc1) as [rf sc2].
    destruct (BufferedSession.extract_all sc2 calls) as [re sc3].
    now exists rf, re, sc3.
Qed.

Lemma incremental_absorption_witness :
  (exists rf re sc,
      PlainSession.session EXAMPLE_CAPACITY plain_garbage
        [bytes_test; bytes_input] [(dest 32, 32%nat)]
      = (PRNG_OK, [PRNG_OK; PRNG_OK], rf, re, sc)
      /\ PlainSession.session EXAMPLE_CAPACITY plain_garbage
           [bytes_test ++ bytes_input] [(dest 32, 32%nat)]
         = (PRNG_OK, [PRNG_OK], rf, re, sc))
  /\ (exists rf re sc,
         BufferedSession.session EXAMPLE_CAPACITY buffered_garbage
           [bytes_test; bytes_input] [(dest 32, 32%nat)]
         = (PRNG_OK, [PRNG_OK; PRNG_OK], rf, re, sc)
         /\ BufferedSession.session EXAMPLE_CAPACITY buffered_garbage
              [bytes_test ++ bytes_input] [(dest 32, 32%nat)]
            = (PRNG_OK, [PRNG_OK], rf, re, sc)).
Proof.
  apply (incremental_absorption EXAMPLE_CAPACITY plain_garbage
           buffered_garbage bytes_test bytes_input [(dest 32, 32%nat)]).
  vm_compute. lia.
Defined.

(** C6.  In [c/keccak_prng.c] and in the rendition with the output cache,
    for every context: [inject] after [flip] returns the invalid-state code
    and leaves the context as it was; so does [extract] before [flip] (the
    destination is left alone too); so does a second [flip]; and every call
    of [init], [inject], [flip] or [extract] that returns an error, for
    whatever arguments, leaves the context and the destination as they
    were. *)
Theorem failed_calls_are_no_ops {K : Keccak256} (MAX_BUFFER_SIZE : nat) :
  phase_guarded Plain.finalized
    (Plain.inner_keccak256_init MAX_BUFFER_SIZE)
    (Plain.inner_keccak256_inject MAX_BUFFER_SIZE)
    Plain.inner_keccak256_flip Plain.inner_keccak256_extract
  /\ phase_guarded Buffered.finalized
       (Buffered.inner_keccak256_init MAX_BUFFER_SIZE)
       (Buffered.inner_keccak256_inject MAX_BUFFER_SIZE)
       Buffered.inner_keccak256_flip Buffered.inner_keccak256_extract.
Proof.
  split; [apply plain_phase_guarded | apply buffered_phase_guarded].
Qed.

Lemma failed_calls_are_no_ops_witness :
  (Plain.inner_keccak256_inject EXAMPLE_CAPACITY (Some plain_flipped)
     (Some bytes_test) 4 = (ERR_STATE, Some plain_flipped)
   /\ Plain.inner_keccak256_extract
        (snd (Plain.inner_keccak256_init EXAMPLE_CAPACITY (Some plain_garbage)))
        (Some (dest 32)) 32
      = (ERR_STATE,
         snd (Plain.inner_keccak256_init EXAMPLE_CAPACITY (Some plain_garbage)),
         Some (dest 32))
   /\ Plain.inner_keccak256_flip (Some plain_flipped)
      = (ERR_STATE, Some plain_flipped))
  /\ (Buffered.inner_keccak256_inject EXAMPLE_CAPACITY (Some buffered_midblock)
        (Some bytes_test) 4 = (ERR_STATE, Some buffered_midblock)
      /\ Buffered.inner_keccak256_flip (Some buffered_midblock)
         = (ERR_STATE, Some buffered_midblock)).
Proof.
  destruct (failed_calls_are_no_ops EXAMPLE_CAPACITY)
    as [(P1 & P2 & P3 & _) (B1 & _ & B3 & _)].
  split; [split; [| split] | split].
  - apply P1. reflexivity.
  - apply (P2 (Plain.mk_ctx (memset x00 EXAMPLE_CAPACITY) 0
                 (memset x00 KECCAK256_OUTPUT) 0 false)). reflexivity.
  - apply P3. reflexivity.
  - apply B1. reflexivity.
  - apply B3. reflexivity.
Defined.



(** C8 (amended).  [flip] on a finalized context returns the invalid-state
    code and changes nothing, in all three renditions.  On a context that
    is not finalized: in [c/keccak_prng.c] and in the rendition with the
    output cache [flip] always returns 0, sets [state] to the digest of
    exactly the absorbed bytes [buffer[0 : buffer_len]], sets [finalized]
    and (with the cache) resets the cache cursor and length to 0, so there
    it fails if and only if the context is finalized.  In the rendition on
    [sha3_256], [flip] returns the overflow code and changes nothing when
    the buffer has no room for the suffix byte ([buffer_len + 1 >
    MAX_BUFFER_SIZE]); otherwise it appends [0x1F] to the absorbed bytes,
    stores in [state] what [sha3_256] computes from them, returns the code
    of [sha3_256] and sets [finalized] exactly when that code is 0. *)
Theorem flip_contract {K : Keccak256} {H : Sha3_256} (MAX_BUFFER_SIZE : nat)
    (p : Plain.inner_keccak256_prng_ctx)
    (b : Buffered.inner_keccak256_prng_ctx)
    (s : Shake.inner_keccak256_prng_ctx) :
  ((fst (Plain.inner_keccak256_flip (Some p)) <> PRNG_OK
    <-> Plain.finalized p = true)
   /\ (Plain.finalized p = true ->
       Plain.inner_keccak256_flip (Some p) = (ERR_STATE, Some p))
   /\ (Plain.finalized p = false ->
       Plain.inner_keccak256_flip (Some p)
       = (PRNG_OK,
          Some (Plain.mk_ctx (Plain.buffer p) (Plain.buffer_len p)
                  (keccak256 (plain_absorbed p)) (Plain.counter p) true))))
  /\ ((fst (Buffered.inner_keccak256_flip (Some b)) <> PRNG_OK
       <-> Buffered.finalized b = true)
      /\ (Buffered.finalized b = true ->
          Buffered.inner_keccak256_flip (Some b) = (ERR_STATE, Some b))
      /\ (Buffered.finalized b = false ->
          Buffered.inner_keccak256_flip (Some b)
          = (PRNG_OK,
             Some (Buffered.mk_ctx (Buffered.buffer b) (Buffered.buffer_len b)
                     (keccak256 (buffered_absorbed b)) (Buffered.counter b)
                     true (Buffered.out_buffer b) 0 0))))
  /\ ((Plain.finalized s = true ->
       Shake.inner_keccak256_flip MAX_BUFFER_SIZE (Some s)
       = (ERR_STATE, Some s))
      /\ (Plain.finalized s = false ->
          (MAX_BUFFER_SIZE < Plain.buffer_len s + 1)%nat ->
          Shake.inner_keccak256_flip MAX_BUFFER_SIZE (Some s)
          = (ERR_OVERFLOW, Some s))
      /\ (Plain.finalized s = false ->
          (Plain.buffer_len s + 1 <= MAX_BUFFER_SIZE)%nat ->
          (Plain.buffer_len s <= length (Plain.buffer s))%nat ->
          exists s',
            Shake.inner_keccak256_flip MAX_BUFFER_SIZE (Some s)
            = (fst (sha3_256 (Plain.state s)
                      (plain_absorbed s ++ [Shake.SHAKE_SUFFIX])), Some s')
            /\ Plain.state s'
               = snd (sha3_256 (Plain.state s)
                        (plain_absorbed s ++ [Shake.SHAKE_SUFFIX]))
            /\ plain_absorbed s' = plain_absorbed s ++ [Shake.SHAKE_SUFFIX]
            /\ Plain.buffer_len s' = (Plain.buffer_len s + 1)%nat
            /\ Plain.finalized s'
               = (fst (sha3_256 (Plain.state s)
                         (plain_absorbed s ++ [Shake.SHAKE_SUFFIX])) =? 0)
            /\ Plain.counter s' = Plain.counter s)).
Proof.
  split; [|split].
  - unfold Plain.inner_keccak256_flip, plain_absorbed.
    destruct (Plain.finalized p); cbn [fst];
      (split; [split|split]); intros; try discriminate; try reflexivity;
      congruence.
  - unfold Buffered.inner_keccak256_flip, buffered_absorbed.
    destruct (Buffered.finalized b); cbn [fst];
      (split; [split|split]); intros; try discriminate; try reflexivity;
      congruence.
  - split; [|split].
    + intros Hfin. unfold Shake.inner_keccak256_flip. now rewrite Hfin.
    + intros Hfin Hfull. unfold Shake.inner_keccak256_flip. rewrite Hfin.
      destruct (Nat.ltb_spec MAX_BUFFER_SIZE (Plain.buffer_len s + 1));
        [reflexivity | lia].
    + apply shake_flip_appends.
Qed.

Lemma flip_contract_witness :
  Plain.inner_keccak256_flip (Some plain_nearly_full)
  = (PRNG_OK,
     Some (Plain.mk_ctx (Plain.buffer plain_nearly_full)
             (Plain.buffer_len plain_nearly_full)
             (keccak256 (plain_absorbed plain_nearly_full))
             (Plain.counter plain_nearly_full) true))
  /\ Buffered.inner_keccak256_flip (Some buffered_midblock)
     = (ERR_STATE, Some buffered_midblock)
  /\ Shake.inner_keccak256_flip EXAMPLE_CAPACITY (Some shake_full)
     = (ERR_OVERFLOW, Some shake_full)
  /\ exists s',
       Shake.inner_keccak256_flip EXAMPLE_CAPACITY (Some plain_nearly_full)
       = (fst (sha3_256 (Plain.state plain_nearly_full)
                 (plain_absorbed plain_nearly_full ++ [Shake.SHAKE_SUFFIX])),
          Some s')
       /\ Plain.state s'
          = snd (sha3_256 (Plain.state plain_nearly_full)
                   (plain_absorbed plain_nearly_full ++ [Shake.SHAKE_SUFFIX]))
       /\ plain_absorbed s'
          = plain_absorbed plain_nearly_full ++ [Shake.SHAKE_SUFFIX]
       /\ Plain.buffer_len s' = (Plain.buffer_len plain_nearly_full + 1)%nat
       /\ Plain.finalized s'
          = (fst (sha3_256 (Plain.state plain_nearly_full)
                    (plain_absorbed plain_nearly_full
                     ++ [Shake.SHAKE_SUFFIX])) =? 0)
       /\ Plain.counter s' = Plain.counter plain_nearly_full.
Proof.
  destruct (flip_contract EXAMPLE_CAPACITY plain_nearly_full
              buffered_midblock shake_full)
    as [(_ & _ & P) [(_ & B & _) (_ & S & _)]].
  destruct (flip_contract EXAMPLE_CAPACITY plain_nearly_full
              buffered_midblock plain_nearly_full)
    as [_ [_ (_ & _ & S')]].
  split; [apply P; reflexivity|].
  split; [apply B; reflexivity|].
  split; [apply S; [reflexivity | vm_compute; lia]|].
  apply S'; [reflexivity | vm_compute; lia | vm_compute; lia].
Defined.

(** C8 as stated fails in the rendition on [sha3_256]: the context that
    [init] and one [inject] of [EXAMPLE_CAPACITY] bytes leave is not
    finalized and its fill level is within the capacity, yet [flip]
    returns the overflow code and does not finalize. *)
Lemma flip_full_buffer_counterexample :
  Shake.inner_keccak256_inject EXAMPLE_CAPACITY
    (snd (Shake.inner_keccak256_init EXAMPLE_CAPACITY (Some plain_garbage)))
    (Some (repeat x41 EXAMPLE_CAPACITY)) (Z.of_nat EXAMPLE_CAPACITY)
  = (PRNG_OK, Some shake_full)
  /\ Plain.finalized shake_full = false
  /\ (Plain.buffer_len shake_full <= EXAMPLE_CAPACITY)%nat
  /\ Shake.inner_keccak256_flip EXAMPLE_CAPACITY (Some shake_full)
     = (ERR_OVERFLOW, Some shake_full).
Proof.
  split; [vm_compute; reflexivity|].
  split; [reflexivity|].
  split; [vm_compute; lia|].
  vm_compute. reflexivity.
Qed.

(** C9.  Every [extract] call, in [c/keccak_prng.c] and in the rendition
    with the output cache, returns with [state], the input buffer,
    [buffer_len] and [finalized] as they were before the call (whether it
    succeeds or not, on a finalized context in particular): only the
    counter and the cache fields can differ. *)
Theorem extract_frame {K : Keccak256}
    (p : Plain.inner_keccak256_prng_ctx)
    (b : Buffered.inner_keccak256_prng_ctx)
    (out : option (list byte)) (n : nat) :
  (exists r p' o',
      Plain.inner_keccak256_extract (Some p) out n = (r, Some p', o')
      /\ Plain.state p' = Plain.state p
      /\ Plain.buffer p' = Plain.buffer p
      /\ Plain.buffer_len p' = Plain.buffer_len p
      /\ Plain.finalized p' = Plain.finalized p)
  /\ (exists r b' o',
         Buffered.inner_keccak256_extract (Some b) out n = (r, Some b', o')
         /\ Buffered.state b' = Buffered.state b
         /\ Buffered.buffer b' = Buffered.buffer b
         /\ Buffered.buffer_len b' = Buffered.buffer_len b
         /\ Buffered.finalized b' = Buffered.finalized b).
Proof.
  split.
  - destruct (plain_extract_frame p out n) as (r & p' & o' & E & F).
    exists r, p', o'. split; [exact E|].
    rewrite <- F. now destruct p'.
  - destruct (buffered_extract_frame b out n) as (r & b' & o' & E & F).
    exists r, b', o'. split; [exact E|].
    unfold without_cache, Plain.set_counter in F.
    cbn [Plain.buffer Plain.buffer_len Plain.state Plain.finalized] in F.
    injection F as F1 F2 F3 F4. auto.
Qed.

(** C10.  [init] on a context in any state, finalized and used or not,
    returns 0 and leaves the input buffer and [state] zeroed, [buffer_len]
    and [counter] 0 and [finalized] false, in all three renditions; with
    the output cache, the cache cursor and length are 0 as well (the bytes
    of the cache array stay, out of reach).  No guard stands in the way: a
    session run on a used context goes as on any other memory. *)
Theorem init_resets {K : Keccak256} (MAX_BUFFER_SIZE : nat)
    (p : Plain.inner_keccak256_prng_ctx)
    (b : Buffered.inner_keccak256_prng_ctx) :
  Plain.inner_keccak256_init MAX_BUFFER_SIZE (Some p)
  = (PRNG_OK,
     Some (Plain.mk_ctx (repeat x00 MAX_BUFFER_SIZE) 0
             (repeat x00 KECCAK256_OUTPUT) 0 false))
  /\ Shake.inner_keccak256_init MAX_BUFFER_SIZE (Some p)
     = (PRNG_OK,
        Some (Plain.mk_ctx (repeat x00 MAX_BUFFER_SIZE) 0
                (repeat x00 KECCAK256_OUTPUT) 0 false))
  /\ Buffered.inner_keccak256_init MAX_BUFFER_SIZE (Some b)
     = (PRNG_OK,
        Some (Buffered.mk_ctx (repeat x00 MAX_BUFFER_SIZE) 0
                (repeat x00 KECCAK256_OUTPUT) 0 false
                (Buffered.out_buffer b) 0 0))
  /\ (forall p' chunks calls,
         PlainSession.session MAX_BUFFER_SIZE p chunks calls
         = PlainSession.session MAX_BUFFER_SIZE p' chunks calls)
  /\ (forall b' chunks calls,
         calls_fit calls ->
         fst (BufferedSession.session MAX_BUFFER_SIZE b chunks calls)
         = fst (BufferedSession.session MAX_BUFFER_SIZE b' chunks calls)).
Proof.
  split; [reflexivity|]. split; [reflexivity|]. split; [reflexivity|].
  split.
  - intros. apply plain_session_reuse.
  - intros b' chunks calls Hfit. now apply buffered_session_outputs.
Qed.

(* ================================================================= *)
(** * Further properties of the code *)

(** ** The counter bytes *)

(** X1.  The eight bytes that the loop of [extract] appends to the state
    are the big-endian digits of the counter: read back as a number they
    give the counter modulo [2^64].  Hence two counter values give the
    same eight bytes exactly when they agree modulo [2^64], and the block
    inputs [state || counter] of one engine do not repeat before the
    counter has wrapped. *)
Theorem counter_bytes_big_endian (c c' : Z) :
  length (counter_bytes c) = 8%nat
  /\ be64_decode (counter_bytes c) = c mod UINT64_MOD
  /\ (counter_bytes c = counter_bytes c'
      <-> c mod UINT64_MOD = c' mod UINT64_MOD).
Proof.
  split; [reflexivity|]. split; [apply counter_bytes_decode|].
  split.
  - intros E. rewrite <- !counter_bytes_decode. now rewrite E.
  - intros E. rewrite <- (counter_bytes_mod c), E. apply counter_bytes_mod.
Qed.

(** ** [c/keccak_prng.c]: requests from any counter value *)

Section PlainMore.
Context {K : Keccak256}.

(** X2.  [extract] of [c/keccak_prng.c] on a finalized context, whatever
    its counter (claim C3 has the counter at 0): the call returns 0, the
    first [n] bytes of the destination are the first [n] bytes of the
    blocks [keccak256 (state || big_endian_64 ((counter + i) mod 2^64))],
    [i = 0 .. ceil (n / 32) - 1], the destination keeps its length and
    its bytes from [n] on, and the counter ends at
    [(counter + ceil (n / 32)) mod 2^64]: the block index wraps around
    with the counter.  [big_endian_64] is the encoding of the
    specification, eight base-256 digits with the most significant
    first, not the shifts and masks of the code. *)
Theorem plain_extract_from_any_counter
    (c : Plain.inner_keccak256_prng_ctx) (out : list byte) (n : nat) :
  Plain.finalized c = true ->
  0 <= Plain.counter c < UINT64_MOD ->
  (n <= length out)%nat ->
  exists o',
    Plain.inner_keccak256_extract (Some c) (Some out) n
    = (PRNG_OK,
       Some (Plain.set_counter
               ((Plain.counter c + Z.of_nat (blocks_needed n)) mod UINT64_MOD)
               c),
       Some o')
    /\ length o' = length out
    /\ skipn n o' = skipn n out
    /\ firstn n o'
       = firstn n
           (concat
              (map (fun i => keccak256
                               (Plain.state c
                                ++ big_endian_64
                                     ((Plain.counter c + Z.of_nat i)
                                      mod UINT64_MOD)))
                   (seq 0 (blocks_needed n))))
    /\ forall v, length (big_endian_64 v) = 8%nat
                 /\ be64_decode (big_endian_64 v) = v mod UINT64_MOD.
Proof.
  intros Hf Hc Hn.
  exists (expansion_stream (Plain.state c) (Plain.counter c) n ++ skipn n out).
  rewrite plain_extract_spec by assumption.
  assert (Hl : length (expansion_stream (Plain.state c) (Plain.counter c) n)
               = n)
    by apply expansion_stream_length.
  split; [|split; [|split; [|split]]].
  - unfold plain_advance. do 3 f_equal.
    destruct (blocks_needed n) as [|k] eqn:E.
    + cbn [Nat.iter Z.of_nat]. rewrite Z.add_0_r, Z.mod_small by lia.
      reflexivity.
    + rewrite iter_uint64_incr by lia. reflexivity.
  - rewrite length_app, length_skipn, Hl. lia.
  - rewrite skipn_app, Hl, Nat.sub_diag, skipn_all2 by lia. reflexivity.
  - rewrite firstn_app, Hl, Nat.sub_diag, firstn_O, app_nil_r.
    rewrite firstn_all2 by lia.
    unfold expansion_stream. now rewrite expansion_blocks_concat.
  - intros v. split; [apply big_endian_64_length|apply big_endian_64_decode].
Qed.

(** X3.  A series of [extract] calls on a finalized context of
    [c/keccak_prng.c]: every call starts at a fresh block.  The call
    number [i] returns 0 and the first [n_i] bytes of the stream that
    starts at block [counter + sum of ceil (n_j / 32) over j < i]; what
    was left of the last block of an earlier call is never handed out.
    The series ends with the counter advanced by the sum of all
    [ceil (n_j / 32)]. *)
Theorem plain_requests_start_fresh_blocks (calls : list extract_call) :
  forall (p : Plain.inner_keccak256_prng_ctx),
  Plain.finalized p = true -> calls_fit calls ->
  snd (PlainSession.extract_all (Some p) calls)
  = Some (Plain.set_counter
            (Nat.iter (list_sum (map blocks_needed (map snd calls)))
                      uint64_incr (Plain.counter p)) p)
  /\ forall i o n,
       nth_error calls i = Some (o, n) ->
       nth_error (fst (PlainSession.extract_all (Some p) calls)) i
       = Some (PRNG_OK,
               expansion_stream (Plain.state p)
                 (Plain.counter p
                  + Z.of_nat (list_sum (map blocks_needed
                                          (map snd (firstn i calls)))))
                 n).
Proof.
  induction calls as [|[o1 n1] rest IH]; intros p Hf Hfit.
  - split.
    + cbn. now rewrite plain_set_counter_same.
    + intros [|i] o n E; discriminate E.
  - inversion Hfit as [|? ? H1 Hrest]; subst. cbn [fst snd] in H1.
    cbn [PlainSession.extract_all].
    rewrite plain_extract_spec by assumption.
    destruct (PlainSession.extract_all (Some (plain_advance p n1)) rest)
      as [rs sc2] eqn:E.
    destruct (IH (plain_advance p n1) Hf Hrest) as [IHc IHo].
    rewrite E in IHc, IHo. cbn [fst snd] in IHc, IHo |- *.
    split.
    + rewrite IHc. cbn [map snd].
      change (list_sum (blocks_needed n1
                        :: map blocks_needed (map snd rest)))
        with (blocks_needed n1
              + list_sum (map blocks_needed (map snd rest)))%nat.
      rewrite Nat.add_comm, Nat.iter_add. reflexivity.
    + intros [|i] o n Hi.
      * cbn in Hi. inversion Hi; subst. cbn [nth_error firstn map list_sum].
        rewrite Z.add_0_r. unfold observed. do 2 f_equal.
        apply firstn_app_exact, expansion_stream_length.
      * cbn [nth_error] in Hi |- *. rewrite (IHo i o n Hi).
        do 2 f_equal. cbn [firstn map snd].
        change (list_sum (blocks_needed n1
                          :: map blocks_needed (map snd (firstn i rest))))
          with (blocks_needed n1
                + list_sum (map blocks_needed (map snd (firstn i rest))))%nat.
        apply expansion_stream_congr.
        unfold plain_advance. cbn [Plain.counter Plain.set_counter].
        rewrite Z.add_mod, iter_uint64_incr_mod, <- Z.add_mod
          by (unfold UINT64_MOD; lia).
        f_equal. lia.
Qed.
End PlainMore.

Lemma plain_extract_from_any_counter_witness :
  exists o',
    Plain.inner_keccak256_extract (Some plain_wrapping) (Some (dest 48)) 40
    = (PRNG_OK,
       Some (Plain.set_counter
               ((Plain.counter plain_wrapping + Z.of_nat (blocks_needed 40))
                mod UINT64_MOD)
               plain_wrapping),
       Some o')
    /\ length o' = length (dest 48)
    /\ skipn 40 o' = skipn 40 (dest 48)
    /\ firstn 40 o'
       = firstn 40
           (concat
              (map (fun i => keccak256
                               (Plain.state plain_wrapping
                                ++ big_endian_64
                                     ((Plain.counter plain_wrapping
                                       + Z.of_nat i)
                                      mod UINT64_MOD)))
                   (seq 0 (blocks_needed 40))))
    /\ forall v, length (big_endian_64 v) = 8%nat
                 /\ be64_decode (big_endian_64 v) = v mod UINT64_MOD.
Proof.
  apply (plain_extract_from_any_counter plain_wrapping (dest 48) 40).
  - reflexivity.
  - unfold plain_wrapping, UINT64_MOD. cbn. lia.
  - cbn. lia.
Defined.

Lemma plain_requests_start_fresh_blocks_witness :
  snd (PlainSession.extract_all (Some plain_flipped)
         [(dest 16, 16%nat); (dest 40, 40%nat); (dest 5, 5%nat)])
  = Some (Plain.set_counter
            (Nat.iter
               (list_sum
                  (map blocks_needed
                     (map snd [(dest 16, 16%nat); (dest 40, 40%nat);
                               (dest 5, 5%nat)])))
               uint64_incr (Plain.counter plain_flipped)) plain_flipped)
  /\ forall i o n,
       nth_error [(dest 16, 16%nat); (dest 40, 40%nat); (dest 5, 5%nat)] i
       = Some (o, n) ->
       nth_error
         (fst (PlainSession.extract_all (Some plain_flipped)
                 [(dest 16, 16%nat); (dest 40, 40%nat); (dest 5, 5%nat)])) i
       = Some (PRNG_OK,
               expansion_stream (Plain.state plain_flipped)
                 (Plain.counter plain_flipped
                  + Z.of_nat
                      (list_sum
                         (map blocks_needed
                            (map snd
                               (firstn i
                                  [(dest 16, 16%nat); (dest 40, 40%nat);
                                   (dest 5, 5%nat)])))))
                 n).
Proof.
  apply (plain_requests_start_fresh_blocks
           [(dest 16, 16%nat); (dest 40, 40%nat); (dest 5, 5%nat)]
           plain_flipped).
  - reflexivity.
  - unfold calls_fit. repeat constructor; cbn; lia.
Defined.

(** ** The caching rendition: requests against the cache *)

Section BufferedMore.
Context {K : Keccak256}.

(** X4.  [extract] of the caching rendition on a finalized context whose
    cached block lies within [out_buffer]: the call returns 0; the first
    [min n available] bytes come from the cache at the cursor, the
    following [n - available] bytes are the stream from the current
    counter, and the destination keeps its length and its bytes from [n]
    on.  A request that the cache can serve moves the cursor and nothing
    else (no block is computed, the counter stays); a longer one leaves
    the last block computed in the cache, with the cursor behind the
    bytes taken from it. *)
Theorem buffered_extract_serves_cache_first
    (c : Buffered.inner_keccak256_prng_ctx) (out : list byte) (n : nat) :
  Buffered.finalized c = true -> cache_wf c -> (n <= length out)%nat ->
  exists c' o',
    Buffered.inner_keccak256_extract (Some c) (Some out) n
    = (PRNG_OK, Some c', Some o')
    /\ length o' = length out
    /\ skipn n o' = skipn n out
    /\ firstn (Nat.min n (available c)) o'
       = firstn (Nat.min n (available c))
           (skipn (Buffered.out_buffer_pos c) (Buffered.out_buffer c))
    /\ firstn (n - available c) (skipn (available c) o')
       = expansion_stream (Buffered.state c) (Buffered.counter c)
           (n - available c)
    /\ ((n <= available c)%nat ->
        c' = Buffered.set_out_buffer_pos (Buffered.out_buffer_pos c + n) c)
    /\ ((available c < n)%nat ->
        Buffered.counter c'
        = Nat.iter (blocks_needed (n - available c)) uint64_incr
            (Buffered.counter c)
        /\ Buffered.out_buffer c'
           = keccak256
               (Buffered.state c
                ++ counter_bytes
                     (Buffered.counter c
                      + Z.of_nat (blocks_needed (n - available c)) - 1))
        /\ Buffered.out_buffer_len c' = KECCAK256_OUTPUT
        /\ Buffered.out_buffer_pos c'
           = (n - available c
              - KECCAK256_OUTPUT * (blocks_needed (n - available c) - 1))%nat).
Proof.
  intros Hf Hwf Hn.
  exists (advance c n), (served c n ++ skipn n out).
  rewrite buffered_extract_spec by assumption.
  pose proof (served_length c n Hwf) as Hl.
  assert (Ha : length (firstn (Nat.min n (available c))
                         (skipn (Buffered.out_buffer_pos c)
                            (Buffered.out_buffer c)))
               = Nat.min n (available c)).
  { rewrite length_firstn, length_skipn.
    unfold cache_wf in Hwf. unfold available. lia. }
  split; [reflexivity|]. split; [|split; [|split; [|split; [|split]]]].
  - rewrite length_app, length_skipn, Hl. lia.
  - rewrite skipn_app, Hl, Nat.sub_diag, skipn_all2 by lia. reflexivity.
  - unfold served. rewrite <- !app_assoc.
    now rewrite firstn_app_exact by exact Ha.
  - unfold served. rewrite <- !app_assoc.
    destruct (Nat.le_gt_cases n (available c)) as [Hle|Hgt].
    + replace (n - available c)%nat with 0%nat by lia. reflexivity.
    + replace (Nat.min n (available c)) with (available c) in * by lia.
      rewrite skipn_app, Ha, Nat.sub_diag, skipn_all2 by lia.
      cbn [app skipn].
      apply firstn_app_exact, expansion_stream_length.
  - intros Hle. unfold advance.
    replace (Nat.min n (available c)) with n by lia.
    rewrite Nat.sub_diag. apply refill_0.
  - intros Hgt. unfold advance.
    replace (Nat.min n (available c)) with (available c) by lia.
    unfold refill.
    destruct (Nat.ltb_spec 0 (n - available c)) as [_|Hz]; [|lia].
    cbn [Buffered.counter Buffered.out_buffer Buffered.out_buffer_len
         Buffered.out_buffer_pos Buffered.set_out_buffer_pos Buffered.state].
    repeat split. apply expansion_block_code.
Qed.

Lemma buffered_extract_all_end calls : forall b,
  Buffered.finalized b = true -> cache_wf b -> calls_fit calls ->
  BufferedSession.extract_all (Some b) calls
  = (buffered_outputs b (map snd calls),
     Some (advance b (list_sum (map snd calls)))).
Proof.
  induction calls as [|[o1 n1] rest IH]; intros b Hf Hwf Hfit.
  - cbn [BufferedSession.extract_all map buffered_outputs].
    change (list_sum []) with 0%nat. unfold advance.
    rewrite Nat.min_0_l, Nat.add_0_r. cbn [Nat.sub].
    now rewrite refill_0, buffered_set_pos_same.
  - inversion Hfit as [|? ? H1 Hrest]; subst. cbn [fst snd] in H1.
    cbn [BufferedSession.extract_all map snd buffered_outputs].
    rewrite buffered_extract_spec by assumption.
    rewrite IH; [|now rewrite advance_finalized
                 |now apply advance_cache_wf|assumption].
    rewrite advance_advance. unfold observed.
    rewrite firstn_app_exact by now apply served_length.
    reflexivity.
Qed.

Lemma buffered_outputs_concat lens : forall b,
  map fst (buffered_outputs b lens) = map (fun _ => PRNG_OK) lens
  /\ concat (map snd (buffered_outputs b lens)) = served b (list_sum lens).
Proof.
  induction lens as [|n rest IH]; intros b.
  - split; [reflexivity|]. change (list_sum []) with 0%nat.
    unfold served. rewrite Nat.min_0_l. reflexivity.
  - destruct (IH (advance b n)) as [IH1 IH2].
    cbn [buffered_outputs map fst snd concat]. split.
    + now rewrite IH1.
    + rewrite IH2.
      change (list_sum (n :: rest)) with (n + list_sum rest)%nat.
      now rewrite served_split.
Qed.

(** X5.  A series of [extract] calls on a finalized context of the
    caching rendition with nothing cached (as [flip] leaves it): all
    calls return 0, the bytes of the calls, put end to end, are the first
    [n_1 + ... + n_k] bytes of the stream from the current counter,
    however the total is cut into calls, and the counter ends advanced by
    [ceil ((n_1 + ... + n_k) / 32)]: no block is computed twice and none
    is skipped. *)
Theorem buffered_requests_continue_stream
    (b : Buffered.inner_keccak256_prng_ctx) (calls : list extract_call) :
  Buffered.finalized b = true -> cache_wf b -> available b = 0%nat ->
  calls_fit calls ->
  map fst (fst (BufferedSession.extract_all (Some b) calls))
  = map (fun _ => PRNG_OK) calls
  /\ concat (map snd (fst (BufferedSession.extract_all (Some b) calls)))
     = expansion_stream (Buffered.state b) (Buffered.counter b)
         (list_sum (map snd calls))
  /\ exists b',
       snd (BufferedSession.extract_all (Some b) calls) = Some b'
       /\ Buffered.counter b'
          = Nat.iter (blocks_needed (list_sum (map snd calls))) uint64_incr
              (Buffered.counter b).
Proof.
  intros Hf Hwf Ha Hfit.
  rewrite buffered_extract_all_end by assumption. cbn [fst snd].
  destruct (buffered_outputs_concat (map snd calls) b) as [H1 H2].
  split; [|split].
  - rewrite H1. now rewrite map_map.
  - rewrite H2. now apply served_empty_cache.
  - eexists. split; [reflexivity|].
    pose proof (advance_empty_cache b (list_sum (map snd calls)) Ha) as E.
    apply (f_equal Plain.counter) in E. exact E.
Qed.
End BufferedMore.

Lemma buffered_extract_serves_cache_first_witness :
  exists c' o',
    Buffered.inner_keccak256_extract (Some buffered_midblock)
      (Some (dest 48)) 40
    = (PRNG_OK, Some c', Some o')
    /\ length o' = length (dest 48)
    /\ skipn 40 o' = skipn 40 (dest 48)
    /\ firstn (Nat.min 40 (available buffered_midblock)) o'
       = firstn (Nat.min 40 (available buffered_midblock))
           (skipn (Buffered.out_buffer_pos buffered_midblock)
              (Buffered.out_buffer buffered_midblock))
    /\ firstn (40 - available buffered_midblock)
         (skipn (available buffered_midblock) o')
       = expansion_stream (Buffered.state buffered_midblock)
           (Buffered.counter buffered_midblock)
           (40 - available buffered_midblock)
    /\ ((40 <= available buffered_midblock)%nat ->
        c' = Buffered.set_out_buffer_pos
               (Buffered.out_buffer_pos buffered_midblock + 40)
               buffered_midblock)
    /\ ((available buffered_midblock < 40)%nat ->
        Buffered.counter c'
        = Nat.iter (blocks_needed (40 - available buffered_midblock))
            uint64_incr (Buffered.counter buffered_midblock)
        /\ Buffered.out_buffer c'
           = keccak256
               (Buffered.state buffered_midblock
                ++ counter_bytes
                     (Buffered.counter buffered_midblock
                      + Z.of_nat
                          (blocks_needed (40 - available buffered_midblock))
                      - 1))
        /\ Buffered.out_buffer_len c' = KECCAK256_OUTPUT
        /\ Buffered.out_buffer_pos c'
           = (40 - available buffered_midblock
              - KECCAK256_OUTPUT
                * (blocks_needed (40 - available buffered_midblock) - 1))%nat).
Proof.
  apply (buffered_extract_serves_cache_first buffered_midblock (dest 48) 40).
  - reflexivity.
  - unfold cache_wf. cbn. lia.
  - cbn. lia.
Defined.

Lemma buffered_requests_continue_stream_witness :
  map fst (fst (BufferedSession.extract_all (Some buffered_flipped)
                  [(dest 16, 16%nat); (dest 16, 16%nat); (dest 40, 40%nat)]))
  = map (fun _ => PRNG_OK)
      [(dest 16, 16%nat); (dest 16, 16%nat); (dest 40, 40%nat)]
  /\ concat (map snd
               (fst (BufferedSession.extract_all (Some buffered_flipped)
                       [(dest 16, 16%nat); (dest 16, 16%nat);
                        (dest 40, 40%nat)])))
     = expansion_stream (Buffered.state buffered_flipped)
         (Buffered.counter buffered_flipped)
         (list_sum (map snd [(dest 16, 16%nat); (dest 16, 16%nat);
                             (dest 40, 40%nat)]))
  /\ exists b',
       snd (BufferedSession.extract_all (Some buffered_flipped)
              [(dest 16, 16%nat); (dest 16, 16%nat); (dest 40, 40%nat)])
       = Some b'
       /\ Buffered.counter b'
          = Nat.iter
              (blocks_needed
                 (list_sum (map snd [(dest 16, 16%nat); (dest 16, 16%nat);
                                     (dest 40, 40%nat)])))
              uint64_incr (Buffered.counter buffered_flipped).
Proof.
  apply (buffered_requests_continue_stream buffered_flipped
           [(dest 16, 16%nat); (dest 16, 16%nat); (dest 40, 40%nat)]).
  - reflexivity.
  - unfold cache_wf. cbn. lia.
  - reflexivity.
  - unfold calls_fit. repeat constructor; cbn; lia.
Defined.

(** ** Series of [inject] calls *)

Section InjectSeries.
Context {K : Keccak256}.
Variable MAX_BUFFER_SIZE : nat.

Lemma plain_inject_all_spec chunks : forall c,
  Plain.finalized c = false -> plain_ctx_wf MAX_BUFFER_SIZE c ->
  Forall (chunk_in_range MAX_BUFFER_SIZE) chunks ->
  exists c',
    PlainSession.inject_all MAX_BUFFER_SIZE (Some c) chunks
    = (inject_codes MAX_BUFFER_SIZE (Plain.buffer_len c) chunks, Some c')
    /\ plain_absorbed c'
       = plain_absorbed c
         ++ concat (accepted_chunks
                      (inject_codes MAX_BUFFER_SIZE (Plain.buffer_len c) chunks)
                      chunks)
    /\ Plain.buffer_len c' = length (plain_absorbed c')
    /\ Plain.finalized c' = false
    /\ plain_ctx_wf MAX_BUFFER_SIZE c'
    /\ Plain.state c' = Plain.state c
    /\ Plain.counter c' = Plain.counter c.
Proof.
  induction chunks as [|d rest IH]; intros c Hf Hwf Hshort.
  - exists c. cbn. rewrite app_nil_r. repeat split; try tauto; try apply Hwf.
    unfold plain_absorbed. rewrite length_firstn.
    destruct Hwf as (Hb & _ & Hl). lia.
  - cbn [PlainSession.inject_all inject_codes].
    inversion Hshort as [|d0 rest0 Hd Hrest0]; subst d0 rest0.
    unfold chunk_in_range in Hd.
    destruct (Nat.ltb_spec MAX_BUFFER_SIZE (Plain.buffer_len c + length d))
      as [Hov|Hok].
    + rewrite plain_inject_rejects.
      2: assumption.
      2: { pose proof (SIZE_MOD_bounds MAX_BUFFER_SIZE) as [Hm _].
           destruct Hwf as (_ & _ & Hl). lia. }
      destruct (IH c Hf Hwf Hrest0) as (c' & E & Ha & Hrest).
      exists c'. rewrite E. split; [reflexivity|]. split; [|exact Hrest].
      rewrite Ha. reflexivity.
    + rewrite plain_inject_accepts by assumption.
      destruct Hwf as (Hb & Hs & Hl).
      set (c1 := Plain.mk_ctx _ _ _ _ _).
      assert (Hwf1 : plain_ctx_wf MAX_BUFFER_SIZE c1).
      { unfold plain_ctx_wf, c1.
        cbn [Plain.buffer Plain.state Plain.buffer_len].
        rewrite memcpy_length by lia. auto. }
      destruct (IH c1 eq_refl Hwf1 Hrest0)
        as (c' & E & Ha & Hlen & Hf' & Hwf' & Hs' & Hc').
      exists c'. rewrite E. split; [reflexivity|].
      split; [|repeat split; try assumption; apply Hwf'].
      rewrite Ha. unfold accepted_chunks at 2.
      cbn [combine filter fst snd map concat]. cbn [PRNG_OK Z.eqb].
      change (PRNG_OK =? PRNG_OK) with true. cbn iota.
      cbn [map snd concat]. rewrite app_assoc. f_equal.
      unfold plain_absorbed, c1. cbn [Plain.buffer Plain.buffer_len].
      apply memcpy_absorbed. lia.
Qed.

(** Chunks that fit together are all accepted, whatever their sizes. *)
Lemma plain_inject_all_fits chunks : forall c,
  Plain.finalized c = false -> plain_ctx_wf MAX_BUFFER_SIZE c ->
  (Plain.buffer_len c + length (concat chunks) <= MAX_BUFFER_SIZE)%nat ->
  exists c',
    PlainSession.inject_all MAX_BUFFER_SIZE (Some c) chunks
    = (map (fun _ => PRNG_OK) chunks, Some c')
    /\ plain_absorbed c' = plain_absorbed c ++ concat chunks
    /\ Plain.buffer_len c' = length (plain_absorbed c')
    /\ Plain.finalized c' = false
    /\ plain_ctx_wf MAX_BUFFER_SIZE c'
    /\ Plain.state c' = Plain.state c
    /\ Plain.counter c' = Plain.counter c.
Proof.
  induction chunks as [|d rest IH]; intros c Hf Hwf Hfit.
  - exists c. cbn. rewrite app_nil_r. repeat split; try tauto; try apply Hwf.
    unfold plain_absorbed. rewrite length_firstn.
    destruct Hwf as (Hb & _ & Hl). lia.
  - cbn [concat] in Hfit. rewrite length_app in Hfit.
    cbn [PlainSession.inject_all map].
    rewrite plain_inject_accepts by (trivial; lia).
    destruct Hwf as (Hb & Hs & Hl).
    set (c1 := Plain.mk_ctx _ _ _ _ _).
    assert (Hwf1 : plain_ctx_wf MAX_BUFFER_SIZE c1).
    { unfold plain_ctx_wf, c1.
      cbn [Plain.buffer Plain.state Plain.buffer_len].
      rewrite memcpy_length by lia. repeat split; trivial; lia. }
    destruct (IH c1 eq_refl Hwf1)
      as (c' & E & Ha & Hlen & Hf' & Hwf' & Hs' & Hc').
    { unfold c1. cbn [Plain.buffer_len]. lia. }
    exists c'. rewrite E. split; [reflexivity|].
    split; [|repeat split; try assumption; apply Hwf'].
    rewrite Ha. cbn [concat]. rewrite app_assoc. f_equal.
    unfold plain_absorbed, c1. cbn [Plain.buffer Plain.buffer_len].
    apply memcpy_absorbed. lia.
Qed.

Lemma inject_codes_fit chunks : forall fill,
  (fill + length (concat chunks) <= MAX_BUFFER_SIZE)%nat ->
  inject_codes MAX_BUFFER_SIZE fill chunks = map (fun _ => PRNG_OK) chunks
  /\ accepted_chunks (map (fun _ => PRNG_OK) chunks) chunks = chunks.
Proof.
  induction chunks as [|d rest IH]; intros fill Hfit; [now split|].
  cbn [concat] in Hfit. rewrite length_app in Hfit.
  cbn [inject_codes map].
  destruct (Nat.ltb_spec MAX_BUFFER_SIZE (fill + length d)); [lia|].
  destruct (IH (fill + length d)%nat ltac:(lia)) as [E1 E2].
  split; [now rewrite E1|].
  unfold accepted_chunks in *. cbn [combine filter fst].
  change (PRNG_OK =? PRNG_OK) with true. cbn iota. cbn [map snd].
  now rewrite E2.
Qed.
End InjectSeries.

(** X6.  A series of [inject] calls after [init], each passing a whole
    chunk whose length stays below [2^64 - MAX_BUFFER_SIZE], so that the
    sum in the capacity check does not wrap: a chunk that would exceed
    the capacity is refused with [ERR_OVERFLOW] and the next one is tried
    against the same fill level ([inject_codes]); the absorbed bytes are
    exactly the chunks whose call returned 0, in order, and [buffer_len]
    is their total length, never beyond the capacity. *)
Theorem refused_chunks_leave_no_trace (MAX_BUFFER_SIZE : nat)
    (mem : Plain.inner_keccak256_prng_ctx) (chunks : list (list byte)) :
  Forall (chunk_in_range MAX_BUFFER_SIZE) chunks ->
  exists c,
    PlainSession.inject_all MAX_BUFFER_SIZE
      (snd (Plain.inner_keccak256_init MAX_BUFFER_SIZE (Some mem))) chunks
    = (inject_codes MAX_BUFFER_SIZE 0 chunks, Some c)
    /\ plain_absorbed c
       = concat (accepted_chunks (inject_codes MAX_BUFFER_SIZE 0 chunks) chunks)
    /\ Plain.buffer_len c = length (plain_absorbed c)
    /\ (Plain.buffer_len c <= MAX_BUFFER_SIZE)%nat
    /\ Plain.finalized c = false.
Proof.
  intros Hshort.
  cbn [Plain.inner_keccak256_init snd].
  set (c0 := Plain.mk_ctx _ _ _ _ _).
  assert (Hwf : plain_ctx_wf MAX_BUFFER_SIZE c0).
  { unfold plain_ctx_wf, c0, memset.
    cbn [Plain.buffer Plain.state Plain.buffer_len].
    rewrite !repeat_length. auto with arith. }
  destruct (plain_inject_all_spec MAX_BUFFER_SIZE chunks c0 eq_refl Hwf Hshort)
    as (c & E & Ha & Hl & Hf & Hwf' & _).
  exists c. repeat split; try assumption. apply Hwf'.
Qed.

Lemma refused_chunks_leave_no_trace_witness :
  exists c,
    PlainSession.inject_all EXAMPLE_CAPACITY
      (snd (Plain.inner_keccak256_init EXAMPLE_CAPACITY (Some plain_garbage)))
      [dest 40; dest 40; bytes_test]
    = (inject_codes EXAMPLE_CAPACITY 0 [dest 40; dest 40; bytes_test], Some c)
    /\ plain_absorbed c
       = concat (accepted_chunks
                   (inject_codes EXAMPLE_CAPACITY 0
                      [dest 40; dest 40; bytes_test])
                   [dest 40; dest 40; bytes_test])
    /\ Plain.buffer_len c = length (plain_absorbed c)
    /\ (Plain.buffer_len c <= EXAMPLE_CAPACITY)%nat
    /\ Plain.finalized c = false.
Proof.
  apply (refused_chunks_leave_no_trace EXAMPLE_CAPACITY plain_garbage
           [dest 40; dest 40; bytes_test]).
  unfold chunk_in_range. repeat constructor; vm_compute; reflexivity.
Defined.

(** ** Whole sessions *)

Section EndToEnd.
Context {K : Keccak256}.
Variable MAX_BUFFER_SIZE : nat.

Lemma plain_session_ready mem chunks :
  (length (concat chunks) <= MAX_BUFFER_SIZE)%nat ->
  exists p,
    Plain.finalized p = true /\ Plain.counter p = 0
    /\ Plain.state p = keccak256 (concat chunks)
    /\ forall calls,
         PlainSession.session MAX_BUFFER_SIZE mem chunks calls
         = (PRNG_OK, map (fun _ => PRNG_OK) chunks, PRNG_OK,
            fst (PlainSession.extract_all (Some p) calls),
            snd (PlainSession.extract_all (Some p) calls)).
Proof.
  intros Hfit. unfold PlainSession.session.
  cbn [Plain.inner_keccak256_init].
  set (c0 := Plain.mk_ctx _ _ _ _ _).
  assert (Hwf : plain_ctx_wf MAX_BUFFER_SIZE c0).
  { unfold plain_ctx_wf, c0, memset.
    cbn [Plain.buffer Plain.state Plain.buffer_len].
    rewrite !repeat_length. auto with arith. }
  destruct (plain_inject_all_fits MAX_BUFFER_SIZE chunks c0 eq_refl Hwf Hfit)
    as (c & E & Ha & Hl & Hf & Hwf' & Hs & Hc).
  change (plain_absorbed c0) with (@nil byte) in Ha. cbn [app] in Ha.
  exists (Plain.mk_ctx (Plain.buffer c) (Plain.buffer_len c)
            (keccak256 (concat chunks)) 0 true).
  split; [reflexivity|]. split; [reflexivity|]. split; [reflexivity|].
  intros calls. rewrite E. unfold Plain.inner_keccak256_flip. rewrite Hf.
  fold (plain_absorbed c). rewrite Ha, Hc. change (Plain.counter c0) with 0.
  now destruct (PlainSession.extract_all _ calls).
Qed.

Lemma buffered_session_ready mem chunks :
  (length (concat chunks) <= MAX_BUFFER_SIZE)%nat ->
  exists b,
    Buffered.finalized b = true /\ Buffered.counter b = 0
    /\ Buffered.state b = keccak256 (concat chunks)
    /\ cache_wf b /\ available b = 0%nat
    /\ forall calls,
         BufferedSession.session MAX_BUFFER_SIZE mem chunks calls
         = (PRNG_OK, map (fun _ => PRNG_OK) chunks, PRNG_OK,
            fst (BufferedSession.extract_all (Some b) calls),
            snd (BufferedSession.extract_all (Some b) calls)).
Proof.
  intros Hfit. unfold BufferedSession.session.
  cbn [Buffered.inner_keccak256_init].
  set (b0 := Buffered.mk_ctx _ _ _ _ _ _ _ _).
  destruct (buffered_inject_all_sim MAX_BUFFER_SIZE chunks b0)
    as (ri & b1 & Eb & Ep & Hf & Hpos & Hlen & Hcnt).
  assert (Hwf : plain_ctx_wf MAX_BUFFER_SIZE (without_cache b0)).
  { unfold plain_ctx_wf, without_cache, b0, memset.
    cbn [Plain.buffer Plain.state Plain.buffer_len Buffered.buffer
         Buffered.state Buffered.buffer_len].
    rewrite !repeat_length. auto with arith. }
  destruct (plain_inject_all_fits MAX_BUFFER_SIZE chunks (without_cache b0)
              eq_refl Hwf Hfit)
    as (c & E & Ha & Hl & Hfc & Hwf' & Hs & Hc).
  change (plain_absorbed (without_cache b0)) with (@nil byte) in Ha.
  cbn [app] in Ha.
  rewrite E in Ep. inversion Ep as [[Eri Ec]]. subst ri.
  exists (Buffered.mk_ctx (Buffered.buffer b1) (Buffered.buffer_len b1)
            (keccak256 (concat chunks)) 0 true (Buffered.out_buffer b1) 0 0).
  split; [reflexivity|]. split; [reflexivity|]. split; [reflexivity|].
  split; [unfold cache_wf; cbn; lia|]. split; [reflexivity|].
  intros calls. rewrite Eb. unfold Buffered.inner_keccak256_flip.
  rewrite Hf. change (Buffered.finalized b0) with false. cbn iota.
  rewrite Hcnt. change (Buffered.counter b0) with 0.
  assert (Hab : firstn (Buffered.buffer_len b1) (Buffered.buffer b1)
                = concat chunks).
  { rewrite <- Ha, Ec. reflexivity. }
  rewrite Hab.
  now destruct (BufferedSession.extract_all _ calls).
Qed.
End EndToEnd.

(** X7.  A whole session, from the chunks to the bytes.  When the chunks
    fit into the buffer together, every [inject] and [flip] return 0 and
    the bytes extracted are counter-mode expansion, from counter 0, of the
    digest of the concatenated chunks: one call in [c/keccak_prng.c], any
    series of calls, put end to end, in the caching rendition. *)
Theorem session_output_is_counter_mode_of_digest {K : Keccak256}
    (MAX_BUFFER_SIZE : nat)
    (mem : Plain.inner_keccak256_prng_ctx)
    (bmem : Buffered.inner_keccak256_prng_ctx)
    (chunks : list (list byte)) (out : list byte) (n : nat)
    (calls : list extract_call) :
  (length (concat chunks) <= MAX_BUFFER_SIZE)%nat ->
  (n <= length out)%nat -> calls_fit calls ->
  fst (PlainSession.session MAX_BUFFER_SIZE mem chunks [(out, n)])
  = (PRNG_OK, map (fun _ => PRNG_OK) chunks, PRNG_OK,
     [(PRNG_OK, expansion_stream (keccak256 (concat chunks)) 0 n)])
  /\ exists re,
       fst (BufferedSession.session MAX_BUFFER_SIZE bmem chunks calls)
       = (PRNG_OK, map (fun _ => PRNG_OK) chunks, PRNG_OK, re)
       /\ map fst re = map (fun _ => PRNG_OK) calls
       /\ concat (map snd re)
          = expansion_stream (keccak256 (concat chunks)) 0
              (list_sum (map snd calls)).
Proof.
  intros Hfit Hn Hcalls. split.
  - destruct (plain_session_ready MAX_BUFFER_SIZE mem chunks Hfit)
      as (p & Hf & Hc & Hs & E).
    rewrite E. cbn [fst PlainSession.extract_all].
    rewrite plain_extract_spec by assumption. cbn [fst snd].
    unfold observed. rewrite Hs, Hc.
    rewrite firstn_app_exact by apply expansion_stream_length.
    reflexivity.
  - destruct (buffered_session_ready MAX_BUFFER_SIZE bmem chunks Hfit)
      as (b & Hf & Hc & Hs & Hwf & Hav & E).
    rewrite E. cbn [fst].
    rewrite buffered_extract_all_end by assumption. cbn [fst].
    destruct (buffered_outputs_concat (map snd calls) b) as [H1 H2].
    eexists. split; [reflexivity|]. split.
    + rewrite H1. now rewrite map_map.
    + rewrite H2, served_empty_cache by assumption. now rewrite Hs, Hc.
Qed.

Lemma session_output_is_counter_mode_of_digest_witness :
  fst (PlainSession.session EXAMPLE_CAPACITY plain_garbage
         [bytes_test; bytes_input] [(dest 40, 33%nat)])
  = (PRNG_OK, map (fun _ => PRNG_OK) [bytes_test; bytes_input], PRNG_OK,
     [(PRNG_OK,
       expansion_stream (keccak256 (concat [bytes_test; bytes_input])) 0 33)])
  /\ exists re,
       fst (BufferedSession.session EXAMPLE_CAPACITY buffered_garbage
              [bytes_test; bytes_input]
              [(dest 16, 16%nat); (dest 16, 16%nat); (dest 40, 40%nat)])
       = (PRNG_OK, map (fun _ => PRNG_OK) [bytes_test; bytes_input],
          PRNG_OK, re)
       /\ map fst re
          = map (fun _ => PRNG_OK)
              [(dest 16, 16%nat); (dest 16, 16%nat); (dest 40, 40%nat)]
       /\ concat (map snd re)
          = expansion_stream (keccak256 (concat [bytes_test; bytes_input])) 0
              (list_sum (map snd [(dest 16, 16%nat); (dest 16, 16%nat);
                                  (dest 40, 40%nat)])).
Proof.
  apply (session_output_is_counter_mode_of_digest EXAMPLE_CAPACITY
           plain_garbage buffered_garbage [bytes_test; bytes_input]
           (dest 40) 33
           [(dest 16, 16%nat); (dest 16, 16%nat); (dest 40, 40%nat)]).
  - unfold EXAMPLE_CAPACITY, bytes_test, bytes_input. cbn. lia.
  - cbn. lia.
  - unfold calls_fit. repeat constructor; cbn; lia.
Defined.

(** ** Contexts reached through the interface *)

Section Reachable.
Context {K : Keccak256}.
Variable MAX_BUFFER_SIZE : nat.

Lemma uint64_incr_range c : 0 <= uint64_incr c < UINT64_MOD.
Proof. unfold uint64_incr, UINT64_MOD. apply Z.mod_pos_bound. lia. Qed.

Lemma plain_extract_loop_counter fuel : forall c out offset len,
  0 <= Plain.counter c < UINT64_MOD ->
  0 <= Plain.counter (fst (Plain.extract_loop fuel c out offset len))
    < UINT64_MOD.
Proof.
  induction fuel as [|fuel IH]; intros c out offset len Hc;
    cbn [Plain.extract_loop]; [exact Hc|].
  destruct (offset <? len)%nat; [|exact Hc].
  apply IH. cbn [Plain.set_counter Plain.counter]. apply uint64_incr_range.
Qed.

Lemma plain_init_reachable mem :
  exists c,
    Plain.inner_keccak256_init MAX_BUFFER_SIZE (Some mem) = (PRNG_OK, Some c)
    /\ plain_reachable MAX_BUFFER_SIZE c.
Proof.
  eexists. split; [reflexivity|].
  unfold plain_reachable, plain_ctx_wf, memset.
  cbn [Plain.buffer Plain.state Plain.buffer_len Plain.counter Plain.finalized].
  rewrite !repeat_length. unfold UINT64_MOD.
  repeat split; try lia; try discriminate; auto with arith.
Qed.

Lemma plain_call_reachable c call :
  plain_reachable MAX_BUFFER_SIZE c ->
  call_in_range MAX_BUFFER_SIZE call ->
  exists r c',
    plain_call MAX_BUFFER_SIZE (Some c) call = (r, Some c')
    /\ plain_reachable MAX_BUFFER_SIZE c'.
Proof.
  intros Hr Hrange. destruct call as [|inp ilen| |out len]; cbn [plain_call].
  - destruct (plain_init_reachable c) as (c' & E & Hr').
    now exists PRNG_OK, c'.
  - pose proof Hr as (Hwf & Hc & Hfin & Hnot).
    destruct inp as [d|]; [|now exists ERR_NULL, c].
    destruct (Plain.finalized c) eqn:Ef.
    { exists ERR_STATE, c. split; [|exact Hr].
      cbn [Plain.inner_keccak256_inject]. now rewrite Ef. }
    cbn [call_in_range] in Hrange. destruct Hrange as [Hlen Hsmall].
    pose proof (SIZE_MOD_bounds MAX_BUFFER_SIZE) as [Hm _].
    destruct (plain_inject_in_range MAX_BUFFER_SIZE c d ilen Hwf Ef Hlen
                ltac:(lia))
      as [[_ E]|(_ & E & Hwf')]; rewrite E.
    + now exists ERR_OVERFLOW, c.
    + eexists _, _. split; [reflexivity|].
      split; [exact Hwf'|].
      cbn [Plain.state Plain.counter Plain.finalized].
      specialize (Hnot eq_refl).
      repeat split; try lia; try discriminate; try tauto.
  - pose proof Hr as (Hwf & Hc & Hfin & Hnot).
    cbn [Plain.inner_keccak256_flip].
    destruct (Plain.finalized c) eqn:Ef; [now exists ERR_STATE, c|].
    eexists _, _. split; [reflexivity|].
    unfold plain_reachable, plain_ctx_wf, plain_absorbed.
    cbn [Plain.buffer Plain.state Plain.buffer_len Plain.counter
         Plain.finalized].
    rewrite keccak256_length.
    destruct Hwf as (Hb & Hs & Hl).
    repeat split; try lia; try discriminate; try tauto.
  - destruct out as [o|]; [|now exists ERR_NULL, c].
    cbn [Plain.inner_keccak256_extract].
    destruct (Plain.finalized c) eqn:Ef; cbn [negb];
      [|now exists ERR_STATE, c].
    pose proof (plain_extract_loop_frame len c o 0%nat len) as Hfr.
    pose proof (plain_extract_loop_counter len c o 0%nat len) as Hcn.
    destruct (Plain.extract_loop len c o 0 len) as [c' o'].
    cbn [fst] in *. exists PRNG_OK, c'. split; [reflexivity|].
    destruct Hr as (Hwf & Hc & Hfin & Hnot).
    specialize (Hcn Hc).
    assert (Eb : Plain.buffer c' = Plain.buffer c) by now rewrite <- Hfr.
    assert (El : Plain.buffer_len c' = Plain.buffer_len c)
      by now rewrite <- Hfr.
    assert (Es : Plain.state c' = Plain.state c) by now rewrite <- Hfr.
    assert (Efin : Plain.finalized c' = Plain.finalized c)
      by now rewrite <- Hfr.
    unfold plain_reachable, plain_ctx_wf, plain_absorbed in *.
    rewrite Eb, El, Es, Efin, Ef.
    repeat split; try tauto; try discriminate.
Qed.

Lemma plain_run_reachable calls : forall c,
  plain_reachable MAX_BUFFER_SIZE c ->
  Forall (call_in_range MAX_BUFFER_SIZE) calls ->
  exists c',
    snd (plain_run MAX_BUFFER_SIZE (Some c) calls) = Some c'
    /\ plain_reachable MAX_BUFFER_SIZE c'.
Proof.
  induction calls as [|call rest IH]; intros c Hr Hrange; [now exists c|].
  inversion Hrange as [|call0 rest0 Hcall Hrest]; subst call0 rest0.
  cbn [plain_run].
  destruct (plain_call_reachable c call Hr Hcall) as (r & c1 & E & Hr1).
  rewrite E. destruct (IH c1 Hr1 Hrest) as (c' & E' & Hr').
  destruct (plain_run MAX_BUFFER_SIZE (Some c1) rest). now exists c'.
Qed.
End Reachable.

(** X8.  Invariants of [c/keccak_prng.c].  After [init], whatever calls
    of [init], [inject], [flip] and [extract] follow whose arguments are
    in range ([call_in_range]: the array of an [inject] call holds the
    [len] bytes and [len] stays below [2^64 - MAX_BUFFER_SIZE], so that
    the sum in the capacity check does not wrap; the destination of an
    [extract] call holds the bytes asked for), NULL data pointers, calls
    in the wrong phase and chunks beyond the capacity included: the
    arrays keep their sizes, [buffer_len] stays within the capacity, the
    counter stays below [2^64]; while the context is not finalized the
    counter is 0 and the state all zero; once it is finalized the state
    is the digest of the absorbed bytes. *)
Theorem plain_reachable_contexts {K : Keccak256} (MAX_BUFFER_SIZE : nat)
    (mem : Plain.inner_keccak256_prng_ctx) (calls : list prng_call) :
  Forall (call_in_range MAX_BUFFER_SIZE) calls ->
  exists c,
    snd (plain_run MAX_BUFFER_SIZE
           (snd (Plain.inner_keccak256_init MAX_BUFFER_SIZE (Some mem))) calls)
    = Some c
    /\ length (Plain.buffer c) = MAX_BUFFER_SIZE
    /\ length (Plain.state c) = KECCAK256_OUTPUT
    /\ (Plain.buffer_len c <= MAX_BUFFER_SIZE)%nat
    /\ 0 <= Plain.counter c < UINT64_MOD
    /\ (Plain.finalized c = true ->
        Plain.state c = keccak256 (plain_absorbed c))
    /\ (Plain.finalized c = false ->
        Plain.counter c = 0 /\ Plain.state c = repeat x00 KECCAK256_OUTPUT).
Proof.
  intros Hrange.
  destruct (plain_init_reachable MAX_BUFFER_SIZE mem) as (c0 & E & Hr).
  rewrite E. cbn [snd].
  destruct (plain_run_reachable MAX_BUFFER_SIZE calls c0 Hr Hrange)
    as (c & Ec & Hc).
  exists c. split; [exact Ec|].
  destruct Hc as ((Hb & Hs & Hl) & Hcn & Hfin & Hnot).
  repeat split; try assumption; try apply Hcn; now apply Hnot.
Qed.

Lemma plain_reachable_contexts_witness :
  exists c,
    snd (plain_run EXAMPLE_CAPACITY
           (snd (Plain.inner_keccak256_init EXAMPLE_CAPACITY
                   (Some plain_garbage)))
           [CallInject (Some bytes_test) 4; CallExtract (Some (dest 8)) 8;
            CallInject (Some (dest 40)) 40; CallInject (Some (dest 40)) 33;
            CallFlip; CallExtract (Some (dest 40)) 33;
            CallInject (Some bytes_input) 3; CallInit; CallInject None 7;
            CallFlip; CallExtract (Some (dest 16)) 16])
    = Some c
    /\ length (Plain.buffer c) = EXAMPLE_CAPACITY
    /\ length (Plain.state c) = KECCAK256_OUTPUT
    /\ (Plain.buffer_len c <= EXAMPLE_CAPACITY)%nat
    /\ 0 <= Plain.counter c < UINT64_MOD
    /\ (Plain.finalized c = true ->
        Plain.state c = keccak256 (plain_absorbed c))
    /\ (Plain.finalized c = false ->
        Plain.counter c = 0 /\ Plain.state c = repeat x00 KECCAK256_OUTPUT).
Proof.
  apply (plain_reachable_contexts EXAMPLE_CAPACITY plain_garbage).
  unfold EXAMPLE_CAPACITY. repeat constructor; cbn; lia.
Defined.

Section BufferedReachable.
Context {K : Keccak256}.
Variable MAX_BUFFER_SIZE : nat.

Lemma counter_bytes_pred_incr c :
  big_endian_64 (uint64_incr c - 1) = counter_bytes c.
Proof.
  rewrite <- counter_bytes_spec.
  rewrite <- (counter_bytes_mod (uint64_incr c - 1)), <- (counter_bytes_mod c).
  f_equal. unfold uint64_incr. rewrite Zminus_mod_idemp_l. f_equal. lia.
Qed.

Lemma buffered_extract_loop_cache fuel : forall c out offset len,
  cache_inv c ->
  cache_inv (fst (Buffered.extract_loop fuel c out offset len)).
Proof.
  induction fuel as [|fuel IH]; intros c out offset len Hc;
    cbn [Buffered.extract_loop]; [exact Hc|].
  destruct (offset <? len)%nat; [|exact Hc].
  apply IH. unfold cache_inv.
  cbn [Buffered.out_buffer_pos Buffered.out_buffer_len Buffered.out_buffer
       Buffered.state Buffered.counter].
  split; [|split].
  - rewrite to_copy_min_cached. lia.
  - right. split; [reflexivity|]. now rewrite counter_bytes_pred_incr.
  - apply uint64_incr_range.
Qed.

Lemma plain_reachable_set_counter c k :
  plain_reachable MAX_BUFFER_SIZE c -> Plain.finalized c = true ->
  0 <= k < UINT64_MOD ->
  plain_reachable MAX_BUFFER_SIZE (Plain.set_counter k c).
Proof.
  intros (Hwf & Hc & Hfin & Hnot) Hf Hk.
  unfold plain_reachable, plain_ctx_wf, plain_absorbed in *.
  cbn [Plain.set_counter Plain.buffer Plain.state Plain.buffer_len
       Plain.counter Plain.finalized].
  rewrite Hf. repeat split; try tauto; try discriminate.
Qed.

Lemma buffered_init_reachable mem :
  exists c,
    Buffered.inner_keccak256_init MAX_BUFFER_SIZE (Some mem)
    = (PRNG_OK, Some c)
    /\ buffered_reachable MAX_BUFFER_SIZE c.
Proof.
  eexists. split; [reflexivity|].
  destruct (plain_init_reachable MAX_BUFFER_SIZE (without_cache mem))
    as (c0 & E & Hr).
  inversion E; subst c0. split; [exact Hr|].
  cbn [Buffered.out_buffer_pos Buffered.out_buffer_len]. auto.
Qed.

Lemma buffered_call_reachable c call :
  buffered_reachable MAX_BUFFER_SIZE c ->
  call_in_range MAX_BUFFER_SIZE call ->
  exists r c',
    buffered_call MAX_BUFFER_SIZE (Some c) call = (r, Some c')
    /\ buffered_reachable MAX_BUFFER_SIZE c'.
Proof.
  intros Hr Hrange. pose proof Hr as (Hp & Hpos & Hlen & Hnf).
  destruct call as [|inp ilen| |out len]; cbn [buffered_call].
  - destruct (buffered_init_reachable c) as (c' & E & Hr').
    now exists PRNG_OK, c'.
  - destruct inp as [d|]; [|now exists ERR_NULL, c].
    destruct (buffered_inject_sim MAX_BUFFER_SIZE c d ilen)
      as (r & c' & Eb & Ep & Hf' & Hpos' & Hlen' & Hcnt').
    destruct (plain_call_reachable MAX_BUFFER_SIZE (without_cache c)
                (CallInject (Some d) ilen) Hp Hrange) as (r1 & p' & E1 & Hp').
    cbn [plain_call] in E1. rewrite Ep in E1. inversion E1; subst r1 p'.
    exists r, c'. split; [exact Eb|].
    cbn [Buffered.inner_keccak256_inject] in Eb.
    destruct (Buffered.finalized c) eqn:Ef.
    + inversion Eb; subst. exact Hr.
    + destruct (Z.of_nat MAX_BUFFER_SIZE
                <? size_add MAX_BUFFER_SIZE (Buffered.buffer_len c) ilen).
      * inversion Eb; subst. exact Hr.
      * inversion Eb; subst r c'. split; [exact Hp'|].
        cbn [Buffered.out_buffer_pos Buffered.out_buffer_len
             Buffered.out_buffer Buffered.state Buffered.counter
             Buffered.finalized].
        specialize (Hnf eq_refl). repeat split; try lia; now left.
  - cbn [Buffered.inner_keccak256_flip].
    destruct (Buffered.finalized c) eqn:Ef; [now exists ERR_STATE, c|].
    eexists _, _. split; [reflexivity|].
    destruct (plain_call_reachable MAX_BUFFER_SIZE (without_cache c)
                CallFlip Hp I) as (r1 & p' & E1 & Hp').
    cbn [plain_call Plain.inner_keccak256_flip without_cache
         Plain.finalized] in E1.
    rewrite Ef in E1. inversion E1; subst r1 p'.
    split; [exact Hp'|].
    cbn [Buffered.out_buffer_pos Buffered.out_buffer_len Buffered.finalized].
    repeat split; auto; discriminate.
  - destruct out as [o|]; [|now exists ERR_NULL, c].
    destruct (buffered_extract_frame c (Some o) len)
      as (r & c' & o' & E & Hfr).
    rewrite E. cbn [fst]. exists r, c'. split; [reflexivity|].
    cbn [Buffered.inner_keccak256_extract] in E.
    destruct (Buffered.finalized c) eqn:Ef; cbn [negb] in E;
      [|inversion E; subst; exact Hr].
    assert (Hci : cache_inv c).
    { split; [exact Hpos|]. split; [exact Hlen|]. apply Hp. }
    assert (Hci' : cache_inv c').
    { destruct (Buffered.out_buffer_pos c <? Buffered.out_buffer_len c)%nat
        eqn:Ecache.
      - apply Nat.ltb_lt in Ecache.
        set (t := if (len <? _)%nat then len else _) in E.
        assert (Ht : (t <= Buffered.out_buffer_len c
                           - Buffered.out_buffer_pos c)%nat).
        { unfold t. destruct (Nat.ltb_spec len
                                (Buffered.out_buffer_len c
                                 - Buffered.out_buffer_pos c)); lia. }
        assert (Hc1 : cache_inv (Buffered.set_out_buffer_pos
                                   (Buffered.out_buffer_pos c + t) c)).
        { destruct Hci as (H1 & H2 & H3). split; [|split]; try assumption.
          cbn [Buffered.set_out_buffer_pos Buffered.out_buffer_pos
               Buffered.out_buffer_len]. lia. }
        destruct (t =? len)%nat.
        + inversion E; subst. exact Hc1.
        + pose proof (buffered_extract_loop_cache len
                        (Buffered.set_out_buffer_pos
                           (Buffered.out_buffer_pos c + t) c)
                        (memcpy o 0
                           (skipn (Buffered.out_buffer_pos c)
                              (Buffered.out_buffer c)) t)
                        t len Hc1) as Hl.
          destruct (Buffered.extract_loop _ _ _ _ _) as [c2 o2].
          inversion E; subst. exact Hl.
      - pose proof (buffered_extract_loop_cache len c o 0%nat len Hci) as Hl.
        destruct (Buffered.extract_loop _ _ _ _ _) as [c2 o2].
        inversion E; subst. exact Hl. }
    destruct Hci' as (H1 & H2 & H3).
    assert (Efin : Buffered.finalized c' = true).
    { apply (f_equal Plain.finalized) in Hfr. cbn in Hfr. congruence. }
    split; [|split; [exact H1|split; [exact H2|]]].
    + rewrite Hfr. apply plain_reachable_set_counter; try assumption;
        exact Ef.
    + rewrite Efin. discriminate.
Qed.

Lemma buffered_run_reachable calls : forall c,
  buffered_reachable MAX_BUFFER_SIZE c ->
  Forall (call_in_range MAX_BUFFER_SIZE) calls ->
  exists c',
    snd (buffered_run MAX_BUFFER_SIZE (Some c) calls) = Some c'
    /\ buffered_reachable MAX_BUFFER_SIZE c'.
Proof.
  induction calls as [|call rest IH]; intros c Hr Hrange; [now exists c|].
  inversion Hrange as [|call0 rest0 Hcall Hrest]; subst call0 rest0.
  cbn [buffered_run].
  destruct (buffered_call_reachable c call Hr Hcall) as (r & c1 & E & Hr1).
  rewrite E. destruct (IH c1 Hr1 Hrest) as (c' & E' & Hr').
  destruct (buffered_run MAX_BUFFER_SIZE (Some c1) rest). now exists c'.
Qed.
End BufferedReachable.

(** X9.  Invariants of the caching rendition.  After [init], whatever
    calls follow whose arguments are in range ([call_in_range]: the array
    of an [inject] call holds the [len] bytes and [len] stays below
    [2^64 - MAX_BUFFER_SIZE], so that the sum in the capacity check does
    not wrap; the destination of an [extract] call holds the bytes asked
    for): the arrays keep their sizes, [buffer_len] stays within the
    capacity and the counter below [2^64]; while the context is not
    finalized the counter is 0, the state all zero and the cache empty;
    once it is finalized the state is the digest of the absorbed bytes;
    the cursor never passes the end of the cached block; and a non-empty
    cache always holds a whole block, namely the block of the counter
    value before the current one,
    [keccak256 (state || big_endian_64 (counter - 1))], where
    [big_endian_64] is the encoding of the specification: eight base-256
    digits, the most significant first, that [be64_decode] reads back. *)
Theorem buffered_reachable_contexts {K : Keccak256} (MAX_BUFFER_SIZE : nat)
    (mem : Buffered.inner_keccak256_prng_ctx) (calls : list prng_call) :
  Forall (call_in_range MAX_BUFFER_SIZE) calls ->
  exists c,
    snd (buffered_run MAX_BUFFER_SIZE
           (snd (Buffered.inner_keccak256_init MAX_BUFFER_SIZE (Some mem)))
           calls)
    = Some c
    /\ length (Buffered.buffer c) = MAX_BUFFER_SIZE
    /\ length (Buffered.state c) = KECCAK256_OUTPUT
    /\ (Buffered.buffer_len c <= MAX_BUFFER_SIZE)%nat
    /\ 0 <= Buffered.counter c < UINT64_MOD
    /\ (Buffered.finalized c = true ->
        Buffered.state c = keccak256 (buffered_absorbed c))
    /\ (Buffered.finalized c = false ->
        Buffered.counter c = 0
        /\ Buffered.state c = repeat x00 KECCAK256_OUTPUT
        /\ Buffered.out_buffer_len c = 0%nat)
    /\ (Buffered.out_buffer_pos c <= Buffered.out_buffer_len c)%nat
    /\ (Buffered.out_buffer_len c = 0%nat
        \/ Buffered.out_buffer_len c = KECCAK256_OUTPUT
           /\ Buffered.out_buffer c
              = keccak256 (Buffered.state c
                           ++ big_endian_64 (Buffered.counter c - 1)))
    /\ forall v, length (big_endian_64 v) = 8%nat
                 /\ be64_decode (big_endian_64 v) = v mod UINT64_MOD.
Proof.
  intros Hrange.
  destruct (buffered_init_reachable MAX_BUFFER_SIZE mem) as (c0 & E & Hr).
  rewrite E. cbn [snd].
  destruct (buffered_run_reachable MAX_BUFFER_SIZE calls c0 Hr Hrange)
    as (c & Ec & Hc).
  exists c. split; [exact Ec|].
  destruct Hc as (((Hb & Hs & Hl) & Hcn & Hfin & Hnot) & Hpos & Hlen & Hnf).
  cbn [without_cache Plain.buffer Plain.state Plain.buffer_len Plain.counter
       Plain.finalized] in *.
  split; [exact Hb|]. split; [exact Hs|]. split; [exact Hl|].
  split; [exact Hcn|]. split; [exact Hfin|].
  split; [intros Hn; repeat split; try apply (Hnot Hn); now apply Hnf|].
  split; [exact Hpos|]. split; [exact Hlen|].
  intros v. split; [apply big_endian_64_length|apply big_endian_64_decode].
Qed.

Lemma buffered_reachable_contexts_witness :
  exists c,
    snd (buffered_run EXAMPLE_CAPACITY
           (snd (Buffered.inner_keccak256_init EXAMPLE_CAPACITY
                   (Some buffered_garbage)))
           [CallInject (Some bytes_test) 4; CallExtract (Some (dest 8)) 8;
            CallInject (Some (dest 40)) 40; CallInject (Some (dest 40)) 33;
            CallFlip; CallExtract (Some (dest 40)) 33;
            CallInject (Some bytes_input) 3;
            CallExtract (Some (dest 16)) 16])
    = Some c
    /\ length (Buffered.buffer c) = EXAMPLE_CAPACITY
    /\ length (Buffered.state c) = KECCAK256_OUTPUT
    /\ (Buffered.buffer_len c <= EXAMPLE_CAPACITY)%nat
    /\ 0 <= Buffered.counter c < UINT64_MOD
    /\ (Buffered.finalized c = true ->
        Buffered.state c = keccak256 (buffered_absorbed c))
    /\ (Buffered.finalized c = false ->
        Buffered.counter c = 0
        /\ Buffered.state c = repeat x00 KECCAK256_OUTPUT
        /\ Buffered.out_buffer_len c = 0%nat)
    /\ (Buffered.out_buffer_pos c <= Buffered.out_buffer_len c)%nat
    /\ (Buffered.out_buffer_len c = 0%nat
        \/ Buffered.out_buffer_len c = KECCAK256_OUTPUT
           /\ Buffered.out_buffer c
              = keccak256 (Buffered.state c
                           ++ big_endian_64 (Buffered.counter c - 1)))
    /\ forall v, length (big_endian_64 v) = 8%nat
                 /\ be64_decode (big_endian_64 v) = v mod UINT64_MOD.
Proof.
  apply (buffered_reachable_contexts EXAMPLE_CAPACITY buffered_garbage).
  unfold EXAMPLE_CAPACITY. repeat constructor; cbn; lia.
Defined.

(** ** After [flip] *)

Section Permanent.
Context {K : Keccak256}.
Variable MAX_BUFFER_SIZE : nat.

Lemma plain_call_finalized c call :
  Plain.finalized c = true -> is_init call = false ->
  exists c',
    plain_call MAX_BUFFER_SIZE (Some c) call = (finalized_code call, Some c')
    /\ Plain.set_counter (Plain.counter c) c' = c.
Proof.
  intros Hf Hi. destruct call as [|[d|]| |[o|] len]; try discriminate Hi;
    cbn [plain_call finalized_code Plain.inner_keccak256_inject
         Plain.inner_keccak256_flip Plain.inner_keccak256_extract];
    rewrite ?Hf; cbn [negb fst];
    try (exists c; split; [reflexivity|apply plain_set_counter_same]).
  pose proof (plain_extract_loop_frame len c o 0%nat len) as Hfr.
  destruct (Plain.extract_loop len c o 0 len) as [c' o'].
  now exists c'.
Qed.

Lemma plain_run_finalized_spec calls : forall c,
  Plain.finalized c = true ->
  existsb is_init calls = false ->
  exists c',
    plain_run MAX_BUFFER_SIZE (Some c) calls
    = (map finalized_code calls, Some c')
    /\ Plain.set_counter (Plain.counter c) c' = c.
Proof.
  induction calls as [|call rest IH]; intros c Hf Hi.
  - exists c. split; [reflexivity|apply plain_set_counter_same].
  - cbn [existsb] in Hi. apply orb_false_iff in Hi. destruct Hi as [Hi1 Hi2].
    destruct (plain_call_finalized c call Hf Hi1) as (c1 & E1 & Hfr1).
    assert (Hf1 : Plain.finalized c1 = true).
    { apply (f_equal Plain.finalized) in Hfr1. cbn in Hfr1. congruence. }
    destruct (IH c1 Hf1 Hi2) as (c' & E' & Hfr').
    exists c'. cbn [plain_run map]. rewrite E1, E'. split; [reflexivity|].
    rewrite <- Hfr1. rewrite <- Hfr' at 2. reflexivity.
Qed.

Lemma buffered_call_finalized c call :
  Buffered.finalized c = true -> is_init call = false ->
  exists c',
    buffered_call MAX_BUFFER_SIZE (Some c) call
    = (finalized_code call, Some c')
    /\ without_cache c'
       = Plain.set_counter (Buffered.counter c') (without_cache c).
Proof.
  intros Hf Hi.
  assert (Hsame : without_cache c
                  = Plain.set_counter (Buffered.counter c) (without_cache c))
    by reflexivity.
  destruct call as [|[d|]| |[o|] len]; try discriminate Hi;
    cbn [buffered_call finalized_code Buffered.inner_keccak256_inject
         Buffered.inner_keccak256_flip];
    rewrite ?Hf; cbn [negb fst];
    try (exists c; split; [reflexivity|exact Hsame]).
  destruct (buffered_extract_frame c (Some o) len) as (r & c' & o' & E & Hfr).
  rewrite E. cbn [fst]. exists c'. split; [|exact Hfr].
  cbn [Buffered.inner_keccak256_extract] in E. rewrite Hf in E.
  cbn [negb] in E.
  destruct (Buffered.out_buffer_pos c <? Buffered.out_buffer_len c)%nat.
  - match type of E with
    | context [(?t =? len)%nat] => destruct (t =? len)%nat
    end.
    + now inversion E.
    + destruct (Buffered.extract_loop _ _ _ _ _). now inversion E.
  - destruct (Buffered.extract_loop _ _ _ _ _). now inversion E.
Qed.

Lemma buffered_run_finalized_spec calls : forall c,
  Buffered.finalized c = true ->
  existsb is_init calls = false ->
  exists c',
    buffered_run MAX_BUFFER_SIZE (Some c) calls
    = (map finalized_code calls, Some c')
    /\ without_cache c'
       = Plain.set_counter (Buffered.counter c') (without_cache c).
Proof.
  induction calls as [|call rest IH]; intros c Hf Hi.
  - exists c. split; reflexivity.
  - cbn [existsb] in Hi. apply orb_false_iff in Hi. destruct Hi as [Hi1 Hi2].
    destruct (buffered_call_finalized c call Hf Hi1) as (c1 & E1 & Hfr1).
    assert (Hf1 : Buffered.finalized c1 = true).
    { apply (f_equal Plain.finalized) in Hfr1. cbn in Hfr1. congruence. }
    destruct (IH c1 Hf1 Hi2) as (c' & E' & Hfr').
    exists c'. cbn [buffered_run map]. rewrite E1, E'. split; [reflexivity|].
    rewrite Hfr', Hfr1. reflexivity.
Qed.
End Permanent.

(** X10.  Finalization is permanent.  On a finalized context, any series
    of calls other than [init] (the destination of an [extract] call
    holding the bytes asked for) leaves [finalized], [state], [buffer] and
    [buffer_len] as they are; in it every [inject] and [flip] with
    non-NULL arguments returns [ERR_STATE], every [extract] with a
    destination returns 0, and a NULL argument gives [ERR_NULL]
    ([finalized_code]).  Both in [c/keccak_prng.c] and in the caching
    rendition. *)
Theorem finalized_is_permanent {K : Keccak256} (MAX_BUFFER_SIZE : nat)
    (p : Plain.inner_keccak256_prng_ctx)
    (b : Buffered.inner_keccak256_prng_ctx) (calls : list prng_call) :
  existsb is_init calls = false -> Forall call_in_bounds calls ->
  (Plain.finalized p = true ->
   exists p',
     plain_run MAX_BUFFER_SIZE (Some p) calls
     = (map finalized_code calls, Some p')
     /\ Plain.finalized p' = true
     /\ Plain.state p' = Plain.state p
     /\ Plain.buffer p' = Plain.buffer p
     /\ Plain.buffer_len p' = Plain.buffer_len p)
  /\ (Buffered.finalized b = true ->
      exists b',
        buffered_run MAX_BUFFER_SIZE (Some b) calls
        = (map finalized_code calls, Some b')
        /\ Buffered.finalized b' = true
        /\ Buffered.state b' = Buffered.state b
        /\ Buffered.buffer b' = Buffered.buffer b
        /\ Buffered.buffer_len b' = Buffered.buffer_len b).
Proof.
  intros Hi _. split; intros Hf.
  - destruct (plain_run_finalized_spec MAX_BUFFER_SIZE calls p Hf Hi)
      as (p' & E & Hfr).
    exists p'. split; [exact E|]. rewrite <- Hfr.
    cbn [Plain.set_counter Plain.finalized Plain.state Plain.buffer
         Plain.buffer_len].
    rewrite <- Hfr in Hf. cbn in Hf. now repeat split.
  - destruct (buffered_run_finalized_spec MAX_BUFFER_SIZE calls b Hf Hi)
      as (b' & E & Hfr).
    exists b'. split; [exact E|].
    pose proof (f_equal Plain.finalized Hfr) as H1.
    pose proof (f_equal Plain.state Hfr) as H2.
    pose proof (f_equal Plain.buffer Hfr) as H3.
    pose proof (f_equal Plain.buffer_len Hfr) as H4.
    cbn in H1, H2, H3, H4. repeat split; congruence.
Qed.

Lemma finalized_is_permanent_witness :
  (Plain.finalized plain_flipped = true ->
   exists p',
     plain_run EXAMPLE_CAPACITY (Some plain_flipped)
       [CallInject (Some bytes_test) 4; CallFlip;
        CallExtract (Some (dest 16)) 16; CallInject None 0]
     = (map finalized_code
          [CallInject (Some bytes_test) 4; CallFlip;
           CallExtract (Some (dest 16)) 16; CallInject None 0],
        Some p')
     /\ Plain.finalized p' = true
     /\ Plain.state p' = Plain.state plain_flipped
     /\ Plain.buffer p' = Plain.buffer plain_flipped
     /\ Plain.buffer_len p' = Plain.buffer_len plain_flipped)
  /\ (Buffered.finalized buffered_midblock = true ->
      exists b',
        buffered_run EXAMPLE_CAPACITY (Some buffered_midblock)
          [CallInject (Some bytes_test) 4; CallFlip;
           CallExtract (Some (dest 16)) 16; CallInject None 0]
        = (map finalized_code
             [CallInject (Some bytes_test) 4; CallFlip;
              CallExtract (Some (dest 16)) 16; CallInject None 0],
           Some b')
        /\ Buffered.finalized b' = true
        /\ Buffered.state b' = Buffered.state buffered_midblock
        /\ Buffered.buffer b' = Buffered.buffer buffered_midblock
        /\ Buffered.buffer_len b' = Buffered.buffer_len buffered_midblock).
Proof.
  apply (finalized_is_permanent EXAMPLE_CAPACITY plain_flipped
           buffered_midblock
           [CallInject (Some bytes_test) 4; CallFlip;
            CallExtract (Some (dest 16)) 16; CallInject None 0]).
  - reflexivity.
  - repeat constructor.
Defined.

(** ** [extract] of the rendition on [sha3_256], continued *)

Section ShakeMore.
Context {H : Sha3_256}.

Lemma shake_extract_loop_frame fuel : forall c out stack offset len,
  Plain.set_counter (Plain.counter c)
    (snd (fst (Shake.extract_loop fuel c out stack offset len))) = c.
Proof.
  induction fuel as [|fuel IH]; intros c out stack offset len;
    cbn [Shake.extract_loop].
  - apply plain_set_counter_same.
  - destruct (offset <? len)%nat; [|apply plain_set_counter_same].
    destruct (sha3_256 stack _) as [ret squeeze_out'].
    destruct (negb (ret =? 0)); [apply plain_set_counter_same|].
    match goal with
    | |- context [Shake.extract_loop fuel ?c1 ?o1 ?s1 ?off1 len] =>
        specialize (IH c1 o1 s1 off1 len);
        destruct (Shake.extract_loop fuel c1 o1 s1 off1 len) as [[r c'] o']
    end.
    cbn [fst snd] in *.
    transitivity (Plain.set_counter (Plain.counter c)
                    (Plain.set_counter (uint64_incr (Plain.counter c)) c)).
    + exact (f_equal (Plain.set_counter (Plain.counter c)) IH).
    + exact (plain_set_counter_same c).
Qed.
End ShakeMore.

(** X11.  [extract] of the rendition on [sha3_256].  A NULL context or
    destination gives [ERR_NULL] and a context that is not finalized
    [ERR_STATE], with nothing changed; a request for 0 bytes returns 0
    with nothing changed and no hash computed; when [sha3_256] fails on
    the first block the call returns its code with context and
    destination unchanged; and no call, successful or not, changes
    [state], [buffer], [buffer_len] or [finalized]. *)
Theorem shake_extract_guards_and_frame {H : Sha3_256}
    (stack : list byte) (c : Shake.inner_keccak256_prng_ctx)
    (out : option (list byte)) (o : list byte) (n : nat) :
  Shake.inner_keccak256_extract stack None out n = (ERR_NULL, None, out)
  /\ Shake.inner_keccak256_extract stack (Some c) None n
     = (ERR_NULL, Some c, None)
  /\ (Plain.finalized c = false ->
      Shake.inner_keccak256_extract stack (Some c) (Some o) n
      = (ERR_STATE, Some c, Some o))
  /\ (Plain.finalized c = true ->
      Shake.inner_keccak256_extract stack (Some c) (Some o) 0
      = (PRNG_OK, Some c, Some o))
  /\ (Plain.finalized c = true -> (0 < n)%nat ->
      fst (sha3_256 stack (Plain.state c ++ counter_bytes (Plain.counter c)))
      <> 0 ->
      Shake.inner_keccak256_extract stack (Some c) (Some o) n
      = (fst (sha3_256 stack
                (Plain.state c ++ counter_bytes (Plain.counter c))),
         Some c, Some o))
  /\ exists r c' o',
       Shake.inner_keccak256_extract stack (Some c) out n = (r, Some c', o')
       /\ Plain.state c' = Plain.state c
       /\ Plain.buffer c' = Plain.buffer c
       /\ Plain.buffer_len c' = Plain.buffer_len c
       /\ Plain.finalized c' = Plain.finalized c.
Proof.
  split; [reflexivity|]. split; [reflexivity|].
  split; [|split; [|split]].
  - intros Hf. cbn [Shake.inner_keccak256_extract]. now rewrite Hf.
  - intros Hf. cbn [Shake.inner_keccak256_extract Shake.extract_loop].
    now rewrite Hf.
  - intros Hf Hn Hret. cbn [Shake.inner_keccak256_extract]. rewrite Hf.
    cbn [negb]. destruct n as [|n]; [lia|]. cbn [Shake.extract_loop].
    change (0 <? S n)%nat with true. cbn iota.
    destruct (sha3_256 stack _) as [ret sq]. cbn [fst] in *.
    destruct (Z.eqb_spec ret 0) as [E|_]; [contradiction|]. reflexivity.
  - destruct out as [o0|]; [|now exists ERR_NULL, c, None].
    cbn [Shake.inner_keccak256_extract].
    destruct (Plain.finalized c) eqn:Ef; cbn [negb];
      [|now exists ERR_STATE, c, (Some o0)].
    pose proof (shake_extract_loop_frame n c o0 stack 0%nat n) as Hfr.
    destruct (Shake.extract_loop n c o0 stack 0 n) as [[r c'] o'].
    cbn [fst snd] in Hfr. exists r, c', (Some o'). split; [reflexivity|].
    rewrite <- Hfr. cbn. rewrite <- Hfr in Ef. cbn in Ef. now repeat split.
Qed.

Lemma shake_extract_guards_and_frame_witness :
  @Shake.inner_keccak256_extract sha3_256_failing (repeat xee 32)
    (Some plain_flipped) (Some (dest 32)) 32
  = (-1, Some plain_flipped, Some (dest 32)).
Proof.
  apply (proj1 (proj2 (proj2 (proj2 (proj2
           (@shake_extract_guards_and_frame sha3_256_failing (repeat xee 32)
              plain_flipped None (dest 32) 32)))))).
  - reflexivity.
  - lia.
  - cbn. discriminate.
Defined.

(** X12.  Where [sha3_256] reports success and stores a digest that
    depends on the message only, [extract] of the rendition on
    [sha3_256] is counter-mode expansion with that digest: on a finalized
    context it returns 0, stores the first [n] bytes of the blocks
    [digest (state || big_endian_64 ((counter + i) mod 2^64))],
    [i = 0 .. ceil (n / 32) - 1], leaves the rest of the destination
    alone and advances the counter by one per block, whatever the local
    array [squeeze_out] held on entry; and on every context, destination
    and length, NULL pointers included, it returns what [extract] of
    [c/keccak_prng.c] returns with that digest in the place of
    Keccak-256.  [big_endian_64] is the encoding of the specification,
    eight base-256 digits with the most significant first. *)
Theorem shake_extract_is_counter_mode {K : Keccak256} {H : Sha3_256}
    (stack : list byte) (c : Shake.inner_keccak256_prng_ctx)
    (out : list byte) (n : nat) :
  (forall old msg, sha3_256 old msg = (0, keccak256 msg)) ->
  Plain.finalized c = true -> (n <= length out)%nat ->
  Shake.inner_keccak256_extract stack (Some c) (Some out) n
  = (PRNG_OK,
     Some (Plain.set_counter
             (Nat.iter (blocks_needed n) uint64_incr (Plain.counter c)) c),
     Some (firstn n
             (concat
                (map (fun i => keccak256
                                 (Plain.state c
                                  ++ big_endian_64
                                       ((Plain.counter c + Z.of_nat i)
                                        mod UINT64_MOD)))
                     (seq 0 (blocks_needed n))))
           ++ skipn n out))
  /\ (forall squeeze_out sc o len,
        Shake.inner_keccak256_extract squeeze_out sc o len
        = Plain.inner_keccak256_extract sc o len)
  /\ forall v, length (big_endian_64 v) = 8%nat
               /\ be64_decode (big_endian_64 v) = v mod UINT64_MOD.
Proof.
  intros Hsha Hf Hn. split; [|split].
  - rewrite (shake_extract_is_plain Hsha).
    rewrite plain_extract_spec by assumption.
    unfold expansion_stream. now rewrite expansion_blocks_concat.
  - intros squeeze_out sc o len. apply (shake_extract_is_plain Hsha).
  - intros v. split; [apply big_endian_64_length|apply big_endian_64_decode].
Qed.

Lemma shake_extract_is_counter_mode_witness :
  @Shake.inner_keccak256_extract Sha3_256_reference (repeat xee 32)
    (Some plain_flipped) (Some (dest 40)) 33
  = (PRNG_OK,
     Some (Plain.set_counter
             (Nat.iter (blocks_needed 33) uint64_incr
                (Plain.counter plain_flipped)) plain_flipped),
     Some (firstn 33
             (concat
                (map (fun i => @keccak256 sha3_as_keccak256
                                 (Plain.state plain_flipped
                                  ++ big_endian_64
                                       ((Plain.counter plain_flipped
                                         + Z.of_nat i)
                                        mod UINT64_MOD)))
                     (seq 0 (blocks_needed 33))))
           ++ skipn 33 (dest 40)))
  /\ (forall squeeze_out sc o len,
        @Shake.inner_keccak256_extract Sha3_256_reference squeeze_out sc o len
        = @Plain.inner_keccak256_extract sha3_as_keccak256 sc o len)
  /\ forall v, length (big_endian_64 v) = 8%nat
               /\ be64_decode (big_endian_64 v) = v mod UINT64_MOD.
Proof.
  apply (@shake_extract_is_counter_mode sha3_as_keccak256 Sha3_256_reference).
  - intros old msg. reflexivity.
  - reflexivity.
  - cbn. lia.
Defined.

(** ** Sessions of the rendition on [sha3_256] *)

Lemma shake_inject_all_is_plain MAX_BUFFER_SIZE chunks : forall sc,
  shake_inject_all MAX_BUFFER_SIZE sc chunks
  = PlainSession.inject_all MAX_BUFFER_SIZE sc chunks.
Proof.
  induction chunks as [|d rest IH]; intros sc; [reflexivity|].
  cbn [shake_inject_all PlainSession.inject_all].
  change (Shake.inner_keccak256_inject MAX_BUFFER_SIZE sc (Some d))
    with (Plain.inner_keccak256_inject MAX_BUFFER_SIZE sc (Some d)).
  destruct (Plain.inner_keccak256_inject MAX_BUFFER_SIZE sc (Some d))
    as [r sc1].
  now rewrite IH.
Qed.

(** X17.  The capacity of the rendition on [sha3_256].  After [init], a
    series of chunks that fit into the buffer together is absorbed whole,
    every [inject] returning 0.  If they fill the buffer to the last byte,
    no room is left for the suffix byte: [flip] fails with [ERR_OVERFLOW],
    the context stays as it is, and [extract] keeps failing with
    [ERR_STATE].  If at least one byte is left, [flip] hashes the chunks
    followed by [0x1F]: it returns the code of [sha3_256], stores what
    [sha3_256] stored over the zeroed state, and sets [finalized] exactly
    when that code is 0; the counter is 0. *)
Theorem shake_session_capacity {H : Sha3_256} (MAX_BUFFER_SIZE : nat)
    (mem : Shake.inner_keccak256_prng_ctx) (chunks : list (list byte))
    (stack out : list byte) (n : nat) :
  (length (concat chunks) <= MAX_BUFFER_SIZE)%nat ->
  exists c,
    shake_inject_all MAX_BUFFER_SIZE
      (snd (Shake.inner_keccak256_init MAX_BUFFER_SIZE (Some mem))) chunks
    = (map (fun _ => PRNG_OK) chunks, Some c)
    /\ plain_absorbed c = concat chunks
    /\ (length (concat chunks) = MAX_BUFFER_SIZE ->
        Shake.inner_keccak256_flip MAX_BUFFER_SIZE (Some c)
        = (ERR_OVERFLOW, Some c)
        /\ Shake.inner_keccak256_extract stack (Some c) (Some out) n
           = (ERR_STATE, Some c, Some out))
    /\ ((length (concat chunks) < MAX_BUFFER_SIZE)%nat ->
        exists c',
          Shake.inner_keccak256_flip MAX_BUFFER_SIZE (Some c)
          = (fst (sha3_256 (repeat x00 KECCAK256_OUTPUT)
                    (concat chunks ++ [Shake.SHAKE_SUFFIX])), Some c')
          /\ Plain.state c'
             = snd (sha3_256 (repeat x00 KECCAK256_OUTPUT)
                      (concat chunks ++ [Shake.SHAKE_SUFFIX]))
          /\ plain_absorbed c' = concat chunks ++ [Shake.SHAKE_SUFFIX]
          /\ Plain.finalized c'
             = (fst (sha3_256 (repeat x00 KECCAK256_OUTPUT)
                       (concat chunks ++ [Shake.SHAKE_SUFFIX])) =? 0)
          /\ Plain.counter c' = 0).
Proof.
  intros Hfit. rewrite shake_inject_all_is_plain.
  cbn [Shake.inner_keccak256_init snd].
  set (c0 := Plain.mk_ctx _ _ _ _ _).
  assert (Hwf : plain_ctx_wf MAX_BUFFER_SIZE c0).
  { unfold plain_ctx_wf, c0, memset.
    cbn [Plain.buffer Plain.state Plain.buffer_len].
    rewrite !repeat_length. auto with arith. }
  destruct (plain_inject_all_fits MAX_BUFFER_SIZE chunks c0 eq_refl Hwf Hfit)
    as (c & E & Ha & Hl & Hf & Hwf' & Hs & Hc).
  change (plain_absorbed c0) with (@nil byte) in Ha. cbn [app] in Ha.
  change (Plain.state c0) with (repeat x00 KECCAK256_OUTPUT) in Hs.
  change (Plain.counter c0) with 0 in Hc.
  rewrite Ha in Hl.
  exists c. split; [exact E|]. split; [exact Ha|]. split.
  - intros Hfull. split.
    + cbn [Shake.inner_keccak256_flip]. rewrite Hf.
      destruct (Nat.ltb_spec MAX_BUFFER_SIZE (Plain.buffer_len c + 1));
        [reflexivity|lia].
    + cbn [Shake.inner_keccak256_extract]. now rewrite Hf.
  - intros Hroom.
    destruct Hwf' as (Hb & _ & _).
    destruct (shake_flip_appends MAX_BUFFER_SIZE c Hf ltac:(lia) ltac:(lia))
      as (c' & Ef & Est & Eab & Elen & Efin & Ecnt).
    rewrite Ha, Hs in Ef, Est, Efin. rewrite Ha in Eab. rewrite Hc in Ecnt.
    exists c'. now repeat split.
Qed.

Lemma shake_session_capacity_witness :
  exists c,
    shake_inject_all EXAMPLE_CAPACITY
      (snd (Shake.inner_keccak256_init EXAMPLE_CAPACITY (Some plain_garbage)))
      [bytes_test; bytes_input]
    = (map (fun _ => PRNG_OK) [bytes_test; bytes_input], Some c)
    /\ plain_absorbed c = concat [bytes_test; bytes_input]
    /\ (length (concat [bytes_test; bytes_input]) = EXAMPLE_CAPACITY ->
        Shake.inner_keccak256_flip EXAMPLE_CAPACITY (Some c)
        = (ERR_OVERFLOW, Some c)
        /\ Shake.inner_keccak256_extract (repeat xee 32) (Some c)
             (Some (dest 32)) 32
           = (ERR_STATE, Some c, Some (dest 32)))
    /\ ((length (concat [bytes_test; bytes_input]) < EXAMPLE_CAPACITY)%nat ->
        exists c',
          Shake.inner_keccak256_flip EXAMPLE_CAPACITY (Some c)
          = (fst (sha3_256 (repeat x00 KECCAK256_OUTPUT)
                    (concat [bytes_test; bytes_input]
                     ++ [Shake.SHAKE_SUFFIX])), Some c')
          /\ Plain.state c'
             = snd (sha3_256 (repeat x00 KECCAK256_OUTPUT)
                      (concat [bytes_test; bytes_input]
                       ++ [Shake.SHAKE_SUFFIX]))
          /\ plain_absorbed c'
             = concat [bytes_test; bytes_input] ++ [Shake.SHAKE_SUFFIX]
          /\ Plain.finalized c'
             = (fst (sha3_256 (repeat x00 KECCAK256_OUTPUT)
                       (concat [bytes_test; bytes_input]
                        ++ [Shake.SHAKE_SUFFIX])) =? 0)
          /\ Plain.counter c' = 0).
Proof.
  apply (@shake_session_capacity Sha3_256_reference EXAMPLE_CAPACITY
           plain_garbage [bytes_test; bytes_input] (repeat xee 32)
           (dest 32) 32).
  unfold EXAMPLE_CAPACITY, bytes_test, bytes_input. cbn. lia.
Defined.

(** ** The capacity check of [inject], in range *)

(** X18.  [inject] with arguments in range: the context is well formed
    and not finalized, the array holds the [len] bytes, and [len] stays
    below [2^64 - MAX_BUFFER_SIZE], so that the sum in the capacity check
    does not wrap.  When the fill level plus [len] exceeds
    [MAX_BUFFER_SIZE] the call returns the overflow code and the context
    is as it was, no byte copied; otherwise it returns 0, the absorbed
    bytes are the old ones followed by the first [len] bytes of the
    array, and the bytes of the buffer beyond them and all other fields
    are as they were.  In [c/keccak_prng.c] and in the rendition on
    [sha3_256]. *)
Theorem inject_guard_in_range (MAX_BUFFER_SIZE : nat)
    (c : Plain.inner_keccak256_prng_ctx) (d : list byte) (len : Z) :
  Plain.finalized c = false ->
  plain_ctx_wf MAX_BUFFER_SIZE c ->
  0 <= len <= Z.of_nat (length d) ->
  Z.of_nat MAX_BUFFER_SIZE + len < 2 ^ 64 ->
  (Z.of_nat MAX_BUFFER_SIZE < Z.of_nat (Plain.buffer_len c) + len ->
   Plain.inner_keccak256_inject MAX_BUFFER_SIZE (Some c) (Some d) len
   = (ERR_OVERFLOW, Some c)
   /\ Shake.inner_keccak256_inject MAX_BUFFER_SIZE (Some c) (Some d) len
      = (ERR_OVERFLOW, Some c))
  /\ (Z.of_nat (Plain.buffer_len c) + len <= Z.of_nat MAX_BUFFER_SIZE ->
      exists c',
        Plain.inner_keccak256_inject MAX_BUFFER_SIZE (Some c) (Some d) len
        = (PRNG_OK, Some c')
        /\ Shake.inner_keccak256_inject MAX_BUFFER_SIZE (Some c) (Some d) len
           = (PRNG_OK, Some c')
        /\ plain_absorbed c' = plain_absorbed c ++ firstn (Z.to_nat len) d
        /\ Plain.buffer_len c' = (Plain.buffer_len c + Z.to_nat len)%nat
        /\ skipn (Plain.buffer_len c') (Plain.buffer c')
           = skipn (Plain.buffer_len c') (Plain.buffer c)
        /\ plain_ctx_wf MAX_BUFFER_SIZE c'
        /\ Plain.state c' = Plain.state c
        /\ Plain.counter c' = Plain.counter c
        /\ Plain.finalized c' = false).
Proof.
  intros Hfin Hwf Hlen Hsmall.
  pose proof (SIZE_MOD_bounds MAX_BUFFER_SIZE) as [Hm _].
  change (Shake.inner_keccak256_inject MAX_BUFFER_SIZE (Some c) (Some d) len)
    with (Plain.inner_keccak256_inject MAX_BUFFER_SIZE (Some c) (Some d) len).
  destruct (plain_inject_in_range MAX_BUFFER_SIZE c d len Hwf Hfin Hlen
              ltac:(lia)) as [[Hov E]|(Hok & E & Hwf')]; rewrite E.
  - split; [now split|]. intros Hfit. lia.
  - split; [intros Hov; lia|]. intros _. eexists.
    split; [reflexivity|]. split; [reflexivity|].
    destruct Hwf as (Hbuf & Hst & Hl).
    unfold plain_absorbed.
    cbn [Plain.buffer Plain.buffer_len Plain.state Plain.counter
         Plain.finalized].
    split; [apply memcpy_firstn; lia|].
    split; [reflexivity|].
    split; [apply memcpy_skipn; lia|].
    split; [exact Hwf'|]. auto.
Qed.

Lemma inject_guard_in_range_witness :
  (Plain.inner_keccak256_inject EXAMPLE_CAPACITY (Some plain_nearly_full)
     (Some bytes_input) 5 = (ERR_OVERFLOW, Some plain_nearly_full)
   /\ Shake.inner_keccak256_inject EXAMPLE_CAPACITY (Some plain_nearly_full)
        (Some bytes_input) 5 = (ERR_OVERFLOW, Some plain_nearly_full))
  /\ (exists c',
        Plain.inner_keccak256_inject EXAMPLE_CAPACITY (Some plain_nearly_full)
          (Some bytes_input) 3 = (PRNG_OK, Some c')
        /\ Shake.inner_keccak256_inject EXAMPLE_CAPACITY
             (Some plain_nearly_full) (Some bytes_input) 3
           = (PRNG_OK, Some c')
        /\ plain_absorbed c'
           = plain_absorbed plain_nearly_full ++ firstn (Z.to_nat 3) bytes_input
        /\ Plain.buffer_len c'
           = (Plain.buffer_len plain_nearly_full + Z.to_nat 3)%nat
        /\ skipn (Plain.buffer_len c') (Plain.buffer c')
           = skipn (Plain.buffer_len c') (Plain.buffer plain_nearly_full)
        /\ plain_ctx_wf EXAMPLE_CAPACITY c'
        /\ Plain.state c' = Plain.state plain_nearly_full
        /\ Plain.counter c' = Plain.counter plain_nearly_full
        /\ Plain.finalized c' = false).
Proof.
  split.
  - apply (inject_guard_in_range EXAMPLE_CAPACITY plain_nearly_full
             bytes_input 5 eq_refl).
    + unfold plain_ctx_wf. vm_compute. lia.
    + vm_compute. split; discriminate.
    + vm_compute. reflexivity.
    + vm_compute. reflexivity.
  - apply (inject_guard_in_range EXAMPLE_CAPACITY plain_nearly_full
             bytes_input 3 eq_refl).
    + unfold plain_ctx_wf. vm_compute. lia.
    + vm_compute. split; discriminate.
    + vm_compute. reflexivity.
    + vm_compute. discriminate.
Defined.

(** ** The Go wrappers *)

Section FalconFacts.
Import Falcon.
Context {L : library}.

Lemma has_first_nonempty s : has_first s = true <-> s <> [].
Proof. destruct s; cbn; split; congruence. Qed.

Lemma GetLogN_returns data logN :
  GetLogN data = Returns logN <->
  data <> [] /\ falcon_get_logn data = logN /\ 0 <= logN.
Proof.
  unfold GetLogN. destruct data as [|b data]; cbn [length Nat.eqb].
  - split; [discriminate|]. intros [H _]. now contradiction H.
  - destruct (Z.ltb_spec (falcon_get_logn (b :: data)) 0).
    + split; [discriminate|]. intros (_ & E & Hpos). lia.
    + split.
      * intros E. inversion E. repeat split; [discriminate|lia].
      * intros (_ & E & _). now rewrite E.
Qed.

Lemma GetLogN_accepts data :
  data <> [] -> 0 <= falcon_get_logn data ->
  GetLogN data = Returns (falcon_get_logn data).
Proof. intros Hd Hpos. now apply GetLogN_returns. Qed.

Lemma GetLogN_never_panics data : GetLogN data <> Panics.
Proof.
  unfold GetLogN. destruct (length data =? 0)%nat; [discriminate|].
  destruct (falcon_get_logn data <? 0); discriminate.
Qed.
End FalconFacts.

(** X13.  Empty slices in [falcon/falcon.go].  [GetLogN] refuses empty
    data, and [Sign] and [Verify] refuse an empty key, with the error
    "empty input data", whatever the library would answer.  An empty message
    cannot be signed or verified, and an empty signature cannot be
    verified: [&message[0]] is out of range, so [Sign] and [Verify] end
    in an error or panic, never in success.  [InitFromSeed], [Inject] and
    [Extract] panic on an empty slice. *)
Theorem empty_slices_never_reach_the_library {L : Falcon.library}
    (os : Falcon.entropy) (s : Falcon.shake256_context)
    (message signature key : list byte) (sigType : Z) :
  Falcon.GetLogN [] = Falcon.Fails (Falcon.errors_New "empty input data")
  /\ Falcon.Sign os message [] sigType
     = Falcon.Fails (Falcon.fmt_Errorf_w "invalid private key: %w"
                       (Falcon.errors_New "empty input data"))
  /\ Falcon.Verify signature message [] sigType
     = Falcon.Fails (Falcon.fmt_Errorf_w "invalid public key: %w"
                       (Falcon.errors_New "empty input data"))
  /\ (forall sig, Falcon.Sign os [] key sigType <> Falcon.Returns sig)
  /\ Falcon.Verify [] message key sigType <> Falcon.Returns tt
  /\ Falcon.Verify signature [] key sigType <> Falcon.Returns tt
  /\ Falcon.InitFromSeed [] = Falcon.Panics
  /\ Falcon.Inject s [] = Falcon.Panics
  /\ Falcon.Extract s [] = Falcon.Panics.
Proof.
  repeat split.
  - intros sig. unfold Falcon.Sign.
    destruct (Falcon.GetLogN key) as [logN|err|]; try discriminate.
    destruct (Falcon.signature_buffer_size _ _); [|discriminate].
    destruct (Falcon.InitFromSystem os) as [[err|] rng]; [discriminate|].
    cbn [Falcon.has_first]. rewrite andb_false_r. cbn [andb]. discriminate.
  - unfold Falcon.Verify.
    destruct (Falcon.GetLogN key) as [logN|err|]; discriminate.
  - unfold Falcon.Verify.
    destruct (Falcon.GetLogN key) as [logN|err|]; try discriminate.
    cbn [Falcon.has_first]. rewrite andb_false_r. cbn [andb]. discriminate.
Qed.

(** X14.  [GenerateKeyPair] refuses a degree outside 1 .. 10, whatever
    the library would do; when it returns a key pair the degree is in
    range, the generator of the operating system was initialized without
    error, [falcon_keygen_make] returned 0 on zeroed buffers of the sizes
    the macros give (all non-zero), and the pair holds the two key arrays
    as that call left them. *)
Theorem GenerateKeyPair_checks_the_degree {L : Falcon.library}
    (os : Falcon.entropy) (logN : nat) :
  Falcon.GenerateKeyPair os 0
  = Falcon.Fails (Falcon.errors_New "logN must be between 1 and 10")
  /\ (forall k, Falcon.GenerateKeyPair os (11 + k)
                = Falcon.Fails
                    (Falcon.errors_New "logN must be between 1 and 10"))
  /\ forall kp,
       Falcon.GenerateKeyPair os logN = Falcon.Returns kp ->
       (1 <= logN <= 10)%nat
       /\ fst (Falcon.shake256_init_prng_from_system os) = 0
       /\ (0 < Falcon.falcon_privkey_size logN)%nat
       /\ (0 < Falcon.falcon_pubkey_size logN)%nat
       /\ (0 < Falcon.falcon_tmpsize_keygen logN)%nat
       /\ Falcon.falcon_keygen_make
            (snd (Falcon.shake256_init_prng_from_system os)) logN
            (repeat x00 (Falcon.falcon_privkey_size logN))
            (repeat x00 (Falcon.falcon_pubkey_size logN))
            (repeat x00 (Falcon.falcon_tmpsize_keygen logN))
          = (0, (Falcon.PrivateKey kp, Falcon.PublicKey kp)).
Proof.
  split; [reflexivity|]. split; [reflexivity|].
  intros kp. unfold Falcon.GenerateKeyPair.
  destruct (Nat.ltb_spec logN 1), (Nat.ltb_spec 10 logN); cbn [orb];
    try discriminate.
  unfold Falcon.InitFromSystem, Falcon.privateKeySize, Falcon.publicKeySize,
    Falcon.tmpSizeKeygen, Falcon.make.
  destruct (Falcon.shake256_init_prng_from_system os) as [r rng].
  destruct (Z.eqb_spec r 0) as [Er|]; cbn [negb]; [|discriminate].
  destruct (Falcon.falcon_privkey_size logN) as [|a]; [discriminate|].
  destruct (Falcon.falcon_pubkey_size logN) as [|b]; [discriminate|].
  destruct (Falcon.falcon_tmpsize_keygen logN) as [|c]; [discriminate|].
  cbn [repeat Falcon.has_first andb fst snd].
  destruct (Falcon.falcon_keygen_make _ _ _ _ _) as [result [priv pub]].
  destruct (Z.eqb_spec result 0) as [Eres|]; cbn [negb]; [|discriminate].
  intros E. inversion E. subst. cbn [Falcon.PrivateKey Falcon.PublicKey].
  repeat split; lia.
Qed.

Lemma GenerateKeyPair_checks_the_degree_witness :
  @Falcon.GenerateKeyPair stand_in_library tt 9
  = Falcon.Returns (Falcon.mk_KeyPair (repeat x00 4) (repeat x00 4))
  /\ (1 <= 9 <= 10)%nat
  /\ @Falcon.GenerateKeyPair stand_in_library tt 0
     = Falcon.Fails (Falcon.errors_New "logN must be between 1 and 10").
Proof.
  split; [reflexivity|].
  split.
  - apply (proj2 (proj2 (@GenerateKeyPair_checks_the_degree stand_in_library
                           tt 9))
             (Falcon.mk_KeyPair (repeat x00 4) (repeat x00 4))).
    reflexivity.
  - apply (proj1 (@GenerateKeyPair_checks_the_degree stand_in_library tt 9)).
Defined.

(** X15.  [Sign] returns a signature only for a non-empty private key
    whose degree [falcon_get_logn] accepts, a non-empty message and one of
    the three signature types, and the signature is never longer than the
    buffer size the [switch] chose for that type.  With a valid private
    key, any other signature type is refused with "invalid signature
    type". *)
Theorem Sign_returns_a_bounded_signature {L : Falcon.library}
    (os : Falcon.entropy) (message privateKey : list byte) (sigType : Z) :
  (forall sig,
      Falcon.Sign os message privateKey sigType = Falcon.Returns sig ->
      privateKey <> [] /\ message <> []
      /\ 0 <= Falcon.falcon_get_logn privateKey
      /\ (sigType = Falcon.FALCON_SIG_COMPRESSED
          \/ sigType = Falcon.FALCON_SIG_PADDED
          \/ sigType = Falcon.FALCON_SIG_CT)
      /\ fst (Falcon.shake256_init_prng_from_system os) = 0
      /\ exists size,
           Falcon.signature_buffer_size
             (Z.to_nat (Falcon.falcon_get_logn privateKey)) sigType
           = Some size
           /\ (length sig <= size)%nat)
  /\ (privateKey <> [] -> 0 <= Falcon.falcon_get_logn privateKey ->
      sigType <> Falcon.FALCON_SIG_COMPRESSED ->
      sigType <> Falcon.FALCON_SIG_PADDED ->
      sigType <> Falcon.FALCON_SIG_CT ->
      Falcon.Sign os message privateKey sigType
      = Falcon.Fails (Falcon.errors_New "invalid signature type")).
Proof.
  split.
  - intros sig. unfold Falcon.Sign.
    destruct (Falcon.GetLogN privateKey) as [logN|err|] eqn:Eg;
      try discriminate.
    apply GetLogN_returns in Eg. destruct Eg as (Hpk & Elog & Hpos).
    subst logN.
    destruct (Falcon.signature_buffer_size _ sigType) as [size|] eqn:Es;
      [|discriminate].
    unfold Falcon.InitFromSystem.
    destruct (Falcon.shake256_init_prng_from_system os) as [r rng].
    destruct (Z.eqb_spec r 0) as [Er|]; cbn [negb]; [|discriminate].
    destruct (Falcon.has_first (Falcon.make size)); [|discriminate].
    destruct privateKey as [|p0 pk]; [now contradiction Hpk|].
    destruct message as [|m0 msg]; [discriminate|].
    cbn [Falcon.has_first andb].
    destruct (Falcon.has_first _); [|discriminate].
    destruct (Falcon.falcon_sign_dyn _ _ _ _ _ _ _) as [result [sig' sigLen]].
    destruct (negb (result =? 0)); [discriminate|].
    destruct (Nat.ltb_spec size sigLen); [discriminate|].
    intros E. inversion E. subst sig.
    repeat split; try assumption; try discriminate.
    + unfold Falcon.signature_buffer_size, Falcon.SigCompressed,
        Falcon.SigPadded, Falcon.SigCT in Es.
      destruct (Z.eqb_spec sigType Falcon.FALCON_SIG_COMPRESSED); [tauto|].
      destruct (Z.eqb_spec sigType Falcon.FALCON_SIG_PADDED); [tauto|].
      destruct (Z.eqb_spec sigType Falcon.FALCON_SIG_CT); [tauto|].
      discriminate.
    + exists size. split; [reflexivity|]. rewrite length_firstn. lia.
  - intros Hpk Hpos H1 H2 H3. unfold Falcon.Sign.
    destruct (Falcon.GetLogN privateKey) as [logN|err|] eqn:Eg.
    + unfold Falcon.signature_buffer_size, Falcon.SigCompressed,
        Falcon.SigPadded, Falcon.SigCT.
      destruct (Z.eqb_spec sigType Falcon.FALCON_SIG_COMPRESSED); [tauto|].
      destruct (Z.eqb_spec sigType Falcon.FALCON_SIG_PADDED); [tauto|].
      destruct (Z.eqb_spec sigType Falcon.FALCON_SIG_CT); [tauto|].
      reflexivity.
    + rewrite GetLogN_accepts in Eg by assumption. discriminate.
    + now apply GetLogN_never_panics in Eg.
Qed.

Lemma Sign_returns_a_bounded_signature_witness :
  @Falcon.Sign stand_in_library tt [x68; x69] [x59; x00] 1
  = Falcon.Returns [x00; x00; x00]
  /\ ([x59; x00] <> [] /\ [x68; x69] <> []
      /\ 0 <= @Falcon.falcon_get_logn stand_in_library [x59; x00]
      /\ (1 = @Falcon.FALCON_SIG_COMPRESSED stand_in_library
          \/ 1 = @Falcon.FALCON_SIG_PADDED stand_in_library
          \/ 1 = @Falcon.FALCON_SIG_CT stand_in_library)
      /\ fst (@Falcon.shake256_init_prng_from_system stand_in_library tt) = 0
      /\ exists size,
           @Falcon.signature_buffer_size stand_in_library
             (Z.to_nat (@Falcon.falcon_get_logn stand_in_library [x59; x00]))
             1
           = Some size
           /\ (length [x00; x00; x00] <= size)%nat).
Proof.
  split; [reflexivity|].
  apply (proj1 (@Sign_returns_a_bounded_signature stand_in_library tt
                  [x68; x69] [x59; x00] 1) [x00; x00; x00]).
  reflexivity.
Defined.

(** X16.  [Verify] returns [nil] exactly when signature, message and
    public key are non-empty, [falcon_get_logn] accepts the public key,
    the temporary buffer is not empty and [falcon_verify] returned 0; the
    signature type is passed on as it is, converted to a C [int]. *)
Theorem Verify_accepts_only_what_the_library_accepts {L : Falcon.library}
    (signature message publicKey : list byte) (sigType : Z) :
  Falcon.Verify signature message publicKey sigType = Falcon.Returns tt
  <-> (signature <> [] /\ message <> [] /\ publicKey <> []
       /\ 0 <= Falcon.falcon_get_logn publicKey
       /\ (0 < Falcon.falcon_tmpsize_verify
                 (Z.to_nat (Falcon.falcon_get_logn publicKey)))%nat
       /\ Falcon.falcon_verify signature (Falcon.C_int sigType) publicKey
            message
            (repeat x00 (Falcon.falcon_tmpsize_verify
                           (Z.to_nat (Falcon.falcon_get_logn publicKey))))
          = 0).
Proof.
  unfold Falcon.Verify.
  destruct (Falcon.GetLogN publicKey) as [logN|err|] eqn:Eg.
  - apply GetLogN_returns in Eg. destruct Eg as (Hpk & Elog & Hpos).
    subst logN. unfold Falcon.tmpSizeVerify, Falcon.make.
    destruct signature as [|s0 sg]; cbn [Falcon.has_first andb].
    { split; [discriminate|]. intros (H & _). now contradiction H. }
    destruct publicKey as [|p0 pk]; [now contradiction Hpk|].
    destruct message as [|m0 msg]; cbn [Falcon.has_first andb].
    { split; [discriminate|]. intros (_ & H & _). now contradiction H. }
    destruct (Falcon.falcon_tmpsize_verify _) as [|t];
      cbn [repeat Falcon.has_first].
    { split; [discriminate|]. intros (_ & _ & _ & _ & H & _). lia. }
    destruct (Z.eqb_spec (Falcon.falcon_verify (s0 :: sg)
                            (Falcon.C_int sigType) (p0 :: pk) (m0 :: msg)
                            (x00 :: repeat x00 t)) 0) as [E|E]; cbn [negb].
    + split; [|reflexivity]. intros _.
      repeat split; try discriminate; try lia; exact E.
    + split; [discriminate|]. intros (_ & _ & _ & _ & _ & H). contradiction.
  - split; [discriminate|]. intros (_ & _ & Hpk & Hpos & _).
    rewrite GetLogN_accepts in Eg by assumption. discriminate.
  - now apply GetLogN_never_panics in Eg.
Qed.

Lemma Verify_accepts_only_what_the_library_accepts_witness :
  @Falcon.Verify stand_in_library [x39; x01] [x68; x69] [x09; x00] 1
  = Falcon.Returns tt.
Proof.
  apply (proj2 (@Verify_accepts_only_what_the_library_accepts
                  stand_in_library [x39; x01] [x68; x69] [x09; x00] 1)).
  repeat split; try discriminate; cbn; lia.
Defined.
